(** * models.js: the observable dependency/revision engine

    A shallow embedding of [src/observable.ts]: the [Observable] /
    [ObservableOf] / [Property] classes as operations on a store of nodes,
    and [Collection] as operations on two of those nodes ([__items] and
    [__focus]).

    Conventions of the embedding.
    - Objects of class [Property] live in a store ([nodes]); an object
      reference is its index in the store.  Construction appends, so the
      index of a node is larger than the index of every node that existed
      when it was built.
    - A revision is a JavaScript number that only ever holds a small
      natural number ([0], then [_revision++]); it is modelled by [nat].
    - A promise returned by [getFunc] is pending from the call until it is
      settled; the settling (the [then]/[catch]/[finally] chain of
      [reset]) is the separate operation [settle].
    - Calls that leave the graph (getFunc, setFunc, change handlers,
      console.error) are recorded in a trace.  These callbacks are assumed
      not to re-enter the graph synchronously.  The default generator of a
      node is not in the trace: its calls are counted in the node
      ([p_default_calls]).
    - Values are compared and copied by content: two values of the model
      never share an array or an object. *)

From stdpp Require Import base option list strings pretty.
From Stdlib Require Import ZArith Lia.

Set Warnings "-register-all".

Open Scope Z_scope.
Open Scope nat_scope.

(** ** JavaScript values *)

Inductive jsval : Type :=
| VUndefined
| VNull
| VBool (b : bool)
| VNum (z : Z)                          (* an integral number *)
| VNaN
| VBigInt (z : Z)
| VStr (s : string)
| VArr (elems : list jsval)
| VObj (fields : list (string * jsval))
| VRef (id : nat).                      (* a Property object of the store *)

Inductive jstype := TUndefined | TObject | TBoolean | TNumber | TBigint | TString.

Definition typeof (v : jsval) : jstype :=
  match v with
  | VUndefined => TUndefined
  | VNull | VArr _ | VObj _ | VRef _ => TObject
  | VBool _ => TBoolean
  | VNum _ | VNaN => TNumber
  | VBigInt _ => TBigint
  | VStr _ => TString
  end.

Definition is_object (v : jsval) : bool :=
  match typeof v with TObject => true | _ => false end.

Definition is_number_or_bigint (v : jsval) : bool :=
  match typeof v with TNumber | TBigint => true | _ => false end.

(** ToBoolean, as used by [if (value)]. *)
Definition truthy (v : jsval) : bool :=
  match v with
  | VUndefined | VNull | VNaN => false
  | VBool b => b
  | VNum z | VBigInt z => negb (Z.eqb z 0)
  | VStr s => negb (String.eqb s EmptyString)
  | VArr _ | VObj _ | VRef _ => true
  end.

Definition isArray (v : jsval) : bool :=
  match v with VArr _ => true | _ => false end.

(** Reading a property of [null] or [undefined] raises a TypeError. *)
Definition nullish (v : jsval) : bool :=
  match v with VUndefined | VNull => true | _ => false end.

(** ** The host

    Builtins and duck-typed capabilities whose result the source takes
    from the JavaScript host or from user objects. *)

Record host := {
  (* Object.assign(target, source); [None] when it raises *)
  object_assign : jsval -> jsval -> option jsval;
  (* [Some m] when the object has an asModel method returning m *)
  asModel : jsval -> option jsval;
  (* [Some m] when the object has a toModel method returning m *)
  toModel : jsval -> option jsval;
  (* Array.prototype.sort on the boxed elements, by the comparator *)
  array_sort : (jsval -> jsval -> Z) -> list jsval -> list jsval
}.

(** ** Nodes and the store *)

Record node := {
  p_revision : nat;                       (* _revision *)
  p_dependents : list nat;                (* dependents, in insertion order *)
  p_dependencies : list (nat * nat);      (* { revision, observable } *)
  p_changeHandlers : list nat;            (* changeHandlers, insertion order *)
  p_default : nat -> jsval;               (* _default: result of its k-th call *)
  p_default_calls : nat;                  (* calls of _default made so far *)
  p_value : jsval;                        (* _value *)
  p_cached : bool;                        (* _cached *)
  p_isAsyncUpdating : bool;               (* _isAsyncUpdating *)
  p_pending : nat                         (* getFunc promises not yet settled *)
}.

Inductive event :=
| EGet (i : nat)                          (* this.getFunc() *)
| ESetFunc (i : nat) (v : jsval)          (* this.setFunc(v) *)
| EChange (i h : nat) (v : jsval)         (* changeHandler(this.value) *)
| EConsoleError (i : nat) (reason : jsval)(* console.error(...) *)
| EErrors (i : nat) (reason : jsval)      (* this.errors(...) *)
| EAddFunc (v : jsval)                    (* this.addFunc(v) *)
| EDeleteFunc (v : jsval).                (* this.deleteFunc(v) *)

Record world := {
  nodes : list node;
  trace : list event                      (* most recent call last *)
}.

Definition put (i : nat) (n : node) (w : world) : world :=
  {| nodes := <[i := n]> (nodes w); trace := trace w |}.

Definition emit (e : event) (w : world) : world :=
  {| nodes := nodes w; trace := trace w ++ [e] |}.

Definition set_dependencies (ds : list (nat * nat)) (n : node) : node :=
  {| p_revision := p_revision n; p_dependents := p_dependents n;
     p_dependencies := ds; p_changeHandlers := p_changeHandlers n;
     p_default := p_default n; p_default_calls := p_default_calls n;
     p_value := p_value n; p_cached := p_cached n;
     p_isAsyncUpdating := p_isAsyncUpdating n; p_pending := p_pending n |}.

Definition set_dependents (ds : list nat) (n : node) : node :=
  {| p_revision := p_revision n; p_dependents := ds;
     p_dependencies := p_dependencies n; p_changeHandlers := p_changeHandlers n;
     p_default := p_default n; p_default_calls := p_default_calls n;
     p_value := p_value n; p_cached := p_cached n;
     p_isAsyncUpdating := p_isAsyncUpdating n; p_pending := p_pending n |}.

Definition set_changeHandlers (hs : list nat) (n : node) : node :=
  {| p_revision := p_revision n; p_dependents := p_dependents n;
     p_dependencies := p_dependencies n; p_changeHandlers := hs;
     p_default := p_default n; p_default_calls := p_default_calls n;
     p_value := p_value n; p_cached := p_cached n;
     p_isAsyncUpdating := p_isAsyncUpdating n; p_pending := p_pending n |}.

Definition set_updating (b : bool) (pending : nat) (n : node) : node :=
  {| p_revision := p_revision n; p_dependents := p_dependents n;
     p_dependencies := p_dependencies n; p_changeHandlers := p_changeHandlers n;
     p_default := p_default n; p_default_calls := p_default_calls n;
     p_value := p_value n; p_cached := p_cached n;
     p_isAsyncUpdating := b; p_pending := pending |}.

Definition set_state (v : jsval) (revision calls : nat) (n : node) : node :=
  {| p_revision := revision; p_dependents := p_dependents n;
     p_dependencies := p_dependencies n; p_changeHandlers := p_changeHandlers n;
     p_default := p_default n; p_default_calls := calls;
     p_value := v; p_cached := p_cached n;
     p_isAsyncUpdating := p_isAsyncUpdating n; p_pending := p_pending n |}.

(** [xs.forEach(f)] where [f] may run out of fuel. *)
Fixpoint forEach {A} (f : A -> world -> option world) (xs : list A)
    (w : world) : option world :=
  match xs with
  | [] => Some w
  | x :: xs' => w' ← f x w; forEach f xs' w'
  end.

(** ** Observable *)

Definition isUndefined (n : node) : bool := p_revision n <? 1.

Definition isDirty (n : node) (revision : nat) : bool := revision <? p_revision n.

(** ** Property *)

Section Engine.

Variable H : host.

(** [dependency.observable.isUndefined], for the filter of [reset]. *)
Definition dep_isUndefined (w : world) (d : nat * nat) : bool :=
  match nodes w !! d.2 with
  | Some o => isUndefined o
  | None => false
  end.

(** The dirty-tracking loop of [reset]: the dependencies with their tracked
    revisions brought up to date, and [someWasDirty]. *)
Fixpoint track_dirty (w : world) (ds : list (nat * nat)) : list (nat * nat) * bool :=
  match ds with
  | [] => ([], false)
  | d :: ds' =>
      let '(ds'', some) := track_dirty w ds' in
      match nodes w !! d.2 with
      | Some o =>
          if isDirty o d.1 then ((p_revision o, d.2) :: ds'', true)
          else (d :: ds'', some)
      | None => (d :: ds'', some)
      end
  end.

(** [Property.reset].  The recursion goes to undefined dependencies, which
    were constructed earlier; [None] is fuel exhausted or a dangling
    reference. *)
Fixpoint reset_fuel (fuel : nat) (force : bool) (i : nat) (w : world) : option world :=
  match fuel with
  | 0 => None
  | S fuel' =>
      n ← nodes w !! i;
      let undefinedDependencies := List.filter (dep_isUndefined w) (p_dependencies n) in
      if 0 <? length undefinedDependencies then
        forEach (fun d => reset_fuel fuel' false d.2) undefinedDependencies w
      else
        let '(ds, someWasDirty) := track_dirty w (p_dependencies n) in
        let n1 := if 0 <? length (p_dependencies n) then set_dependencies ds n else n in
        let w1 := put i n1 w in
        if (0 <? length (p_dependencies n)) && negb force && negb someWasDirty then
          Some w1
        else if p_isAsyncUpdating n1 then
          Some w1
        else
          Some (emit (EGet i) (put i (set_updating true (S (p_pending n1)) n1) w1))
  end.

Definition reset (force : bool) (i : nat) (w : world) : option world :=
  reset_fuel (S i) force i w.

(** [ObservableOf._triggerChangeHandlers]. *)
Definition _triggerChangeHandlers (i : nat) (w : world) : world :=
  match nodes w !! i with
  | Some n =>
      {| nodes := nodes w;
         trace := trace w ++ map (fun h => EChange i h (p_value n)) (p_changeHandlers n) |}
  | None => w
  end.

(** How a synchronous call ends. *)
Inductive completion :=
| Returned (w : world)
| Thrown (w : world).

Definition world_of (c : completion) : world :=
  match c with Returned w | Thrown w => w end.

(** The new [_value] computed at the head of [set]; [None] when
    Object.assign raises. *)
Definition set_value (cur value : jsval) (byRef : bool) : option jsval :=
  if negb byRef && is_object value then
    if isArray cur && isArray value then Some value   (* value.slice() *)
    else object_assign H cur value
  else Some value.

(** [Property.set]. *)
Definition set (i : nat) (value : jsval) (byRef : bool) (w : world) : option completion :=
  n ← nodes w !! i;
  match set_value (p_value n) value byRef with
  | None => Some (Thrown w)
  | Some v =>
      let n1 := set_state v (S (p_revision n)) (p_default_calls n) n in
      let w1 := put i n1 w in
      let cascade (w2 : world) :=
        w3 ← forEach (reset false) (p_dependents n1) (_triggerChangeHandlers i w2);
        Some (Returned w3) in
      if p_isAsyncUpdating n1 then cascade w1
      else if nullish v then Some (Thrown w1)            (* modelOrAggregate.asModel *)
      else cascade (emit (ESetFunc i (default v (asModel H v))) w1)
  end.

(** The body of [_reinit] on the node itself: tracked revisions to 0, the
    value from a fresh call of [_default] unless cached, revision to 0. *)
Definition reinit_node (n : node) : node :=
  let n2 := set_dependencies (map (fun d : nat * nat => (0, d.2)) (p_dependencies n)) n in
  let n3 := if p_cached n2 then n2
            else set_state (p_default n2 (p_default_calls n2)) (p_revision n2)
                           (S (p_default_calls n2)) n2 in
  set_state (p_value n3) 0 (p_default_calls n3) n3.

(** [Property._reinit].  The recursion goes to dependents, which were
    constructed later. *)
Fixpoint _reinit_fuel (fuel : nat) (i : nat) (w : world) : option world :=
  match fuel with
  | 0 => None
  | S fuel' =>
      n ← nodes w !! i;
      if 0 <? p_revision n then
        w1 ← forEach (_reinit_fuel fuel') (p_dependents n) w;
        n1 ← nodes w1 !! i;
        Some (put i (reinit_node n1) w1)
      else Some w
  end.

Definition _reinit (i : nat) (w : world) : option world :=
  _reinit_fuel (length (nodes w) - i) i w.

(** [Set.prototype.add] and [Set.prototype.delete] on handler identities. *)
Definition set_add (h : nat) (hs : list nat) : list nat :=
  if existsb (Nat.eqb h) hs then hs else hs ++ [h].

Definition set_delete (h : nat) (hs : list nat) : list nat :=
  List.filter (fun h' => negb (Nat.eqb h h')) hs.

(** [ObservableOf.observe]; the observation it returns is identified by
    the handler. *)
Definition observe (i h : nat) (w : world) : option world :=
  n ← nodes w !! i;
  let n1 := set_changeHandlers (set_add h (p_changeHandlers n)) n in
  let w1 := put i n1 w in
  if isUndefined n1 then reset false i w1
  else Some (emit (EChange i h (p_value n1)) w1).

(** [Observation.end] of the observation returned by [observe i h]. *)
Definition observation_end (i h : nat) (w : world) : option world :=
  n ← nodes w !! i;
  let n1 := set_changeHandlers (set_delete h (p_changeHandlers n)) n in
  let w1 := put i n1 w in
  if length (p_changeHandlers n1) <? 1 then _reinit i w1 else Some w1.

(** How the promise of [getFunc] settles. *)
Inductive settled :=
| Resolved (v : jsval)
| Rejected (reason : jsval).

(** [.finally(() => this._isAsyncUpdating = false)]. *)
Definition finally (i : nat) (w : world) : world :=
  match nodes w !! i with
  | Some n => put i (set_updating false (p_pending n) n) w
  | None => w
  end.

(** The [then] / [catch] / [finally] chain of [reset], run when the promise
    of [getFunc] settles.  An exception raised inside the [then] callback
    is seen by [catch]; [exn] stands for that exception. *)
Definition settle (exn : jsval) (i : nat) (r : settled) (w : world) : option world :=
  n ← nodes w !! i;
  let w0 := put i (set_updating (p_isAsyncUpdating n) (pred (p_pending n)) n) w in
  match r with
  | Resolved value =>
      if truthy value || is_number_or_bigint value then
        c ← set i value false w0;
        match c with
        | Returned w1 => Some (finally i w1)
        | Thrown w1 => Some (finally i (emit (EConsoleError i exn) w1))
        end
      else Some (finally i w0)
  | Rejected reason => Some (finally i (emit (EConsoleError i reason) w0))
  end.

(** [new Property(args, parent)]: the node is appended to the store and
    registered with each of its dependencies. *)
Definition addDependent (this : nat) (ns : list node) (d : nat) : list node :=
  match ns !! d with
  | Some o => <[d := set_dependents (set_add this (p_dependents o)) o]> ns
  | None => ns
  end.

Definition new_Property (default_ : nat -> jsval) (cached : bool)
    (dependencies : list nat) (w : world) : world :=
  let this := length (nodes w) in
  let n := {| p_revision := 0; p_dependents := [];
              p_dependencies :=
                map (fun d => (from_option p_revision 0 (nodes w !! d), d)) dependencies;
              p_changeHandlers := [];
              p_default := default_; p_default_calls := 1;
              p_value := default_ 0; p_cached := cached;
              p_isAsyncUpdating := false; p_pending := 0 |} in
  {| nodes := foldl (addDependent this) (nodes w ++ [n]) dependencies;
     trace := trace w |}.

End Engine.

(** [Observable.dispose]: leave the dependents set of every dependency. *)
Definition removeDependent (this : nat) (ns : list node) (d : nat * nat) : list node :=
  match ns !! d.2 with
  | Some o => <[d.2 := set_dependents (List.filter (fun x => negb (Nat.eqb this x))
                                                   (p_dependents o)) o]> ns
  | None => ns
  end.

Definition dispose (i : nat) (w : world) : world :=
  match nodes w !! i with
  | Some n => {| nodes := foldl (removeDependent i) (nodes w) (p_dependencies n);
                 trace := trace w |}
  | None => w
  end.

(** ** Collection *)

(** The result of a call that may raise. *)
Inductive outcome (A : Type) :=
| Val (a : A)
| Err (index : Z).        (* new Error(`Illegal __focus (${index}) in ...`) *)

Arguments Val {A} a.
Arguments Err {A} index.

Record collection := {
  c_focus : nat;                            (* __focus *)
  c_items : nat;                            (* __items *)
  c_mapFunc : option (jsval -> jsval);      (* mapFunc, applied to the element *)
  c_Default : nat;
  c_SelectedIndices : nat;
  c_Errors : nat;
  c_Updating : nat
}.

Section Collection.

Variable H : host.

(** [Collection._map]. *)
Definition _map (c : collection) (element : jsval) : jsval :=
  match c_mapFunc c with
  | Some mapFunc => mapFunc element
  | None => element
  end.

(** [this.__items.value], an array of Property objects. *)
Definition items_value (c : collection) (w : world) : list jsval :=
  match nodes w !! c_items c with
  | Some n => match p_value n with VArr l => l | _ => [] end
  | None => []
  end.

(** In-place update of the array held by [__items] ([push], [splice],
    [sort], [reverse] on [this.__items.value]): no [set], no revision.
    Only [_value] of the node changes; see [new_Collection] for the array
    its default generator returns. *)
Definition items_mutate (c : collection) (l : list jsval) (w : world) : world :=
  match nodes w !! c_items c with
  | Some n => put (c_items c) (set_state (VArr l) (p_revision n) (p_default_calls n) n) w
  | None => w
  end.

(** [Collection.size]. *)
Definition size (c : collection) (w : world) : nat := length (items_value c w).

(** [Collection.validatedFocus]. *)
Definition validatedFocus (c : collection) (w : world) (index : Z) : outcome Z :=
  if (index <? -1)%Z || (index >=? Z.of_nat (size c w))%Z then
    if size c w <? 1 then Err index
    else Val (Z.of_nat (size c w) - 1)%Z
  else Val index.

(** [this.__focus.value], when it is an integral number. *)
Definition focus_value (c : collection) (w : world) : option Z :=
  n ← nodes w !! c_focus c;
  match p_value n with VNum z => Some z | _ => None end.

(** [Collection.CurrentAsIndex]. *)
Definition CurrentAsIndex (c : collection) (w : world) : option (outcome Z) :=
  z ← focus_value c w; Some (validatedFocus c w z).

(** [Property.model] of a boxed element; [None] when [_value] is null or
    undefined (reading [toModel] raises) or the reference dangles. *)
Definition property_model (w : world) (p : jsval) : option jsval :=
  match p with
  | VRef i =>
      n ← nodes w !! i;
      if nullish (p_value n) then None
      else Some (default (p_value n) (toModel H (p_value n)))
  | _ => None
  end.

(** [Collection.CurrentAsProperty]. *)
Definition CurrentAsProperty (c : collection) (w : world) : option (outcome jsval) :=
  z ← focus_value c w;
  match validatedFocus c w z with
  | Err e => Some (Err e)
  | Val index =>
      if (index >=? 0)%Z then
        p ← items_value c w !! Z.to_nat index; Some (Val p)
      else Some (Val VNull)
  end.

(** [Collection.CurrentAsModel]. *)
Definition CurrentAsModel (c : collection) (w : world) : option (outcome jsval) :=
  z ← focus_value c w;
  match validatedFocus c w z with
  | Err e => Some (Err e)
  | Val index =>
      if (index >=? 0)%Z then
        p ← items_value c w !! Z.to_nat index;
        m ← property_model w p; Some (Val m)
      else Some (Val VNull)
  end.

(** [Collection.add].  [push] returns the new length of the array. *)
Definition add (c : collection) (value : jsval) (w : world) : option completion :=
  let w1 := emit (EAddFunc value) w in
  let capturedMap := _map c value in
  let property := length (nodes w1) in
  let w2 := new_Property (fun _ => capturedMap) false [] w1 in
  let l := items_value c w2 ++ [VRef property] in
  let index := length l in
  let w3 := items_mutate c l w2 in
  r ← set H (c_focus c) (VNum (Z.of_nat index)) false w3;
  match r with
  | Returned w4 => Some (Returned (_triggerChangeHandlers (c_items c) w4))
  | Thrown w4 => Some (Thrown w4)
  end.

(** [Collection.deleteIndex]; [splice(index, 1)]. *)
Definition deleteIndex (c : collection) (index : nat) (w : world) : option completion :=
  let l := items_value c w in
  let property := l !! index in
  let w1 := items_mutate c (take index l ++ drop (S index) l) w in
  r ← set H (c_focus c) (VNum (if size c w1 <? 1 then -1 else 0)) false w1;
  match r with
  | Thrown w2 => Some (Thrown w2)
  | Returned w2 =>
      match property with
      | Some (VRef p) =>
          match property_model w2 (VRef p) with
          | Some m =>
              Some (Returned (_triggerChangeHandlers (c_items c)
                                (dispose p (emit (EDeleteFunc m) w2))))
          | None => Some (Thrown w2)
          end
      | _ => Some (Thrown w2)            (* property is undefined *)
      end
  end.

(** The loop of [Collection.delete], from index [i]; it ends after at most
    [fuel] rounds. *)
Fixpoint delete_from (fuel : nat) (c : collection) (predicate : jsval -> bool)
    (i : nat) (w : world) : option completion :=
  match fuel with
  | 0 => if i <? size c w then None else Some (Returned w)
  | S fuel' =>
      if i <? size c w then
        p ← items_value c w !! i;
        match property_model w p with
        | None => Some (Thrown w)
        | Some model =>
            if predicate model then
              r ← deleteIndex c i w;
              match r with
              | Returned w1 => delete_from fuel' c predicate (S i) w1
              | Thrown w1 => Some (Thrown w1)
              end
            else delete_from fuel' c predicate (S i) w
        end
      else Some (Returned w)
  end.

(** [Collection.delete]. *)
Definition delete (c : collection) (predicate : jsval -> bool) (w : world)
    : option completion :=
  delete_from (size c w) c predicate 0 w.

(** [Collection.sort]. *)
Definition sort (c : collection) (compareFn : jsval -> jsval -> Z) (w : world) : world :=
  _triggerChangeHandlers (c_items c)
    (items_mutate c (array_sort H compareFn (items_value c w)) w).

(** [Collection.reverse]. *)
Definition reverse (c : collection) (w : world) : world :=
  _triggerChangeHandlers (c_items c) (items_mutate c (rev (items_value c w)) w).

(** The loop [for (let index = 0; index < length; index++)] that stops at
    the first element passing [test]: that index, or [None] when no element
    passes.  The outer [None] is a test that raised. *)
Fixpoint first_match (test : jsval -> option bool) (l : list jsval) (index : nat)
    : option (option nat) :=
  match l with
  | [] => Some None
  | x :: l' =>
      match test x with
      | None => None
      | Some true => Some (Some index)
      | Some false => first_match test l' (S index)
      end
  end.

(** The index found, or -1. *)
Definition index_or_minus_one (r : option nat) : Z :=
  match r with Some index => Z.of_nat index | None => (-1)%Z end.

(** [property === this.__items.value[index]]. *)
Definition same_property (property : nat) (x : jsval) : bool :=
  match x with VRef q => Nat.eqb property q | _ => false end.

(** [Property.value] of a boxed element. *)
Definition property_value (w : world) (p : jsval) : option jsval :=
  match p with
  | VRef i => p_value <$> nodes w !! i
  | _ => None
  end.

(** [Collection.SetCurrentByProperty]. *)
Definition SetCurrentByProperty (c : collection) (property : nat) (w : world)
    : option completion :=
  r ← first_match (fun x => Some (same_property property x)) (items_value c w) 0;
  set H (c_focus c) (VNum (index_or_minus_one r)) false w.

(** [Collection.SetCurrentByPredicate]. *)
Definition SetCurrentByPredicate (c : collection) (predicate : jsval -> bool) (w : world)
    : option completion :=
  r ← first_match (fun x => predicate <$> property_value w x) (items_value c w) 0;
  set H (c_focus c) (VNum (index_or_minus_one r)) false w.

(** [Collection.SetCurrentByIndex]. *)
Definition SetCurrentByIndex (c : collection) (index : Z) (w : world) : option completion :=
  if (index >=? 0)%Z && (index <? Z.of_nat (size c w))%Z
  then set H (c_focus c) (VNum index) false w
  else set H (c_focus c) (VNum (-1)) false w.

(** [Collection.CurrentAsAggregate]. *)
Definition CurrentAsAggregate (c : collection) (w : world) : option (outcome jsval) :=
  z ← focus_value c w;
  match validatedFocus c w z with
  | Err e => Some (Err e)
  | Val index =>
      if (index >=? 0)%Z then
        p ← items_value c w !! Z.to_nat index;
        v ← property_value w p; Some (Val v)
      else Some (Val VNull)
  end.

(** [Collection.findIndex]; [None] when reading a model raises. *)
Definition findIndex (c : collection) (predicate : jsval -> bool) (w : world) : option Z :=
  r ← first_match (fun x => predicate <$> property_model w x) (items_value c w) 0;
  Some (index_or_minus_one r).

(** [Collection.find]; [VUndefined] when no model passes, [None] when
    reading a model raises. *)
Definition find (c : collection) (predicate : jsval -> bool) (w : world) : option jsval :=
  r ← first_match (fun x => predicate <$> property_model w x) (items_value c w) 0;
  match r with
  | Some index => x ← items_value c w !! index; property_model w x
  | None => Some VUndefined
  end.

(** [Collection.models], run to its end; [None] when reading a model
    raises. *)
Definition models (c : collection) (w : world) : option (list jsval) :=
  mapM (property_model w) (items_value c w).

(** [Collection._box]: one Property per element, appended to the store. *)
Fixpoint _box (c : collection) (elements : list jsval) (w : world) : list jsval * world :=
  match elements with
  | [] => ([], w)
  | element :: rest =>
      let p := length (nodes w) in
      let w1 := new_Property (fun _ => _map c element) false [] w in
      let '(ps, w2) := _box c rest w1 in
      (VRef p :: ps, w2)
  end.

(** [new Collection(args, parent)]: [__focus], the boxes of [args.initial],
    [__items], [Default], [SelectedIndices], [Errors] and [Updating], built
    in this order.

    What this embedding of the constructor covers is the collection as its
    synchronous methods see it ([add], [deleteIndex], [delete], [sort],
    [reverse], the [SetCurrent...] and [CurrentAs...] members, [find],
    [findIndex]).  Two things of [__items] are outside it.
    - Its default generator returns the array [capturedBox] itself, the
      very array that [_value] holds after construction and that [add],
      [deleteIndex], [sort] and [reverse] change in place.  Values of the
      model are not shared: [p_default] of the node keeps the initial
      boxes.  What [_reinit] or the end of an observation would store in
      [__items] after such a change is therefore not given by this model.
    - Its [get] is [_boxedGet], which sets [Updating], awaits the
      collection's own [getFunc] and boxes the response.  The node is built
      like any Property, so a [reset] of it records the call of its [get]
      ([EGet]) and no more: the assignments to [Updating] and the boxing
      are not modelled, and no fetch of [__items] is described here. *)
Definition new_Collection (default_ : nat -> jsval) (initial : list jsval)
    (mapFunc : option (jsval -> jsval)) (w : world) : collection * world :=
  let focus := length (nodes w) in
  let w1 := new_Property (fun _ => VNum (-1)) false [] w in
  let c0 := {| c_focus := focus; c_items := 0; c_mapFunc := mapFunc; c_Default := 0;
               c_SelectedIndices := 0; c_Errors := 0; c_Updating := 0 |} in
  let '(capturedBox, w2) := _box c0 initial w1 in
  let items := length (nodes w2) in
  let w3 := new_Property (fun _ => VArr capturedBox) false [] w2 in
  let w4 := new_Property default_ false [] w3 in
  let w5 := new_Property (fun _ => VObj []) false [] w4 in
  let w6 := new_Property (fun _ => VArr []) false [] w5 in
  let w7 := new_Property (fun _ => VBool true) false [] w6 in
  ({| c_focus := focus; c_items := items; c_mapFunc := mapFunc; c_Default := items + 1;
      c_SelectedIndices := items + 2; c_Errors := items + 3; c_Updating := items + 4 |},
   w7).

End Collection.

(** ** Operations as data *)

Inductive op :=
| OpNew (default_ : nat -> jsval) (cached : bool) (dependencies : list nat)
| OpSet (i : nat) (value : jsval) (byRef : bool)
| OpReset (force : bool) (i : nat)
| OpObserve (i h : nat)
| OpEnd (i h : nat)
| OpReinit (i : nat)
| OpSettle (exn : jsval) (i : nat) (r : settled).

(** One operation on the graph.  A promise can only settle while it is
    pending, and a node can only depend on nodes that exist. *)
Definition run (H : host) (o : op) (w : world) : option world :=
  match o with
  | OpNew default_ cached dependencies =>
      if forallb (fun d => d <? length (nodes w)) dependencies
      then Some (new_Property default_ cached dependencies w) else None
  | OpSet i value byRef => world_of <$> set H i value byRef w
  | OpReset force i => reset force i w
  | OpObserve i h => observe i h w
  | OpEnd i h => observation_end i h w
  | OpReinit i => _reinit i w
  | OpSettle exn i r =>
      n ← nodes w !! i;
      if 0 <? p_pending n then settle H exn i r w else None
  end.

Fixpoint run_all (H : host) (os : list op) (w : world) : option world :=
  match os with
  | [] => Some w
  | o :: os' => w' ← run H o w; run_all H os' w'
  end.

(** The operations that reinitialise: [_reinit] itself and the end of an
    observation, which calls it. *)
Definition reinits (o : op) : bool :=
  match o with OpEnd _ _ | OpReinit _ => true | _ => false end.

(** ** A concrete host: plain data objects *)

Fixpoint assign_field (k : string) (v : jsval) (fs : list (string * jsval))
    : list (string * jsval) :=
  match fs with
  | [] => [(k, v)]
  | (k', v') :: fs' => if String.eqb k k' then (k, v) :: fs' else (k', v') :: assign_field k v fs'
  end.

(** The own enumerable fields that Object.assign reads from a source: the
    fields of a plain object, the elements of an array under their indices;
    null has none.  A reference to a Property is not a source of this
    host: the fields of a Property object are not values of the model. *)
Definition own_fields (source : jsval) : list (string * jsval) :=
  match source with
  | VObj gs => gs
  | VArr l => imap (fun i x => (pretty i, x)) l
  | _ => []
  end.

(** Object.assign onto a plain object: each field of the source replaces
    the field of that name or is added after the others (a [VObj] lists
    its fields in the order they were added).  It raises on a null or
    undefined target.  A target that is no plain object (an array, or a
    primitive, which Object.assign would wrap) is returned as it is; the
    stores of this host hold numbers and plain objects. *)
Definition plain_assign (target source : jsval) : option jsval :=
  match target with
  | VUndefined | VNull => None
  | VObj fs =>
      Some (VObj (foldl (fun acc kv => assign_field kv.1 kv.2 acc) fs (own_fields source)))
  | _ => Some target
  end.

(** Insertion of [x], which came before every element of [l] in the
    array: it goes before the first element it does not compare greater
    than, so elements that compare equal keep their order. *)
Fixpoint insert_sorted (compareFn : jsval -> jsval -> Z) (x : jsval) (l : list jsval)
    : list jsval :=
  match l with
  | [] => [x]
  | y :: l' => if (compareFn x y <=? 0)%Z then x :: y :: l'
               else y :: insert_sorted compareFn x l'
  end.

(** A stable sort, as Array.prototype.sort is on a consistent comparator. *)
Definition stable_sort (compareFn : jsval -> jsval -> Z) (l : list jsval) : list jsval :=
  foldr (insert_sorted compareFn) [] l.

(** Values without methods: no asModel, no toModel. *)
Definition plain_host : host :=
  {| object_assign := plain_assign;
     asModel := fun _ => None;
     toModel := fun _ => None;
     array_sort := stable_sort |}.

Definition empty_world : world := {| nodes := []; trace := [] |}.

(** ** Paths

    [Property.path] and [Aggregate.path] walk the chain of parents.  The
    names along the chain come from the [name] getters, which search the
    fields of the parent object; here they are given: the names of the
    ancestors, nearest first, the empty string for a parent without a
    name. *)

(** [thisPath[0] >= '0' && thisPath[0] <= '9']. *)
Definition starts_with_digit (thisPath : string) : bool :=
  match thisPath with
  | String ch _ => (48 <=? Ascii.nat_of_ascii ch) && (Ascii.nat_of_ascii ch <=? 57)
  | EmptyString => false
  end.

(** One round of either loop, for a parent with a name. *)
Definition qualified (parent thisPath : string) : string :=
  if String.eqb parent "__items" then thisPath
  else if starts_with_digit thisPath then parent +:+ "[" +:+ thisPath +:+ "]"
  else parent +:+ "." +:+ thisPath.

(** [Property.path], from [this.name]. *)
Fixpoint Property_path (thisPath : string) (ancestors : list string) : string :=
  match ancestors with
  | [] => thisPath
  | name :: up =>
      Property_path (if String.eqb name EmptyString then "undefined." +:+ thisPath
                     else qualified name thisPath) up
  end.

(** [Aggregate.path], from [this.name]. *)
Fixpoint Aggregate_path (thisPath : string) (ancestors : list string) : string :=
  match ancestors with
  | [] => thisPath
  | name :: up =>
      if String.eqb name EmptyString then thisPath
      else Aggregate_path (qualified name thisPath) up
  end.

(** ** Well-formed stores, pending fetches, counting calls *)

(** Dependencies were constructed before the node, dependents after it. *)
Definition wf (w : world) : Prop :=
  forall i n, nodes w !! i = Some n ->
    Forall (fun d : nat * nat => d.2 < i) (p_dependencies n) /\
    Forall (fun d => i < d < length (nodes w)) (p_dependents n).

Definition is_get (k : nat) (e : event) : bool :=
  match e with EGet i => Nat.eqb i k | _ => false end.

(** How often [getFunc] of node [k] was called. *)
Definition gets (k : nat) (t : list event) : nat :=
  length (List.filter (is_get k) t).

Definition is_errors (k : nat) (e : event) : bool :=
  match e with EErrors i _ => Nat.eqb i k | _ => false end.

(** At most one promise of [getFunc] is pending, and only while the node
    is Updating. *)
Definition one_fetch (n : node) : Prop :=
  p_pending n <= (if p_isAsyncUpdating n then 1 else 0).

Definition single_flight (w : world) : Prop :=
  forall i n, nodes w !! i = Some n -> one_fetch n.

(** What a [reset] anywhere in the graph may do to a node: bring tracked
    revisions up to date and start a fetch if none is in flight. *)
Definition reset_rel (n n' : node) : Prop :=
  p_revision n' = p_revision n /\
  p_value n' = p_value n /\
  p_dependents n' = p_dependents n /\
  map snd (p_dependencies n') = map snd (p_dependencies n) /\
  p_changeHandlers n' = p_changeHandlers n /\
  p_default n' = p_default n /\
  p_default_calls n' = p_default_calls n /\
  p_cached n' = p_cached n /\
  ((p_isAsyncUpdating n' = p_isAsyncUpdating n /\ p_pending n' = p_pending n) \/
   (p_isAsyncUpdating n = false /\ p_isAsyncUpdating n' = true /\
    p_pending n' = S (p_pending n))).

Definition reset_step (w w' : world) : Prop :=
  length (nodes w') = length (nodes w) /\
  forall k n, nodes w !! k = Some n ->
    exists n', nodes w' !! k = Some n' /\ reset_rel n n' /\
      gets k (trace w') + p_pending n = gets k (trace w) + p_pending n'.

(** With no dependency dirty the loop changes nothing. *)

(** Operations keep the shape of the graph: who depends on whom. *)
Definition same_shape (w w' : world) : Prop :=
  length (nodes w') = length (nodes w) /\
  forall k n, nodes w !! k = Some n ->
    exists n', nodes w' !! k = Some n' /\
      p_dependents n' = p_dependents n /\
      map snd (p_dependencies n') = map snd (p_dependencies n).

(** [reset] returns on every well-formed store. *)

(** What a [_reinit] anywhere in the graph may do to a node. *)
Definition reinit_rel (n n' : node) : Prop :=
  p_dependents n' = p_dependents n /\
  map snd (p_dependencies n') = map snd (p_dependencies n) /\
  p_changeHandlers n' = p_changeHandlers n /\
  p_default n' = p_default n /\
  p_cached n' = p_cached n /\
  p_isAsyncUpdating n' = p_isAsyncUpdating n /\
  p_pending n' = p_pending n /\
  (n' = n \/ p_revision n' = 0).

Definition reinit_step (w w' : world) : Prop :=
  length (nodes w') = length (nodes w) /\
  trace w' = trace w /\
  forall k n, nodes w !! k = Some n ->
    exists n', nodes w' !! k = Some n' /\ reinit_rel n n'.

(** A [_reinit] of node [i] returns a store in which the nodes built before
    [i] are untouched. *)
Definition reinit_frame (i : nat) (w w' : world) : Prop :=
  reinit_step w w' /\ forall k, k < i -> nodes w' !! k = nodes w !! k.

(** [_reinit] returns on every well-formed store, and the node ends as
    [reinit_node] makes it. *)

(** What the operations that do not reinitialise may do to a node. *)
Definition evolve_rel (n n' : node) : Prop :=
  p_revision n <= p_revision n' /\
  p_dependents n' = p_dependents n /\
  map snd (p_dependencies n') = map snd (p_dependencies n) /\
  (one_fetch n -> one_fetch n') /\
  (p_isAsyncUpdating n = true ->
   p_isAsyncUpdating n' = true /\ p_pending n' = p_pending n).

Definition evolves (w w' : world) : Prop :=
  length (nodes w') = length (nodes w) /\
  forall k n, nodes w !! k = Some n ->
    exists n', nodes w' !! k = Some n' /\ evolve_rel n n'.

(** No node loses revisions. *)
Definition forward (w w' : world) : Prop :=
  forall k n, nodes w !! k = Some n ->
    exists n', nodes w' !! k = Some n' /\ p_revision n <= p_revision n'.

(** The store of [set] right after [this._revision++]. *)
Definition committed (i : nat) (n : node) (v : jsval) (w : world) : list node :=
  <[i := set_state v (S (p_revision n)) (p_default_calls n) n]> (nodes w).

(** What the construction of node [this] does to an older node. *)
Definition new_rel (this : nat) (o o' : node) : Prop :=
  p_revision o' = p_revision o /\
  p_dependencies o' = p_dependencies o /\
  p_isAsyncUpdating o' = p_isAsyncUpdating o /\
  p_pending o' = p_pending o /\
  Forall (fun x => x ∈ p_dependents o \/ x = this) (p_dependents o').

(** Only [getFunc] was called between two stores. *)
Definition only_gets (w w' : world) : Prop :=
  exists gs, trace w' = trace w ++ map EGet gs.

(** No dependency of the node is dirty against the revision tracked for
    it. *)
Definition clean (w : world) (n : node) : Prop :=
  Forall (fun d : nat * nat =>
            forall o, nodes w !! d.2 = Some o -> isDirty o d.1 = false)
         (p_dependencies n).

(** Every dependency of the node is Defined. *)
Definition inputs_defined (w : world) (n : node) : Prop :=
  Forall (fun d : nat * nat =>
            exists o, nodes w !! d.2 = Some o /\ 1 <= p_revision o)
         (p_dependencies n).

(** The node at [k] is as it was, and its [getFunc] was not called. *)
Definition keeps (k : nat) (n : node) (w w' : world) : Prop :=
  nodes w !! k = Some n -> nodes w' !! k = Some n /\ gets k (trace w') = gets k (trace w).

(** [reset] past its first step, when no dependency is undefined. *)
Definition reset_here (force : bool) (i : nat) (n : node) (w : world) : world :=
  let '(ds, someWasDirty) := track_dirty w (p_dependencies n) in
  let n1 := if 0 <? length (p_dependencies n) then set_dependencies ds n else n in
  let w1 := put i n1 w in
  if (0 <? length (p_dependencies n)) && negb force && negb someWasDirty then w1
  else if p_isAsyncUpdating n1 then w1
  else emit (EGet i) (put i (set_updating true (S (p_pending n1)) n1) w1).

(** Between two stores, every node but [f] holds the value it held. *)
Definition values_kept (f : nat) (w w' : world) : Prop :=
  length (nodes w') = length (nodes w) /\
  forall k n, k <> f -> nodes w !! k = Some n ->
    exists n', nodes w' !! k = Some n' /\ p_value n' = p_value n.

(** ** Concrete stores *)

Definition zero_default : nat -> jsval := fun _ => VNum 0.

(** A dependency D (node 0) committed once, and a dependent P (node 1)
    built afterwards, so that P tracks revision 1 of D. *)
Definition w_tracked : world :=
  default empty_world
    (run_all plain_host
       [OpNew zero_default false []; OpSet 0 (VNum 5) false; OpNew zero_default false [0]]
       empty_world).

(** A single node whose fetch is in flight. *)
Definition w_fetching : world :=
  default empty_world
    (run_all plain_host [OpNew zero_default false []; OpReset true 0] empty_world).

(** A single node, committed once. *)
Definition w_defined : world :=
  default empty_world
    (run_all plain_host [OpNew zero_default false []; OpSet 0 (VNum 7) false] empty_world).

(** A single observed node (handler 0), committed once; uncached and cached. *)
Definition w_observed (cached : bool) : world :=
  default empty_world
    (run_all plain_host
       [OpNew zero_default cached []; OpSet 0 (VNum 7) false; OpObserve 0 0]
       empty_world).

(** A boolean property (default [true]) whose fetch is in flight. *)
Definition w_flag_fetching : world :=
  default empty_world
    (run_all plain_host [OpNew (fun _ => VBool true) false []; OpReset true 0] empty_world).

Definition revision_at (i : nat) (w : world) : option nat := p_revision <$> nodes w !! i.
Definition value_at (i : nat) (w : world) : option jsval := p_value <$> nodes w !! i.
Definition updating_at (i : nat) (w : world) : option bool :=
  p_isAsyncUpdating <$> nodes w !! i.

(** The collection of the scenario: [initial = [{id:1},{id:2}]], no map. *)
Definition model_id (k : Z) : jsval := VObj [("id"%string, VNum k)].

Definition scenario : collection * world :=
  new_Collection (fun _ => VObj []) [model_id 1; model_id 2] None empty_world.

(** [m => m.id === k]. *)
Definition has_id (k : Z) (m : jsval) : bool :=
  match m with
  | VObj [(_, VNum z)] => Z.eqb z k
  | _ => false
  end.

(** A collection with two elements of the same id. *)
Definition twins : collection * world :=
  new_Collection (fun _ => VObj []) [model_id 1; model_id 1] None empty_world.

(** A collection of three elements, and an empty one. *)
Definition three : collection * world :=
  new_Collection (fun _ => VObj []) [model_id 1; model_id 2; model_id 3] None empty_world.

Definition none : collection * world :=
  new_Collection (fun _ => VObj []) [] None empty_world.

(** [(a, b) => a.value.id - b.value.id], read in store [w]. *)
Definition by_id (w : world) (a b : jsval) : Z :=
  let id_of p := match p with
                 | VRef i => match value_at i w with
                             | Some (VObj [(_, VNum z)]) => z
                             | _ => 0%Z
                             end
                 | _ => 0%Z
                 end in
  (id_of a - id_of b)%Z.

(** A single node, committed once by [set] while its fetch is in flight. *)
Definition w_defined_fetching : world :=
  default empty_world
    (run_all plain_host
       [OpNew zero_default false []; OpReset true 0; OpSet 0 (VNum 2) false] empty_world).

(** ** Collections in the store *)

(** A collection whose boxed elements are [l]: the items property holds
    them, the focus property exists, and every element is a Property other
    than those two. *)
Definition collection_at (c : collection) (w : world) (l : list jsval) : Prop :=
  wf w /\
  c_focus c <> c_items c /\
  c_focus c < length (nodes w) /\
  value_at (c_items c) w = Some (VArr l) /\
  Forall (fun x => exists p, x = VRef p /\ p <> c_focus c /\ p <> c_items c) l.

(** What the loop of [delete] leaves of a list: an element that passes the
    test goes, and the element after it is stepped over. *)
Fixpoint skip_delete {A} (test : A -> bool) (l : list A) : list A :=
  match l with
  | [] => []
  | x :: rest =>
      if test x then
        match rest with
        | [] => []
        | y :: rest' => y :: skip_delete test rest'
        end
      else x :: skip_delete test rest
  end.

(** No two neighbours both pass the test. *)
Fixpoint no_adjacent {A} (test : A -> bool) (l : list A) : bool :=
  match l with
  | x :: ((y :: _) as rest) => negb (test x && test y) && no_adjacent test rest
  | _ => true
  end.

(** [predicate(property.model)], for a property whose model can be read. *)
Definition model_passes (H : host) (w : world) (predicate : jsval -> bool) (x : jsval) : bool :=
  match property_model H w x with
  | Some m => predicate m
  | None => false
  end.

(** The node of [new Property] without dependencies. *)
Definition fresh (default_ : nat -> jsval) (cached : bool) : node :=
  {| p_revision := 0; p_dependents := []; p_dependencies := [];
     p_changeHandlers := []; p_default := default_; p_default_calls := 1;
     p_value := default_ 0; p_cached := cached;
     p_isAsyncUpdating := false; p_pending := 0 |}.

(** The mapped aggregate of an element, as [_map] computes it. *)
Definition mapped (mapFunc : option (jsval -> jsval)) (element : jsval) : jsval :=
  match mapFunc with Some f => f element | None => element end.

(** ** Decisions of [reset] and [settle], spelled out *)

(** [someWasDirty] as a test on the dependencies. *)
Definition some_dirty (w : world) (n : node) : bool :=
  existsb (fun d : nat * nat => from_option (fun o => isDirty o d.1) false (nodes w !! d.2))
          (p_dependencies n).

(** Whether [reset(force)] goes on to call [getFunc], given that every
    dependency is Defined. *)
Definition fetches (force : bool) (w : world) (n : node) : bool :=
  (match p_dependencies n with [] => true | _ => force || some_dirty w n end)
  && negb (p_isAsyncUpdating n).

(** The resolved values that [reset] drops. *)
Definition dropped (v : jsval) : Prop :=
  v = VUndefined \/ v = VNull \/ v = VBool false \/ v = VStr EmptyString.

(** * Proofs *)

Lemma forEach_rel {A} (R : world -> world -> Prop) (f : A -> world -> option world) xs :
  (forall w, R w w) ->
  (forall a b c, R a b -> R b c -> R a c) ->
  (forall x w0 w1, x ∈ xs -> f x w0 = Some w1 -> R w0 w1) ->
  forall w w', forEach f xs w = Some w' -> R w w'.
Proof.
  intros Hrefl Htrans. induction xs as [|x xs IH]; intros Hf w w' Hrun; simpl in Hrun.
  - inversion Hrun; subst. apply Hrefl.
  - destruct (f x w) as [w1|] eqn:Hx; simpl in Hrun; [|discriminate].
    eapply Htrans.
    + eapply Hf; [left|exact Hx].
    + apply IH; [|exact Hrun]. intros y w0 w2 Hy. apply Hf. by right.
Qed.

Lemma forEach_total {A} (P : world -> Prop) (f : A -> world -> option world) xs :
  (forall x w0, x ∈ xs -> P w0 -> exists w1, f x w0 = Some w1 /\ P w1) ->
  forall w, P w -> exists w', forEach f xs w = Some w' /\ P w'.
Proof.
  induction xs as [|x xs IH]; intros Hf w Hw; simpl.
  - eauto.
  - destruct (Hf x w) as (w1 & Hx & Hw1); [left|done|].
    rewrite Hx. simpl. apply IH; [|done].
    intros y w0 Hy. apply Hf. by right.
Qed.

Lemma reset_rel_refl n : reset_rel n n.
Proof. unfold reset_rel. tauto. Qed.

Lemma reset_rel_trans a b c : reset_rel a b -> reset_rel b c -> reset_rel a c.
Proof.
  unfold reset_rel.
  intros (?&?&?&?&?&?&?&?&Hab) (?&?&?&?&?&?&?&?&Hbc).
  repeat split; try congruence.
  destruct Hab as [[? ?]|(?&?&?)], Hbc as [[? ?]|(?&?&?)];
    [left; split; congruence | right | right | congruence];
    repeat split; congruence.
Qed.

Lemma reset_step_refl w : reset_step w w.
Proof.
  split; [done|]. intros k n Hk. exists n. split; [done|]. split; [apply reset_rel_refl|lia].
Qed.

Lemma reset_step_trans a b c : reset_step a b -> reset_step b c -> reset_step a c.
Proof.
  intros [Hl1 H1] [Hl2 H2]. split; [congruence|].
  intros k n Hk. destruct (H1 k n Hk) as (n1 & Hk1 & Hr1 & Hg1).
  destruct (H2 k n1 Hk1) as (n2 & Hk2 & Hr2 & Hg2).
  exists n2. split; [done|]. split; [by eapply reset_rel_trans|lia].
Qed.

Lemma gets_app k t1 t2 : gets k (t1 ++ t2) = gets k t1 + gets k t2.
Proof. unfold gets. by rewrite List.filter_app, length_app. Qed.

Lemma track_dirty_snd w ds : map snd (track_dirty w ds).1 = map snd ds.
Proof.
  induction ds as [|d ds IH]; simpl; [done|].
  destruct (track_dirty w ds) as [ds' some]; simpl in *.
  destruct (nodes w !! d.2) as [o|]; [destruct (isDirty o d.1)|]; simpl; by rewrite IH.
Qed.

Lemma track_dirty_clean w ds :
  Forall (fun d : nat * nat =>
            forall o, nodes w !! d.2 = Some o -> isDirty o d.1 = false) ds ->
  track_dirty w ds = (ds, false).
Proof.
  induction 1 as [|d ds Hd _ IH]; simpl; [done|].
  rewrite IH. destruct (nodes w !! d.2) as [o|] eqn:Ho; [|done].
  by rewrite (Hd o).
Qed.

Lemma reset_step_node i n n' w t' :
  nodes w !! i = Some n ->
  reset_rel n n' ->
  gets i t' + p_pending n = gets i (trace w) + p_pending n' ->
  (forall k, k <> i -> gets k t' = gets k (trace w)) ->
  reset_step w {| nodes := <[i := n']> (nodes w); trace := t' |}.
Proof.
  intros Hi Hrel Hg Hother. split; simpl; [by rewrite length_insert|].
  intros k m Hk. destruct (decide (k = i)) as [-> |Hne].
  - exists n'. rewrite list_lookup_insert_eq by (by eapply lookup_lt_Some).
    assert (m = n) as -> by congruence. done.
  - exists m. rewrite list_lookup_insert_ne by done.
    split; [done|]. split; [apply reset_rel_refl|]. rewrite Hother by done. lia.
Qed.

Lemma reset_fuel_step fuel : forall force i w w',
  reset_fuel fuel force i w = Some w' -> reset_step w w'.
Proof.
  induction fuel as [|fuel IH]; intros force i w w' Hrun; simpl in Hrun; [discriminate|].
  destruct (nodes w !! i) as [n|] eqn:Hi; simpl in Hrun; [|discriminate].
  destruct (0 <? length (List.filter (dep_isUndefined w) (p_dependencies n))).
  { revert Hrun. apply (forEach_rel reset_step);
      [apply reset_step_refl|apply reset_step_trans|].
    intros d w0 w1 _. apply IH. }
  pose proof (track_dirty_snd w (p_dependencies n)) as Hsnd.
  destruct (track_dirty w (p_dependencies n)) as [ds some]; simpl in Hsnd.
  set (n1 := if 0 <? length (p_dependencies n) then set_dependencies ds n else n) in *.
  assert (reset_rel n n1 /\ p_pending n1 = p_pending n /\
          p_isAsyncUpdating n1 = p_isAsyncUpdating n) as (Hn1 & Hp1 & Hu1).
  { subst n1. destruct (0 <? length (p_dependencies n)); simpl;
      (split; [|done]); unfold reset_rel; simpl; tauto. }
  assert (reset_step w (put i n1 w)) as Hput.
  { apply reset_step_node with (n := n); [done|done|simpl; lia|done]. }
  destruct ((0 <? length (p_dependencies n)) && negb force && negb some);
    [by inversion Hrun; subst|].
  destruct (p_isAsyncUpdating n1) eqn:Hupd; [by inversion Hrun; subst|].
  inversion Hrun; subst w'; clear Hrun.
  unfold emit, put; simpl. rewrite list_insert_insert_eq.
  apply reset_step_node with (n := n); [done| | |].
  - eapply reset_rel_trans; [exact Hn1|]. unfold reset_rel; simpl.
    repeat split; try done. right. done.
  - rewrite gets_app. simpl. unfold gets at 2. simpl. rewrite Nat.eqb_refl. simpl. lia.
  - intros k Hk. rewrite gets_app. unfold gets at 2. simpl.
    destruct (Nat.eqb_spec i k); [congruence|]. simpl. lia.
Qed.

Lemma reset_step_of_reset force i w w' : reset force i w = Some w' -> reset_step w w'.
Proof. apply reset_fuel_step. Qed.

Lemma same_shape_wf w w' : same_shape w w' -> wf w -> wf w'.
Proof.
  intros [Hl Hs] Hwf i n' Hi'.
  assert (i < length (nodes w)) as Hlt by (rewrite <- Hl; by eapply lookup_lt_Some).
  destruct (lookup_lt_is_Some_2 _ _ Hlt) as [n Hi].
  destruct (Hs i n Hi) as (n'' & Hi'' & Hdep & Hsnd).
  assert (n'' = n') as -> by congruence.
  destruct (Hwf i n Hi) as [Hd Hp].
  rewrite Hdep, Hl. split; [|done].
  apply Forall_forall. intros d Hd'.
  assert (d.2 ∈ map snd (p_dependencies n)) as Hin.
  { rewrite <- Hsnd. apply list_elem_of_fmap. by exists d. }
  apply list_elem_of_fmap in Hin as (d' & -> & Hin).
  by apply (proj1 (Forall_forall _ _) Hd d').
Qed.

Lemma reset_step_shape w w' : reset_step w w' -> same_shape w w'.
Proof.
  intros [Hl Hs]. split; [done|]. intros k n Hk.
  destruct (Hs k n Hk) as (n' & Hk' & Hr & _). exists n'.
  destruct Hr as (_&_&?&?&_). done.
Qed.

Lemma reset_step_wf_fwd w w' : reset_step w w' -> wf w -> wf w'.
Proof. intros Hs. apply same_shape_wf. by apply reset_step_shape. Qed.

Lemma reset_fuel_total fuel : forall force i w,
  i < fuel -> i < length (nodes w) -> wf w ->
  exists w', reset_fuel fuel force i w = Some w'.
Proof.
  induction fuel as [|fuel IH]; intros force i w Hfuel Hlen Hwf; [lia|]. simpl.
  destruct (lookup_lt_is_Some_2 _ _ Hlen) as [n Hi]. rewrite Hi. simpl.
  destruct (0 <? length (List.filter (dep_isUndefined w) (p_dependencies n))).
  - destruct (forEach_total
        (fun w0 => wf w0 /\ length (nodes w0) = length (nodes w))
        (fun d : nat * nat => reset_fuel fuel false d.2)
        (List.filter (dep_isUndefined w) (p_dependencies n))) with (w := w)
      as (w' & Hrun & _); [|done|by eauto].
    intros d w0 Hd [Hwf0 Hl0].
    apply list_elem_of_In, List.filter_In in Hd as [Hd _].
    apply list_elem_of_In in Hd.
    destruct (Hwf i n Hi) as [Hdeps _].
    pose proof (proj1 (Forall_forall _ _) Hdeps d Hd) as Hlt. simpl in Hlt.
    destruct (IH false d.2 w0) as [w1 Hw1]; [lia|lia|done|].
    exists w1. split; [done|]. apply reset_fuel_step in Hw1.
    split; [by eapply reset_step_wf_fwd|]. destruct Hw1 as [-> _]. done.
  - destruct (track_dirty w (p_dependencies n)) as [ds some].
    repeat match goal with |- context [if ?b then _ else _] => destruct b end; eauto.
Qed.

Lemma reset_total force i w :
  i < length (nodes w) -> wf w -> exists w', reset force i w = Some w'.
Proof. intros. apply reset_fuel_total; [lia|done|done]. Qed.

Lemma reinit_rel_refl n : reinit_rel n n.
Proof. unfold reinit_rel. tauto. Qed.

Lemma reinit_rel_trans a b c : reinit_rel a b -> reinit_rel b c -> reinit_rel a c.
Proof.
  unfold reinit_rel.
  intros (?&?&?&?&?&?&?&Hab) (?&?&?&?&?&?&?&Hbc).
  repeat split; try congruence.
  destruct Hbc as [->|?]; [exact Hab|by right].
Qed.

Lemma reinit_step_refl w : reinit_step w w.
Proof.
  split; [done|]. split; [done|]. intros k n Hk. exists n. split; [done|apply reinit_rel_refl].
Qed.

Lemma reinit_step_trans a b c : reinit_step a b -> reinit_step b c -> reinit_step a c.
Proof.
  intros (Hl1 & Ht1 & H1) (Hl2 & Ht2 & H2). split; [congruence|]. split; [congruence|].
  intros k n Hk. destruct (H1 k n Hk) as (n1 & Hk1 & Hr1).
  destruct (H2 k n1 Hk1) as (n2 & Hk2 & Hr2).
  exists n2. split; [done|]. by eapply reinit_rel_trans.
Qed.

Lemma reinit_step_shape w w' : reinit_step w w' -> same_shape w w'.
Proof.
  intros (Hl & _ & Hs). split; [done|]. intros k n Hk.
  destruct (Hs k n Hk) as (n' & Hk' & Hr). exists n'.
  destruct Hr as (?&?&_). done.
Qed.

Lemma map_snd_zero (ds : list (nat * nat)) :
  map snd (map (fun d : nat * nat => (0, d.2)) ds) = map snd ds.
Proof. induction ds as [|d ds IH]; simpl; [done|]. by rewrite IH. Qed.

Lemma reinit_fuel_frame fuel : forall i w w',
  wf w -> _reinit_fuel fuel i w = Some w' -> reinit_frame i w w'.
Proof.
  induction fuel as [|fuel IH]; intros i w w' Hwf Hrun; simpl in Hrun; [discriminate|].
  destruct (nodes w !! i) as [n|] eqn:Hi; simpl in Hrun; [|discriminate].
  destruct (0 <? p_revision n);
    [|inversion Hrun; subst; split; [apply reinit_step_refl|done]].
  destruct (forEach (_reinit_fuel fuel) (p_dependents n) w) as [w1|] eqn:Hdeps;
    simpl in Hrun; [|discriminate].
  assert (Forall (fun d => i < d) (p_dependents n)) as Hdeps_gt.
  { destruct (Hwf i n Hi) as [_ Hp]. eapply Forall_impl; [exact Hp|]. simpl. lia. }
  assert (wf w1 /\ reinit_frame (S i) w w1) as [Hwf1 [Hstep1 Hlow1]].
  { revert Hwf. revert Hdeps.
    apply (forEach_rel (fun a b => wf a -> wf b /\ reinit_frame (S i) a b)).
    - intros a Ha. split; [done|]. split; [apply reinit_step_refl|done].
    - intros a b c Hab Hbc Ha. destruct (Hab Ha) as (Hb & Hs1 & Hl1).
      destruct (Hbc Hb) as (Hc & Hs2 & Hl2). split; [done|].
      split; [by eapply reinit_step_trans|]. intros k Hk. rewrite Hl2, Hl1 by done. done.
    - intros d w0 w2 Hd Hrun0 Hwf0.
      destruct (IH d w0 w2 Hwf0 Hrun0) as [Hs Hl].
      split; [eapply same_shape_wf; [by apply reinit_step_shape|done]|].
      split; [done|]. intros k Hk. apply Hl.
      assert (i < d) by (by apply (proj1 (Forall_forall _ _) Hdeps_gt d Hd)). lia. }
  assert (nodes w1 !! i = Some n) as Hi1 by (rewrite Hlow1 by lia; done).
  rewrite Hi1 in Hrun. simpl in Hrun. inversion Hrun; subst w'; clear Hrun.
  split.
  - eapply reinit_step_trans; [exact Hstep1|].
    split; [unfold put; simpl; by rewrite length_insert|]. split; [done|].
    intros k m Hk. unfold put; simpl. destruct (decide (k = i)) as [-> |Hne].
    + rewrite list_lookup_insert_eq by (by eapply lookup_lt_Some).
      eexists. split; [done|]. assert (m = n) as -> by congruence.
      unfold reinit_rel, reinit_node. destruct (p_cached n) eqn:Hc; simpl; rewrite ?Hc; simpl;
        rewrite ?map_snd_zero; repeat split; try done; by right.
    + rewrite list_lookup_insert_ne by done. exists m. split; [done|apply reinit_rel_refl].
  - intros k Hk. unfold put; simpl. rewrite list_lookup_insert_ne by lia.
    apply Hlow1. lia.
Qed.

Lemma put_same_shape i n n1 w :
  nodes w !! i = Some n ->
  p_dependents n1 = p_dependents n ->
  map snd (p_dependencies n1) = map snd (p_dependencies n) ->
  same_shape w (put i n1 w).
Proof.
  intros Hi Hd Hs. split; [unfold put; simpl; by rewrite length_insert|].
  intros k m Hk. unfold put; simpl. destruct (decide (k = i)) as [-> |Hne].
  - rewrite list_lookup_insert_eq by (by eapply lookup_lt_Some).
    exists n1. assert (m = n) as -> by congruence. done.
  - rewrite list_lookup_insert_ne by done. by exists m.
Qed.

Lemma reinit_fuel_spec fuel : forall i w n,
  wf w -> nodes w !! i = Some n -> length (nodes w) - i <= fuel ->
  exists w', _reinit_fuel fuel i w = Some w' /\
    nodes w' !! i = Some (if 0 <? p_revision n then reinit_node n else n).
Proof.
  induction fuel as [|fuel IH]; intros i w n Hwf Hi Hfuel.
  { apply lookup_lt_Some in Hi. lia. }
  simpl. rewrite Hi. simpl. destruct (0 <? p_revision n); [|by eauto].
  destruct (Hwf i n Hi) as [_ Hdeps].
  destruct (forEach_total
      (fun w0 => wf w0 /\ length (nodes w0) = length (nodes w) /\ nodes w0 !! i = Some n)
      (_reinit_fuel fuel) (p_dependents n)) with (w := w)
    as (w1 & Hrun & Hwf1 & Hl1 & Hi1); [|done|].
  - intros d w0 Hd (Hwf0 & Hl0 & Hi0).
    assert (i < d < length (nodes w)) as Hrange
      by (by apply (proj1 (Forall_forall _ _) Hdeps d Hd)).
    destruct (lookup_lt_is_Some_2 (nodes w0) d) as [m Hm]; [lia|].
    destruct (IH d w0 m Hwf0 Hm) as (w1 & Hrun & _); [lia|].
    exists w1. split; [done|].
    destruct (reinit_fuel_frame _ _ _ _ Hwf0 Hrun) as [Hstep Hlow].
    split; [eapply same_shape_wf; [by apply reinit_step_shape|done]|].
    split; [destruct Hstep as [-> _]; done|]. rewrite Hlow by lia. done.
  - rewrite Hrun. simpl. rewrite Hi1. simpl. eexists. split; [done|].
    unfold put; simpl. apply list_lookup_insert_eq. by eapply lookup_lt_Some.
Qed.

Lemma reinit_spec i w n :
  wf w -> nodes w !! i = Some n ->
  exists w', _reinit i w = Some w' /\
    nodes w' !! i = Some (if 0 <? p_revision n then reinit_node n else n).
Proof. intros. by apply reinit_fuel_spec. Qed.

Lemma evolve_rel_refl n : evolve_rel n n.
Proof. unfold evolve_rel. repeat split; done. Qed.

Lemma evolve_rel_trans a b c : evolve_rel a b -> evolve_rel b c -> evolve_rel a c.
Proof.
  unfold evolve_rel. intros (?&?&?&Hf1&Hu1) (?&?&?&Hf2&Hu2).
  split; [lia|]. split; [congruence|]. split; [congruence|]. split; [tauto|].
  intros Ha. destruct (Hu1 Ha) as [Hb ?]. destruct (Hu2 Hb). split; congruence.
Qed.

Lemma evolves_refl w : evolves w w.
Proof. split; [done|]. intros k n Hk. exists n. split; [done|apply evolve_rel_refl]. Qed.

Lemma evolves_trans a b c : evolves a b -> evolves b c -> evolves a c.
Proof.
  intros [Hl1 H1] [Hl2 H2]. split; [congruence|].
  intros k n Hk. destruct (H1 k n Hk) as (n1 & Hk1 & Hr1).
  destruct (H2 k n1 Hk1) as (n2 & Hk2 & Hr2).
  exists n2. split; [done|]. by eapply evolve_rel_trans.
Qed.

Lemma evolves_nodes_eq w w' : nodes w' = nodes w -> evolves w w'.
Proof.
  intros Heq. split; [by rewrite Heq|]. intros k n Hk. exists n.
  rewrite Heq. split; [done|apply evolve_rel_refl].
Qed.

Lemma evolves_insert i n n' w w' :
  nodes w !! i = Some n -> evolve_rel n n' ->
  nodes w' = <[i := n']> (nodes w) -> evolves w w'.
Proof.
  intros Hi Hrel Heq. split; [by rewrite Heq, length_insert|].
  intros k m Hk. rewrite Heq. destruct (decide (k = i)) as [-> |Hne].
  - rewrite list_lookup_insert_eq by (by eapply lookup_lt_Some).
    exists n'. assert (m = n) as -> by congruence. done.
  - rewrite list_lookup_insert_ne by done. exists m. split; [done|apply evolve_rel_refl].
Qed.

Lemma reset_rel_evolve n n' : reset_rel n n' -> evolve_rel n n'.
Proof.
  unfold reset_rel, evolve_rel, one_fetch.
  intros (Hr&_&Hd&Hs&_&_&_&_&Hu). split; [lia|]. split; [done|]. split; [done|].
  destruct Hu as [[Hf Hp]|(Hf&Hf'&Hp)]; rewrite ?Hf, ?Hf', ?Hp.
  - split; [done|]. intros ->. done.
  - split; [simpl; lia|]. congruence.
Qed.

Lemma reset_step_evolves w w' : reset_step w w' -> evolves w w'.
Proof.
  intros [Hl Hs]. split; [done|]. intros k n Hk.
  destruct (Hs k n Hk) as (n' & Hk' & Hr & _). exists n'.
  split; [done|by apply reset_rel_evolve].
Qed.

Lemma evolves_shape w w' : evolves w w' -> same_shape w w'.
Proof.
  intros [Hl Hs]. split; [done|]. intros k n Hk.
  destruct (Hs k n Hk) as (n' & Hk' & Hr). exists n'.
  destruct Hr as (_&?&?&_). done.
Qed.

Lemma evolves_single_flight w w' : evolves w w' -> single_flight w -> single_flight w'.
Proof.
  intros [Hl Hs] Hsf i n' Hi'.
  assert (i < length (nodes w)) as Hlt by (rewrite <- Hl; by eapply lookup_lt_Some).
  destruct (lookup_lt_is_Some_2 _ _ Hlt) as [n Hi].
  destruct (Hs i n Hi) as (n'' & Hi'' & Hr).
  assert (n'' = n') as -> by congruence.
  destruct Hr as (_&_&_&Hf&_). apply Hf. by eapply Hsf.
Qed.

Lemma evolves_forward w w' : evolves w w' -> forward w w'.
Proof.
  intros [Hl Hs] k n Hk. destruct (Hs k n Hk) as (n' & Hk' & Hr).
  exists n'. split; [done|]. by destruct Hr.
Qed.

Lemma forEach_reset_step ds w w' :
  forEach (reset false) ds w = Some w' -> reset_step w w'.
Proof.
  apply (forEach_rel reset_step); [apply reset_step_refl|apply reset_step_trans|].
  intros d w0 w1 _. apply reset_step_of_reset.
Qed.

Lemma triggerChangeHandlers_nodes i w : nodes (_triggerChangeHandlers i w) = nodes w.
Proof. unfold _triggerChangeHandlers. by destruct (nodes w !! i). Qed.

(** The ways [set] can end. *)
Lemma set_inv H i v byRef w c n :
  nodes w !! i = Some n ->
  set H i v byRef w = Some c ->
  (set_value H (p_value n) v byRef = None /\ c = Thrown w) \/
  exists v', set_value H (p_value n) v byRef = Some v' /\
    ((p_isAsyncUpdating n = false /\ nullish v' = true /\
      c = Thrown {| nodes := committed i n v' w; trace := trace w |}) \/
     exists w3,
       c = Returned w3 /\
       reset_step
         {| nodes := committed i n v' w;
            trace := trace w
              ++ (if p_isAsyncUpdating n then []
                  else [ESetFunc i (default v' (asModel H v'))])
              ++ map (fun h => EChange i h v') (p_changeHandlers n) |} w3).
Proof.
  intros Hi Hset. unfold set in Hset. rewrite Hi in Hset. simpl in Hset.
  destruct (set_value H (p_value n) v byRef) as [v'|]; [right|left; split; congruence].
  exists v'. split; [done|].
  assert (forall t, _triggerChangeHandlers i {| nodes := committed i n v' w; trace := t |}
          = {| nodes := committed i n v' w;
               trace := t ++ map (fun h => EChange i h v') (p_changeHandlers n) |}) as Htrig.
  { intros t. unfold _triggerChangeHandlers, committed. simpl.
    rewrite list_lookup_insert_eq by (by eapply lookup_lt_Some). done. }
  destruct (p_isAsyncUpdating n) eqn:Hupd.
  - right. unfold put in Hset. fold (committed i n v' w) in Hset. rewrite Htrig in Hset.
    destruct (forEach _ _ _) as [w3|] eqn:Hcas; simpl in Hset; [|discriminate].
    exists w3. split; [congruence|]. by apply forEach_reset_step in Hcas.
  - destruct (nullish v');
      [left; split; [done|]; split; [done|]; by inversion Hset|right].
    unfold emit, put in Hset. simpl in Hset. fold (committed i n v' w) in Hset.
    rewrite Htrig in Hset.
    destruct (forEach _ _ _) as [w3|] eqn:Hcas; simpl in Hset; [|discriminate].
    exists w3. split; [congruence|]. apply forEach_reset_step in Hcas.
    rewrite <- app_assoc in Hcas. done.
Qed.

Lemma committed_evolves i n v w t :
  nodes w !! i = Some n ->
  evolves w {| nodes := committed i n v w; trace := t |}.
Proof.
  intros Hi. eapply evolves_insert; [exact Hi| |done].
  unfold evolve_rel, one_fetch. simpl. repeat split; try done. lia.
Qed.

Lemma set_evolves H i v byRef w c :
  set H i v byRef w = Some c -> evolves w (world_of c).
Proof.
  intros Hset. destruct (nodes w !! i) as [n|] eqn:Hi;
    [|unfold set in Hset; rewrite Hi in Hset; discriminate].
  destruct (set_inv _ _ _ _ _ _ _ Hi Hset) as [[_ ->]|(v' & _ & [(_&_&->)|(w3 & -> & Hs)])];
    simpl.
  - apply evolves_refl.
  - by apply committed_evolves.
  - eapply evolves_trans; [by eapply committed_evolves|by apply reset_step_evolves].
Qed.

(** [set] returns or raises on every well-formed store. *)
Lemma set_total H i v byRef w :
  wf w -> i < length (nodes w) -> exists c, set H i v byRef w = Some c.
Proof.
  intros Hwf Hlen. destruct (lookup_lt_is_Some_2 _ _ Hlen) as [n Hi].
  unfold set. rewrite Hi. simpl.
  destruct (set_value H (p_value n) v byRef) as [v'|]; [|by eauto].
  assert (forall t, exists w3,
    forEach (reset false) (p_dependents n)
      (_triggerChangeHandlers i {| nodes := committed i n v' w; trace := t |}) = Some w3)
    as Hcas.
  { intros t.
    set (w2 := _triggerChangeHandlers i {| nodes := committed i n v' w; trace := t |}).
    assert (evolves w w2) as Hev.
    { eapply evolves_trans; [by apply (committed_evolves i n v' w t)|].
      apply evolves_nodes_eq. apply triggerChangeHandlers_nodes. }
    destruct (forEach_total
        (fun w0 => wf w0 /\ length (nodes w0) = length (nodes w))
        (reset false) (p_dependents n)) with (w := w2) as (w3 & Hrun & _).
    - intros d w0 Hd [Hwf0 Hl0].
      destruct (Hwf i n Hi) as [_ Hp].
      assert (i < d < length (nodes w)) by (by apply (proj1 (Forall_forall _ _) Hp d Hd)).
      destruct (reset_total false d w0) as [w1 Hw1]; [lia|done|].
      exists w1. split; [done|]. apply reset_step_of_reset in Hw1.
      split; [by eapply reset_step_wf_fwd|]. destruct Hw1 as [-> _]. done.
    - split; [eapply same_shape_wf; [by apply evolves_shape|done]|by destruct Hev].
    - eauto. }
  simpl. destruct (p_isAsyncUpdating n).
  - destruct (Hcas (trace w)) as [w3 Hw3]. unfold put. fold (committed i n v' w).
    rewrite Hw3. simpl. eauto.
  - destruct (nullish v'); [by eauto|].
    destruct (Hcas (trace w ++ [ESetFunc i (default v' (asModel H v'))])) as [w3 Hw3].
    unfold emit, put. simpl. fold (committed i n v' w). rewrite Hw3. simpl. eauto.
Qed.

(** *** Construction *)

Lemma set_add_elem this l : Forall (fun x => x ∈ l \/ x = this) (set_add this l).
Proof.
  unfold set_add. destruct (existsb (Nat.eqb this) l).
  - apply Forall_forall. tauto.
  - apply Forall_app. split; [apply Forall_forall; tauto|].
    constructor; [by right|constructor].
Qed.

Lemma addDependent_fold this ds : forall ns,
  length (foldl (addDependent this) ns ds) = length ns /\
  (forall k, k ∉ ds -> foldl (addDependent this) ns ds !! k = ns !! k) /\
  (forall k o, ns !! k = Some o ->
     exists o', foldl (addDependent this) ns ds !! k = Some o' /\ new_rel this o o').
Proof.
  induction ds as [|d ds IH]; intros ns; simpl.
  { split; [done|]. split; [done|]. intros k o Hk. exists o. split; [done|].
    unfold new_rel. repeat split; try done. apply Forall_forall. tauto. }
  destruct (IH (addDependent this ns d)) as (Hl & Hout & Hin).
  assert (length (addDependent this ns d) = length ns) as Hl1.
  { unfold addDependent. destruct (ns !! d); [by rewrite length_insert|done]. }
  split; [congruence|]. split.
  - intros k Hk. rewrite Hout by (intros ?; apply Hk; by right).
    unfold addDependent. destruct (ns !! d); [|done].
    apply list_lookup_insert_ne. intros ->. apply Hk. by left.
  - intros k o Hk.
    assert (exists o1, addDependent this ns d !! k = Some o1 /\ new_rel this o o1)
      as (o1 & Hk1 & Hr1).
    { unfold addDependent. destruct (ns !! d) as [od|] eqn:Hd.
      - destruct (decide (k = d)) as [-> |Hne].
        + rewrite list_lookup_insert_eq by (by eapply lookup_lt_Some).
          eexists. split; [done|]. assert (od = o) as -> by congruence.
          unfold new_rel. simpl. repeat split; try done. apply set_add_elem.
        + rewrite list_lookup_insert_ne by done. exists o. split; [done|].
          unfold new_rel. repeat split; try done. apply Forall_forall. tauto.
      - exists o. split; [done|].
        unfold new_rel. repeat split; try done. apply Forall_forall. tauto. }
    destruct (Hin k o1 Hk1) as (o2 & Hk2 & Hr2). exists o2. split; [done|].
    destruct Hr1 as (?&?&?&?&Hf1), Hr2 as (?&?&?&?&Hf2).
    unfold new_rel. repeat split; try congruence.
    apply Forall_forall. intros x Hx.
    destruct (proj1 (Forall_forall _ _) Hf2 x Hx) as [Hx1| ->]; [|by right].
    by apply (proj1 (Forall_forall _ _) Hf1 x).
Qed.

Lemma new_Property_old default_ cached ds w k o :
  nodes w !! k = Some o ->
  exists o', nodes (new_Property default_ cached ds w) !! k = Some o' /\
    new_rel (length (nodes w)) o o'.
Proof.
  intros Hk. unfold new_Property. simpl.
  match goal with |- context [foldl _ ?ns ds] =>
    destruct (addDependent_fold (length (nodes w)) ds ns) as (_ & _ & Hin) end.
  apply Hin. by apply lookup_app_l_Some.
Qed.

Lemma new_Property_length default_ cached ds w :
  length (nodes (new_Property default_ cached ds w)) = S (length (nodes w)).
Proof.
  unfold new_Property. simpl.
  match goal with |- context [foldl _ ?ns ds] =>
    destruct (addDependent_fold (length (nodes w)) ds ns) as (-> & _ & _) end.
  rewrite length_app. simpl. lia.
Qed.

Lemma new_Property_new default_ cached ds w :
  forallb (fun d => d <? length (nodes w)) ds = true ->
  exists n, nodes (new_Property default_ cached ds w) !! length (nodes w) = Some n /\
    p_revision n = 0 /\ p_dependents n = [] /\ map snd (p_dependencies n) = ds /\
    p_isAsyncUpdating n = false /\ p_pending n = 0 /\ p_value n = default_ 0.
Proof.
  intros Hds. unfold new_Property. simpl.
  match goal with |- context [foldl _ ?ns ds] =>
    destruct (addDependent_fold (length (nodes w)) ds ns) as (_ & Hout & _) end.
  rewrite Hout.
  - rewrite lookup_app_r by lia. rewrite Nat.sub_diag. simpl. eexists. split; [done|].
    simpl. repeat split; try done.
    clear. induction ds as [|d ds IH]; simpl; [done|]. by rewrite IH.
  - intros Hin. rewrite forallb_forall in Hds. apply list_elem_of_In, Hds in Hin.
    apply Nat.ltb_lt in Hin. lia.
Qed.

Lemma new_Property_wf default_ cached ds w :
  forallb (fun d => d <? length (nodes w)) ds = true ->
  wf w -> wf (new_Property default_ cached ds w).
Proof.
  intros Hds Hwf k n' Hk. rewrite new_Property_length.
  destruct (decide (k < length (nodes w))) as [Hlt|Hge].
  - destruct (lookup_lt_is_Some_2 _ _ Hlt) as [o Ho].
    destruct (new_Property_old default_ cached ds w k o Ho) as (o' & Hk' & Hr).
    assert (o' = n') as -> by congruence.
    destruct (Hwf k o Ho) as [Hd Hp]. destruct Hr as (_&->&_&_&Hf). split; [done|].
    apply Forall_forall. intros x Hx.
    destruct (proj1 (Forall_forall _ _) Hf x Hx) as [Hx1| ->]; [|lia].
    assert (k < x < length (nodes w)) by (by apply (proj1 (Forall_forall _ _) Hp x)). lia.
  - assert (k = length (nodes w)) as ->.
    { apply lookup_lt_Some in Hk. rewrite new_Property_length in Hk. lia. }
    destruct (new_Property_new default_ cached ds w Hds) as (n & Hn & _ & Hdep & Hsnd & _).
    assert (n = n') as -> by congruence. rewrite Hdep. split; [|constructor].
    apply Forall_forall. intros d Hd.
    assert (d.2 ∈ ds) as Hin by (rewrite <- Hsnd; apply list_elem_of_fmap; by exists d).
    rewrite forallb_forall in Hds. apply list_elem_of_In, Hds in Hin.
    by apply Nat.ltb_lt in Hin.
Qed.

Lemma new_Property_single_flight default_ cached ds w :
  forallb (fun d => d <? length (nodes w)) ds = true ->
  single_flight w -> single_flight (new_Property default_ cached ds w).
Proof.
  intros Hds Hsf k n' Hk.
  destruct (decide (k < length (nodes w))) as [Hlt|Hge].
  - destruct (lookup_lt_is_Some_2 _ _ Hlt) as [o Ho].
    destruct (new_Property_old default_ cached ds w k o Ho) as (o' & Hk' & Hr).
    assert (o' = n') as -> by congruence.
    destruct Hr as (_&_&Hu&Hp&_). pose proof (Hsf k o Ho) as Hone.
    unfold one_fetch in *. by rewrite Hu, Hp.
  - assert (k = length (nodes w)) as ->.
    { apply lookup_lt_Some in Hk. rewrite new_Property_length in Hk. lia. }
    destruct (new_Property_new default_ cached ds w Hds) as (n & Hn & _ & _ & _ & Hu & Hp & _).
    assert (n = n') as -> by congruence. unfold one_fetch. rewrite Hu, Hp. done.
Qed.

Lemma new_Property_forward default_ cached ds w :
  forward w (new_Property default_ cached ds w).
Proof.
  intros k o Ho. destruct (new_Property_old default_ cached ds w k o Ho) as (o' & Hk' & Hr).
  exists o'. split; [done|]. destruct Hr as (->&_). done.
Qed.

(** *** Settling a fetch *)

Lemma settle_inv H exn i r w w' n :
  nodes w !! i = Some n ->
  settle H exn i r w = Some w' ->
  exists wX nX,
    evolves (put i (set_updating (p_isAsyncUpdating n) (pred (p_pending n)) n) w) wX /\
    nodes wX !! i = Some nX /\
    nodes w' = <[i := set_updating false (p_pending nX) nX]> (nodes wX).
Proof.
  intros Hi Hrun. unfold settle in Hrun. rewrite Hi in Hrun. simpl in Hrun.
  set (w0 := put i (set_updating (p_isAsyncUpdating n) (pred (p_pending n)) n) w) in *.
  assert (forall wX, evolves w0 wX -> exists nX, nodes wX !! i = Some nX) as Hlook.
  { intros wX [Hl _]. apply lookup_lt_is_Some_2. rewrite Hl. subst w0. unfold put. simpl.
    rewrite length_insert. by eapply lookup_lt_Some. }
  assert (forall wX e, evolves w0 wX -> w' = finally i (emit e wX) \/ w' = finally i wX ->
    exists wX nX, evolves w0 wX /\ nodes wX !! i = Some nX /\
      nodes w' = <[i := set_updating false (p_pending nX) nX]> (nodes wX)) as Hfin.
  { intros wX e Hev Hw'. destruct (Hlook wX Hev) as [nX HnX]. exists wX, nX.
    split; [done|]. split; [done|].
    destruct Hw' as [-> | ->]; unfold finally, emit; simpl; rewrite HnX; done. }
  destruct r as [value|reason].
  - destruct (truthy value || is_number_or_bigint value).
    + destruct (set H i value false w0) as [c|] eqn:Hset; simpl in Hrun; [|discriminate].
      apply set_evolves in Hset.
      destruct c as [w1|w1]; simpl in Hset; inversion Hrun; subst w';
        apply (Hfin w1 (EConsoleError i exn)); auto.
    + inversion Hrun; subst w'. apply (Hfin w0 (EConsoleError i exn)); auto using evolves_refl.
  - inversion Hrun; subst w'.
    apply (Hfin w0 (EConsoleError i reason)); auto using evolves_refl.
Qed.

Lemma settle_same_shape H exn i r w w' n :
  nodes w !! i = Some n -> settle H exn i r w = Some w' -> same_shape w w'.
Proof.
  intros Hi Hrun. destruct (settle_inv _ _ _ _ _ _ _ Hi Hrun) as (wX & nX & Hev & HnX & Hw').
  apply evolves_shape in Hev. destruct Hev as [HlX HsX].
  split.
  - rewrite Hw', length_insert, HlX. unfold put. simpl. by rewrite length_insert.
  - intros k m Hk.
    assert (exists m0, nodes (put i (set_updating (p_isAsyncUpdating n) (pred (p_pending n)) n) w)
                         !! k = Some m0 /\
              p_dependents m0 = p_dependents m /\
              map snd (p_dependencies m0) = map snd (p_dependencies m)) as (m0 & Hm0 & Hd0 & Hs0).
    { unfold put. simpl. destruct (decide (k = i)) as [-> |Hne].
      - rewrite list_lookup_insert_eq by (by eapply lookup_lt_Some).
        eexists. split; [done|]. assert (m = n) as -> by congruence. done.
      - rewrite list_lookup_insert_ne by done. by exists m. }
    destruct (HsX k m0 Hm0) as (m1 & Hm1 & Hd1 & Hs1). rewrite Hw'.
    destruct (decide (k = i)) as [-> |Hne].
    + rewrite list_lookup_insert_eq by (by eapply lookup_lt_Some).
      eexists. split; [done|]. assert (m1 = nX) as -> by congruence.
      simpl. split; congruence.
    + rewrite list_lookup_insert_ne by done. exists m1. split; [done|]. split; congruence.
Qed.

Lemma settle_forward H exn i r w w' n :
  nodes w !! i = Some n -> settle H exn i r w = Some w' -> forward w w'.
Proof.
  intros Hi Hrun. destruct (settle_inv _ _ _ _ _ _ _ Hi Hrun) as (wX & nX & Hev & HnX & Hw').
  apply evolves_forward in Hev. intros k m Hk.
  assert (exists m0, nodes (put i (set_updating (p_isAsyncUpdating n) (pred (p_pending n)) n) w)
                       !! k = Some m0 /\ p_revision m0 = p_revision m) as (m0 & Hm0 & Hr0).
  { unfold put. simpl. destruct (decide (k = i)) as [-> |Hne].
    - rewrite list_lookup_insert_eq by (by eapply lookup_lt_Some).
      eexists. split; [done|]. assert (m = n) as -> by congruence. done.
    - rewrite list_lookup_insert_ne by done. by exists m. }
  destruct (Hev k m0 Hm0) as (m1 & Hm1 & Hr1). rewrite Hw'.
  destruct (decide (k = i)) as [-> |Hne].
  + rewrite list_lookup_insert_eq by (by eapply lookup_lt_Some).
    eexists. split; [done|]. assert (m1 = nX) as -> by congruence. simpl. lia.
  + rewrite list_lookup_insert_ne by done. exists m1. split; [done|lia].
Qed.

Lemma settle_single_flight H exn i r w w' n :
  nodes w !! i = Some n -> 0 < p_pending n -> single_flight w ->
  settle H exn i r w = Some w' -> single_flight w'.
Proof.
  intros Hi Hpos Hsf Hrun.
  destruct (settle_inv _ _ _ _ _ _ _ Hi Hrun) as (wX & nX & Hev & HnX & Hw').
  pose proof (Hsf i n Hi) as Hone. unfold one_fetch in Hone.
  destruct (p_isAsyncUpdating n) eqn:Hupd; [|lia].
  set (n0 := set_updating true (pred (p_pending n)) n) in *.
  assert (single_flight (put i n0 w)) as Hsf0.
  { intros k m Hk. unfold put in Hk. simpl in Hk. destruct (decide (k = i)) as [-> |Hne].
    - rewrite list_lookup_insert_eq in Hk by (by eapply lookup_lt_Some).
      inversion Hk; subst m. unfold one_fetch, n0. simpl. lia.
    - rewrite list_lookup_insert_ne in Hk by done. by eapply Hsf. }
  pose proof (evolves_single_flight _ _ Hev Hsf0) as HsfX.
  destruct Hev as [_ HevX].
  destruct (HevX i n0) as (nX' & HnX' & Hrel).
  { unfold put. simpl. apply list_lookup_insert_eq. by eapply lookup_lt_Some. }
  assert (nX' = nX) as -> by congruence.
  destruct Hrel as (_&_&_&_&Hkeep). destruct (Hkeep eq_refl) as [_ HpX].
  intros k m Hk. rewrite Hw' in Hk. destruct (decide (k = i)) as [-> |Hne].
  - rewrite list_lookup_insert_eq in Hk by (by eapply lookup_lt_Some).
    inversion Hk; subst m. unfold one_fetch. simpl. rewrite HpX. unfold n0. simpl. lia.
  - rewrite list_lookup_insert_ne in Hk by done. by eapply HsfX.
Qed.

(** *** Observations *)

Lemma put_handlers_evolves i n hs w :
  nodes w !! i = Some n -> evolves w (put i (set_changeHandlers hs n) w).
Proof.
  intros Hi. eapply evolves_insert; [exact Hi| |done].
  unfold evolve_rel, one_fetch. simpl. repeat split; done.
Qed.

Lemma observe_evolves i h w w' : observe i h w = Some w' -> evolves w w'.
Proof.
  unfold observe. destruct (nodes w !! i) as [n|] eqn:Hi; simpl; [|discriminate].
  pose proof (put_handlers_evolves i n (set_add h (p_changeHandlers n)) w Hi) as Hput.
  destruct (isUndefined _).
  - intros Hrun. apply reset_step_of_reset, reset_step_evolves in Hrun.
    by eapply evolves_trans.
  - intros Hrun. inversion Hrun; subst w'. eapply evolves_trans; [exact Hput|].
    by apply evolves_nodes_eq.
Qed.

Lemma end_inv i h w w' :
  observation_end i h w = Some w' ->
  exists n w1, nodes w !! i = Some n /\
    w1 = put i (set_changeHandlers (set_delete h (p_changeHandlers n)) n) w /\
    evolves w w1 /\
    (w' = w1 \/ _reinit i w1 = Some w').
Proof.
  unfold observation_end. destruct (nodes w !! i) as [n|] eqn:Hi; simpl; [|discriminate].
  intros Hrun. exists n. eexists. split; [done|]. split; [done|].
  split; [by apply put_handlers_evolves|].
  destruct (_ <? 1); [by right|left; congruence].
Qed.

Lemma reinit_step_single_flight w w' :
  reinit_step w w' -> single_flight w -> single_flight w'.
Proof.
  intros (Hl & _ & Hs) Hsf i n' Hi'.
  assert (i < length (nodes w)) as Hlt by (rewrite <- Hl; by eapply lookup_lt_Some).
  destruct (lookup_lt_is_Some_2 _ _ Hlt) as [n Hi].
  destruct (Hs i n Hi) as (n'' & Hi'' & Hr).
  assert (n'' = n') as -> by congruence.
  destruct Hr as (_&_&_&_&_&Hu&Hp&_). pose proof (Hsf i n Hi) as Hone.
  unfold one_fetch in *. by rewrite Hu, Hp.
Qed.

Lemma reinit_step_of_reinit i w w' : wf w -> _reinit i w = Some w' -> reinit_step w w'.
Proof. intros Hwf Hrun. by destruct (reinit_fuel_frame _ _ _ _ Hwf Hrun). Qed.

(** *** Every operation keeps the store well formed and single-flight *)

Lemma run_wf H o w w' : wf w -> run H o w = Some w' -> wf w'.
Proof.
  intros Hwf Hrun. destruct o as [d c ds|i v b|f i|i h|i h|i|exn i r]; simpl in Hrun.
  - destruct (forallb _ ds) eqn:Hds; [|discriminate]. inversion Hrun; subst.
    by apply new_Property_wf.
  - destruct (set H i v b w) as [c|] eqn:Hset; simpl in Hrun; [|discriminate].
    inversion Hrun; subst. eapply same_shape_wf; [|done].
    apply evolves_shape. by eapply set_evolves.
  - eapply reset_step_wf_fwd; [|done]. by eapply reset_step_of_reset.
  - eapply same_shape_wf; [|done]. apply evolves_shape. by eapply observe_evolves.
  - destruct (end_inv _ _ _ _ Hrun) as (n & w1 & Hi & _ & Hev & Hw').
    assert (wf w1) as Hwf1 by (eapply same_shape_wf; [by apply evolves_shape|done]).
    destruct Hw' as [-> |Hre]; [done|].
    eapply same_shape_wf; [|exact Hwf1]. apply reinit_step_shape.
    by eapply reinit_step_of_reinit.
  - eapply same_shape_wf; [|done]. apply reinit_step_shape. by eapply reinit_step_of_reinit.
  - destruct (nodes w !! i) as [n|] eqn:Hi; simpl in Hrun; [|discriminate].
    destruct (0 <? p_pending n); [|discriminate].
    eapply same_shape_wf; [|done]. by eapply settle_same_shape.
Qed.

Lemma run_single_flight H o w w' :
  wf w -> single_flight w -> run H o w = Some w' -> single_flight w'.
Proof.
  intros Hwf Hsf Hrun. destruct o as [d c ds|i v b|f i|i h|i h|i|exn i r]; simpl in Hrun.
  - destruct (forallb _ ds) eqn:Hds; [|discriminate]. inversion Hrun; subst.
    by apply new_Property_single_flight.
  - destruct (set H i v b w) as [c|] eqn:Hset; simpl in Hrun; [|discriminate].
    inversion Hrun; subst. eapply evolves_single_flight; [|done]. by eapply set_evolves.
  - eapply evolves_single_flight; [|done].
    apply reset_step_evolves. by eapply reset_step_of_reset.
  - eapply evolves_single_flight; [|done]. by eapply observe_evolves.
  - destruct (end_inv _ _ _ _ Hrun) as (n & w1 & Hi & _ & Hev & Hw').
    assert (wf w1) as Hwf1 by (eapply same_shape_wf; [by apply evolves_shape|done]).
    pose proof (evolves_single_flight _ _ Hev Hsf) as Hsf1.
    destruct Hw' as [-> |Hre]; [done|].
    eapply reinit_step_single_flight; [|exact Hsf1]. by eapply reinit_step_of_reinit.
  - eapply reinit_step_single_flight; [|done]. by eapply reinit_step_of_reinit.
  - destruct (nodes w !! i) as [n|] eqn:Hi; simpl in Hrun; [|discriminate].
    destruct (0 <? p_pending n) eqn:Hpos; [|discriminate]. apply Nat.ltb_lt in Hpos.
    by eapply settle_single_flight.
Qed.

Lemma run_forward H o w w' :
  reinits o = false -> run H o w = Some w' -> forward w w'.
Proof.
  intros Hop Hrun. destruct o as [d c ds|i v b|f i|i h|i h|i|exn i r];
    simpl in Hrun, Hop; try discriminate.
  - destruct (forallb _ ds); [|discriminate]. inversion Hrun; subst.
    apply new_Property_forward.
  - destruct (set H i v b w) as [c|] eqn:Hset; simpl in Hrun; [|discriminate].
    inversion Hrun; subst. apply evolves_forward. by eapply set_evolves.
  - apply evolves_forward, reset_step_evolves. by eapply reset_step_of_reset.
  - apply evolves_forward. by eapply observe_evolves.
  - destruct (nodes w !! i) as [n|] eqn:Hi; simpl in Hrun; [|discriminate].
    destruct (0 <? p_pending n); [|discriminate]. by eapply settle_forward.
Qed.

Lemma run_all_invariant H os : forall w w',
  wf w -> single_flight w -> run_all H os w = Some w' -> wf w' /\ single_flight w'.
Proof.
  induction os as [|o os IH]; intros w w' Hwf Hsf Hrun; simpl in Hrun.
  - inversion Hrun; subst. done.
  - destruct (run H o w) as [w1|] eqn:Ho; simpl in Hrun; [|discriminate].
    apply (IH w1); [by eapply run_wf|by eapply run_single_flight|done].
Qed.

(** *** Revisions along sequences of operations *)

Lemma forward_refl w : forward w w.
Proof. intros k n Hk. by exists n. Qed.

Lemma forward_trans a b c : forward a b -> forward b c -> forward a c.
Proof.
  intros H1 H2 k n Hk. destruct (H1 k n Hk) as (n1 & Hk1 & Hr1).
  destruct (H2 k n1 Hk1) as (n2 & Hk2 & Hr2). exists n2. split; [done|lia].
Qed.

Lemma run_all_forward H os : forall w w',
  forallb (fun o => negb (reinits o)) os = true ->
  run_all H os w = Some w' -> forward w w'.
Proof.
  induction os as [|o os IH]; intros w w' Hops Hrun; simpl in Hrun, Hops.
  - inversion Hrun; subst. apply forward_refl.
  - destruct (run H o w) as [w1|] eqn:Ho; simpl in Hrun; [|discriminate].
    apply andb_true_iff in Hops as [Hop Hops]. apply negb_true_iff in Hop.
    eapply forward_trans; [by eapply run_forward|by apply IH].
Qed.

Lemma set_returned_revision H i v byRef w w' n :
  nodes w !! i = Some n ->
  set H i v byRef w = Some (Returned w') ->
  exists n', nodes w' !! i = Some n' /\ p_revision n' = S (p_revision n).
Proof.
  intros Hi Hset.
  destruct (set_inv _ _ _ _ _ _ _ Hi Hset)
    as [[_ ?]|(v' & _ & [(_&_&?)|(w3 & Heq & [_ Hs])])]; try discriminate.
  inversion Heq; subst w3.
  destruct (Hs i (set_state v' (S (p_revision n)) (p_default_calls n) n))
    as (n' & Hi' & Hrel & _).
  { simpl. unfold committed. apply list_lookup_insert_eq. by eapply lookup_lt_Some. }
  exists n'. split; [done|]. by destruct Hrel as (-> & _).
Qed.

Lemma reinit_step_revision w w' k n :
  reinit_step w w' -> nodes w !! k = Some n ->
  exists n', nodes w' !! k = Some n' /\
    (p_revision n' = p_revision n \/ p_revision n' = 0).
Proof.
  intros (_ & _ & Hs) Hk. destruct (Hs k n Hk) as (n' & Hk' & Hr).
  exists n'. split; [done|]. destruct Hr as (_&_&_&_&_&_&_&[-> |?]); auto.
Qed.

Lemma run_reinit_revision H o w w' :
  reinits o = true -> wf w -> run H o w = Some w' ->
  forall k n, nodes w !! k = Some n ->
    exists n', nodes w' !! k = Some n' /\
      (p_revision n' = p_revision n \/ p_revision n' = 0).
Proof.
  intros Hop Hwf Hrun k m Hk.
  destruct o as [d c ds|i v b|f i|i h|i h|i|exn i r]; simpl in Hrun, Hop; try discriminate.
  - destruct (end_inv _ _ _ _ Hrun) as (n & w1 & Hi & Hw1 & Hev & Hw').
    assert (wf w1) as Hwf1 by (eapply same_shape_wf; [by apply evolves_shape|done]).
    assert (exists m1, nodes w1 !! k = Some m1 /\ p_revision m1 = p_revision m)
      as (m1 & Hk1 & Hr1).
    { subst w1. unfold put. simpl. destruct (decide (k = i)) as [-> |Hne].
      - rewrite list_lookup_insert_eq by (by eapply lookup_lt_Some).
        eexists. split; [done|]. assert (m = n) as -> by congruence. done.
      - rewrite list_lookup_insert_ne by done. by exists m. }
    destruct Hw' as [-> |Hre]; [exists m1; auto|].
    destruct (reinit_step_revision w1 w' k m1) as (m2 & Hk2 & Hr2);
      [by eapply reinit_step_of_reinit|done|].
    exists m2. split; [done|]. rewrite <- Hr1. done.
  - eapply reinit_step_revision; [by eapply reinit_step_of_reinit|done].
Qed.

(** *** The settled promise, case by case *)

Lemma settle_rejected H exn i reason w n :
  nodes w !! i = Some n ->
  settle H exn i (Rejected reason) w =
    Some {| nodes := <[i := set_updating false (pred (p_pending n)) n]> (nodes w);
            trace := trace w ++ [EConsoleError i reason] |}.
Proof.
  intros Hi. unfold settle. rewrite Hi. simpl. unfold finally, emit, put. simpl.
  rewrite list_lookup_insert_eq by (by eapply lookup_lt_Some). simpl.
  by rewrite list_insert_insert_eq.
Qed.

Lemma settle_not_committed H exn i v w n :
  nodes w !! i = Some n ->
  truthy v = false -> is_number_or_bigint v = false ->
  settle H exn i (Resolved v) w =
    Some {| nodes := <[i := set_updating false (pred (p_pending n)) n]> (nodes w);
            trace := trace w |}.
Proof.
  intros Hi Ht Hn. unfold settle. rewrite Hi, Ht, Hn. simpl. unfold finally, put. simpl.
  rewrite list_lookup_insert_eq by (by eapply lookup_lt_Some). simpl.
  by rewrite list_insert_insert_eq.
Qed.

Lemma settle_committed H exn i v w n :
  nodes w !! i = Some n ->
  truthy v || is_number_or_bigint v = true ->
  settle H exn i (Resolved v) w =
    c ← set H i v false (put i (set_updating (p_isAsyncUpdating n) (pred (p_pending n)) n) w);
    Some (finally i (match c with
                     | Returned w1 => w1
                     | Thrown w1 => emit (EConsoleError i exn) w1
                     end)).
Proof.
  intros Hi Hv. unfold settle. rewrite Hi, Hv. simpl.
  destruct (set H i v false _) as [[w1|w1]|]; done.
Qed.

(** *** Collection *)

Lemma wf_nodes_eq w w' : nodes w' = nodes w -> wf w -> wf w'.
Proof. intros Heq Hwf i n. unfold wf in Hwf. rewrite Heq. apply Hwf. Qed.

Lemma items_mutate_revision c l w k :
  revision_at k (items_mutate c l w) = revision_at k w.
Proof.
  unfold items_mutate, revision_at. destruct (nodes w !! c_items c) as [n|] eqn:Hi; [|done].
  unfold put. simpl. destruct (decide (k = c_items c)) as [-> |Hne].
  - rewrite list_lookup_insert_eq by (by eapply lookup_lt_Some). by rewrite Hi.
  - by rewrite list_lookup_insert_ne.
Qed.

Lemma items_mutate_trace c l w : trace (items_mutate c l w) = trace w.
Proof. unfold items_mutate. by destruct (nodes w !! c_items c). Qed.

Lemma items_mutate_changed c l w n :
  nodes w !! c_items c = Some n ->
  trace (_triggerChangeHandlers (c_items c) (items_mutate c l w)) =
    trace w ++ map (fun h => EChange (c_items c) h (VArr l)) (p_changeHandlers n).
Proof.
  intros Hi. unfold _triggerChangeHandlers, items_mutate. rewrite Hi. unfold put. simpl.
  rewrite list_lookup_insert_eq by (by eapply lookup_lt_Some). done.
Qed.

Lemma triggerChangeHandlers_revision i w k :
  revision_at k (_triggerChangeHandlers i w) = revision_at k w.
Proof. unfold revision_at. by rewrite triggerChangeHandlers_nodes. Qed.

(** Assigning a number to a property returns, and what follows the commit
    is the cascade of resets. *)
Lemma set_number_returns H i z w n :
  wf w -> nodes w !! i = Some n ->
  exists w' t, set H i (VNum z) false w = Some (Returned w') /\
    reset_step {| nodes := committed i n (VNum z) w; trace := t |} w'.
Proof.
  intros Hwf Hi.
  destruct (set_total H i (VNum z) false w Hwf) as [c Hset]; [by eapply lookup_lt_Some|].
  destruct (set_inv _ _ _ _ _ _ _ Hi Hset)
    as [[Hv _]|(v' & Hv & [(_&Hnull&_)|(w3 & -> & Hs)])].
  - discriminate.
  - inversion Hv; subst v'. discriminate.
  - inversion Hv; subst v'. eauto.
Qed.

Lemma reset_step_value w w' k n :
  reset_step w w' -> nodes w !! k = Some n ->
  exists n', nodes w' !! k = Some n' /\ p_value n' = p_value n.
Proof.
  intros [_ Hs] Hk. destruct (Hs k n Hk) as (n' & Hk' & Hr & _).
  exists n'. split; [done|]. by destruct Hr as (_&?&_).
Qed.

(** *** More on [reset] *)

Lemma only_gets_refl w : only_gets w w.
Proof. exists []. simpl. by rewrite app_nil_r. Qed.

Lemma only_gets_trans a b c : only_gets a b -> only_gets b c -> only_gets a c.
Proof.
  intros [g1 H1] [g2 H2]. exists (g1 ++ g2).
  by rewrite H2, H1, map_app, app_assoc.
Qed.

Lemma only_gets_trace_eq w w' : trace w' = trace w -> only_gets w w'.
Proof. intros Heq. exists []. simpl. by rewrite app_nil_r. Qed.

Lemma reset_fuel_only_gets fuel : forall force i w w',
  reset_fuel fuel force i w = Some w' -> only_gets w w'.
Proof.
  induction fuel as [|fuel IH]; intros force i w w' Hrun; simpl in Hrun; [discriminate|].
  destruct (nodes w !! i) as [n|] eqn:Hi; simpl in Hrun; [|discriminate].
  destruct (0 <? length (List.filter (dep_isUndefined w) (p_dependencies n))).
  { revert Hrun. apply (forEach_rel only_gets);
      [apply only_gets_refl|apply only_gets_trans|].
    intros d w0 w1 _. apply IH. }
  destruct (track_dirty w (p_dependencies n)) as [ds some].
  destruct ((0 <? length (p_dependencies n)) && negb force && negb some);
    [inversion Hrun; subst; by apply only_gets_trace_eq|].
  destruct (p_isAsyncUpdating _); inversion Hrun; subst; [by apply only_gets_trace_eq|].
  exists [i]. done.
Qed.

Lemma gets_map_EGet k gs : gets k (map EGet gs) = 0 -> k ∉ gs.
Proof.
  unfold gets. induction gs as [|g gs IH]; simpl; [intros _; apply not_elem_of_nil|].
  destruct (Nat.eqb_spec g k); simpl; [discriminate|].
  intros Hz. apply not_elem_of_cons. split; [congruence|by apply IH].
Qed.

(** A [reset] of node [j] does not touch a Defined node other than [j],
    and does not call its [getFunc]. *)
Lemma reset_fuel_keeps_defined fuel : forall force j w w' k n,
  reset_fuel fuel force j w = Some w' ->
  k <> j -> 1 <= p_revision n -> keeps k n w w'.
Proof.
  induction fuel as [|fuel IH]; intros force j w w' k n Hrun Hkj Hdef Hk;
    simpl in Hrun; [discriminate|].
  destruct (nodes w !! j) as [m|] eqn:Hj; simpl in Hrun; [|discriminate].
  destruct (0 <? length (List.filter (dep_isUndefined w) (p_dependencies m))).
  { assert (Forall (fun d : nat * nat => d.2 <> k)
              (List.filter (dep_isUndefined w) (p_dependencies m))) as Hne.
    { apply Forall_forall. intros d Hd. apply list_elem_of_In, List.filter_In in Hd as [_ Hd].
      unfold dep_isUndefined in Hd. intros Heq. rewrite Heq, Hk in Hd.
      unfold isUndefined in Hd.
      apply Nat.ltb_lt in Hd. lia. }
    assert (forall ds : list (nat * nat), Forall (fun d => d.2 <> k) ds ->
              forall w0 w1, forEach (fun d => reset_fuel fuel false d.2) ds w0 = Some w1 ->
                keeps k n w0 w1) as Hall.
    { induction 1 as [|d ds Hd _ IHds]; intros w0 w2 Hrun0 Hk0; simpl in Hrun0.
      - by inversion Hrun0; subst.
      - destruct (reset_fuel fuel false d.2 w0) as [w1|] eqn:H1; simpl in Hrun0;
          [|discriminate].
        destruct (IH _ _ _ _ k n H1 (not_eq_sym Hd) Hdef Hk0) as [Hk1 Hg1].
        destruct (IHds w1 w2 Hrun0 Hk1) as [Hk2 Hg2]. split; [done|congruence]. }
    by apply (Hall _ Hne w w'). }
  destruct (track_dirty w (p_dependencies m)) as [ds some].
  assert (forall x t, nodes {| nodes := <[j := x]> (nodes w); trace := t |} !! k = Some n)
    as Hput by (intros; simpl; by rewrite list_lookup_insert_ne).
  destruct ((0 <? length (p_dependencies m)) && negb force && negb some);
    [inversion Hrun; subst; split; [apply Hput|done]|].
  destruct (p_isAsyncUpdating _); inversion Hrun; subst;
    [split; [apply Hput|done]|].
  split.
  - unfold emit, put. simpl. rewrite !list_lookup_insert_ne by done. done.
  - unfold emit, put. simpl. rewrite gets_app. unfold gets at 2. simpl.
    destruct (Nat.eqb_spec j k); [congruence|]. simpl. lia.
Qed.

(** On a well-formed store a [reset] of node [j] touches no node built
    after [j]; with an undefined dependency it does not touch [j] either. *)
Lemma reset_fuel_above fuel : forall force j w w',
  wf w -> reset_fuel fuel force j w = Some w' ->
  forall k, j < k -> nodes w' !! k = nodes w !! k.
Proof.
  induction fuel as [|fuel IH]; intros force j w w' Hwf Hrun k Hk;
    simpl in Hrun; [discriminate|].
  destruct (nodes w !! j) as [m|] eqn:Hj; simpl in Hrun; [|discriminate].
  destruct (0 <? length (List.filter (dep_isUndefined w) (p_dependencies m))).
  { assert (Forall (fun d : nat * nat => d.2 < j)
              (List.filter (dep_isUndefined w) (p_dependencies m))) as Hlt.
    { destruct (Hwf j m Hj) as [Hd _]. apply Forall_forall. intros d Hin.
      apply list_elem_of_In, List.filter_In in Hin as [Hin _]. apply list_elem_of_In in Hin.
      by apply (proj1 (Forall_forall _ _) Hd d). }
    assert (forall ds : list (nat * nat), Forall (fun d => d.2 < j) ds ->
              forall w0 w1, wf w0 ->
                forEach (fun d => reset_fuel fuel false d.2) ds w0 = Some w1 ->
                nodes w1 !! k = nodes w0 !! k) as Hall.
    { induction 1 as [|d ds Hd _ IHds]; intros w0 w2 Hwf0 Hrun0; simpl in Hrun0.
      - by inversion Hrun0; subst.
      - destruct (reset_fuel fuel false d.2 w0) as [w1|] eqn:H1; simpl in Hrun0;
          [|discriminate].
        rewrite (IHds w1 w2); [| |done].
        + apply (IH _ _ _ _ Hwf0 H1). lia.
        + eapply reset_step_wf_fwd; [|exact Hwf0]. by eapply reset_fuel_step. }
    by apply (Hall _ Hlt w w'). }
  destruct (track_dirty w (p_dependencies m)) as [ds some].
  assert (forall x t, nodes {| nodes := <[j := x]> (nodes w); trace := t |} !! k
                      = nodes w !! k) as Hput.
  { intros. simpl. apply list_lookup_insert_ne. lia. }
  destruct ((0 <? length (p_dependencies m)) && negb force && negb some);
    [inversion Hrun; subst; apply Hput|].
  destruct (p_isAsyncUpdating _); inversion Hrun; subst; [apply Hput|].
  unfold emit, put. simpl. rewrite !list_lookup_insert_ne by lia. done.
Qed.

Lemma inputs_defined_filter w n :
  inputs_defined w n -> List.filter (dep_isUndefined w) (p_dependencies n) = [].
Proof.
  unfold inputs_defined. induction 1 as [|d ds (o & Ho & Hdef) _ IH]; simpl; [done|].
  unfold dep_isUndefined at 1. rewrite Ho. unfold isUndefined.
  destruct (Nat.ltb_spec (p_revision o) 1); [lia|]. done.
Qed.

Lemma reset_inputs_defined force i n w :
  nodes w !! i = Some n -> inputs_defined w n ->
  reset force i w = Some (reset_here force i n w).
Proof.
  intros Hi Hdef. unfold reset, reset_here. simpl. rewrite Hi. simpl.
  rewrite (inputs_defined_filter _ _ Hdef). simpl.
  destruct (track_dirty w (p_dependencies n)) as [ds some].
  repeat match goal with |- context [if ?b then _ else _] => destruct b end; done.
Qed.

Lemma reset_clean_noop i n w :
  nodes w !! i = Some n -> p_dependencies n <> [] ->
  inputs_defined w n -> clean w n ->
  reset false i w = Some w.
Proof.
  intros Hi Hne Hdef Hclean. rewrite (reset_inputs_defined _ _ _ _ Hi Hdef).
  unfold reset_here. rewrite track_dirty_clean by exact Hclean.
  destruct (p_dependencies n) as [|d ds] eqn:Hds; [done|]. simpl.
  rewrite <- Hds. f_equal. destruct w as [ns t]. unfold put. simpl. f_equal.
  apply list_insert_id. simpl in Hi. rewrite Hi. f_equal. by destruct n.
Qed.

Lemma track_dirty_cleans w ds :
  Forall (fun d : nat * nat => forall o, nodes w !! d.2 = Some o -> isDirty o d.1 = false)
         (track_dirty w ds).1.
Proof.
  induction ds as [|d ds IH]; simpl; [constructor|].
  destruct (track_dirty w ds) as [ds' some]; simpl in *.
  destruct (nodes w !! d.2) as [o|] eqn:Ho.
  - destruct (isDirty o d.1) eqn:Hd; simpl; constructor; try done; simpl.
    + intros o' Ho'. assert (o' = o) as -> by congruence.
      unfold isDirty. apply Nat.ltb_irrefl.
    + intros o' Ho'. by assert (o' = o) as -> by congruence.
  - simpl. constructor; [|done]. intros o' Ho'. congruence.
Qed.

Lemma track_dirty_some w ds d o :
  d ∈ ds -> nodes w !! d.2 = Some o -> isDirty o d.1 = true ->
  (track_dirty w ds).2 = true.
Proof.
  induction ds as [|e ds IH]; intros Hin Ho Hd; [by apply elem_of_nil in Hin|].
  simpl. destruct (track_dirty w ds) as [ds' some] eqn:Htd; simpl in *.
  apply elem_of_cons in Hin as [<- |Hin].
  - by rewrite Ho, Hd.
  - specialize (IH Hin Ho Hd). subst some.
    destruct (nodes w !! e.2) as [oe|]; [destruct (isDirty oe e.1)|]; done.
Qed.

Lemma forEach_split {A} (R : world -> world -> Prop) (f : A -> world -> option world) xs x :
  (forall w, R w w) ->
  (forall a b c, R a b -> R b c -> R a c) ->
  (forall y w0 w1, y ∈ xs -> f y w0 = Some w1 -> R w0 w1) ->
  x ∈ xs ->
  forall w w', forEach f xs w = Some w' ->
    exists wa wb, R w wa /\ f x wa = Some wb /\ R wb w'.
Proof.
  intros Hrefl Htrans. induction xs as [|y xs IH]; intros Hf Hin w w' Hrun;
    [by apply elem_of_nil in Hin|].
  simpl in Hrun. destruct (f y w) as [w1|] eqn:Hy; simpl in Hrun; [|discriminate].
  apply elem_of_cons in Hin as [-> |Hin].
  - exists w, w1. split; [apply Hrefl|]. split; [done|].
    revert Hrun. apply (forEach_rel R); [done|done|].
    intros z w0 w2 Hz. apply Hf. by right.
  - destruct (IH (fun z w0 w2 Hz => Hf z w0 w2 (list_elem_of_further _ _ _ Hz)) Hin w1 w' Hrun)
      as (wa & wb & Ha & Hx & Hb).
    exists wa, wb. split; [|done]. eapply Htrans; [|exact Ha]. eapply Hf; [left|done].
Qed.

Lemma forEach_reset_above fuel (ds : list (nat * nat)) k : forall w w',
  wf w -> Forall (fun d => d.2 < k) ds ->
  forEach (fun d => reset_fuel fuel false d.2) ds w = Some w' ->
  nodes w' !! k = nodes w !! k.
Proof.
  induction ds as [|d ds IH]; intros w w' Hwf Hlt Hrun; simpl in Hrun.
  - by inversion Hrun; subst.
  - destruct (reset_fuel fuel false d.2 w) as [w1|] eqn:H1; simpl in Hrun; [|discriminate].
    inversion Hlt as [|? ? Hd Hds]; subst.
    rewrite (IH w1 w'); [| |done|done].
    + by apply (reset_fuel_above _ _ _ _ _ Hwf H1).
    + eapply reset_step_wf_fwd; [|exact Hwf]. by eapply reset_fuel_step.
Qed.

(** *** What [set] calls *)

Lemma keeps_refl k n w : keeps k n w w.
Proof. intros Hk. done. Qed.

Lemma keeps_trans k n a b c : keeps k n a b -> keeps k n b c -> keeps k n a c.
Proof.
  intros H1 H2 Hk. destruct (H1 Hk) as [Hb Hg1]. destruct (H2 Hb) as [Hc Hg2].
  split; [done|congruence].
Qed.

(** The cascade at the end of [set]: only [getFunc]s of other nodes. *)
Lemma cascade_calls i n1 w2 w' :
  wf w2 -> nodes w2 !! i = Some n1 -> 1 <= p_revision n1 ->
  forEach (reset false) (p_dependents n1) w2 = Some w' ->
  exists gs, nodes w' !! i = Some n1 /\ trace w' = trace w2 ++ map EGet gs /\ i ∉ gs.
Proof.
  intros Hwf Hi Hdef Hrun.
  assert (only_gets w2 w' /\ keeps i n1 w2 w') as [[gs Hgs] Hkeep].
  { revert Hrun. apply (forEach_rel (fun a b => only_gets a b /\ keeps i n1 a b)).
    - intros a. split; [apply only_gets_refl|apply keeps_refl].
    - intros a b c [? ?] [? ?]. split; [by eapply only_gets_trans|by eapply keeps_trans].
    - intros P w0 w1 HP Hr. split; [by eapply reset_fuel_only_gets|].
      eapply reset_fuel_keeps_defined; [exact Hr| |done].
      destruct (Hwf i n1 Hi) as [_ Hp].
      assert (i < P < length (nodes w2)) by (by apply (proj1 (Forall_forall _ _) Hp P)).
      lia. }
  destruct (Hkeep Hi) as [Hi' Hg]. exists gs. split; [done|]. split; [done|].
  apply gets_map_EGet. rewrite Hgs, gets_app in Hg. lia.
Qed.

Lemma committed_wf i n v w t :
  wf w -> nodes w !! i = Some n -> wf {| nodes := committed i n v w; trace := t |}.
Proof.
  intros Hwf Hi. eapply same_shape_wf; [|exact Hwf].
  apply evolves_shape. by apply committed_evolves.
Qed.

Lemma set_calls H i v byRef w w' n :
  wf w -> nodes w !! i = Some n ->
  set H i v byRef w = Some (Returned w') ->
  exists v' gs,
    set_value H (p_value n) v byRef = Some v' /\
    nodes w' !! i = Some (set_state v' (S (p_revision n)) (p_default_calls n) n) /\
    trace w' = trace w
      ++ (if p_isAsyncUpdating n then [] else [ESetFunc i (default v' (asModel H v'))])
      ++ map (fun h => EChange i h v') (p_changeHandlers n)
      ++ map EGet gs /\
    i ∉ gs.
Proof.
  intros Hwf Hi Hset. unfold set in Hset. rewrite Hi in Hset. simpl in Hset.
  destruct (set_value H (p_value n) v byRef) as [v'|]; [|discriminate].
  exists v'.
  set (n1 := set_state v' (S (p_revision n)) (p_default_calls n) n) in *.
  assert (forall t w3,
    forEach (reset false) (p_dependents n)
      (_triggerChangeHandlers i {| nodes := committed i n v' w; trace := t |}) = Some w3 ->
    exists gs, nodes w3 !! i = Some n1 /\
      trace w3 = t ++ map (fun h => EChange i h v') (p_changeHandlers n) ++ map EGet gs /\
      i ∉ gs) as Hcas.
  { intros t w3 Hrun.
    assert (nodes {| nodes := committed i n v' w; trace := t |} !! i = Some n1) as Hc.
    { simpl. unfold committed. apply list_lookup_insert_eq. by eapply lookup_lt_Some. }
    destruct (cascade_calls i n1
                (_triggerChangeHandlers i {| nodes := committed i n v' w; trace := t |}) w3)
      as (gs & Hi3 & Ht3 & Hgs); [| |simpl; lia|exact Hrun|].
    - eapply wf_nodes_eq; [apply triggerChangeHandlers_nodes|]. by apply committed_wf.
    - by rewrite triggerChangeHandlers_nodes.
    - exists gs. split; [done|]. split; [|done]. rewrite Ht3.
      unfold _triggerChangeHandlers. rewrite Hc. simpl. by rewrite app_assoc. }
  simpl in Hset. destruct (p_isAsyncUpdating n).
  - unfold put in Hset. fold (committed i n v' w) in Hset.
    destruct (forEach _ _ _) as [w3|] eqn:Hrun; simpl in Hset; [|discriminate].
    inversion Hset; subst w3. destruct (Hcas _ _ Hrun) as (gs & ? & ? & ?).
    exists gs. simpl. done.
  - destruct (nullish v'); [discriminate|].
    unfold emit, put in Hset. simpl in Hset. fold (committed i n v' w) in Hset.
    destruct (forEach _ _ _) as [w3|] eqn:Hrun; simpl in Hset; [|discriminate].
    inversion Hset; subst w3. destruct (Hcas _ _ Hrun) as (gs & ? & Ht & ?).
    exists gs. split; [done|]. split; [done|]. split; [|done].
    rewrite Ht. by rewrite <- app_assoc.
Qed.

Lemma set_returns H i v byRef w n v' :
  wf w -> nodes w !! i = Some n ->
  set_value H (p_value n) v byRef = Some v' ->
  p_isAsyncUpdating n = true \/ nullish v' = false ->
  exists w', set H i v byRef w = Some (Returned w').
Proof.
  intros Hwf Hi Hv Hok.
  destruct (set_total H i v byRef w Hwf) as [c Hset]; [by eapply lookup_lt_Some|].
  destruct (set_inv _ _ _ _ _ _ _ Hi Hset)
    as [[Hnone _]|(v'' & Hv'' & [(Hu&Hnull&_)|(w3 & -> & _)])].
  - congruence.
  - assert (v'' = v') as -> by congruence. destruct Hok; congruence.
  - eauto.
Qed.

Lemma track_dirty_updates w ds d o :
  d ∈ ds -> nodes w !! d.2 = Some o -> isDirty o d.1 = true ->
  (p_revision o, d.2) ∈ (track_dirty w ds).1.
Proof.
  induction ds as [|e ds IH]; intros Hin Ho Hd; [by apply elem_of_nil in Hin|].
  simpl. destruct (track_dirty w ds) as [ds' some] eqn:Htd; simpl in *.
  apply elem_of_cons in Hin as [<- |Hin].
  - rewrite Ho, Hd. simpl. by left.
  - specialize (IH Hin Ho Hd).
    destruct (nodes w !! e.2) as [oe|]; [destruct (isDirty oe e.1)|]; simpl; by right.
Qed.

(** A [reset] that finds every dependency Defined and one of them dirty,
    on a node that is not Updating, starts a fetch. *)
Lemma reset_dirty_fetches i n w d o :
  nodes w !! i = Some n -> inputs_defined w n ->
  d ∈ p_dependencies n -> nodes w !! d.2 = Some o -> isDirty o d.1 = true ->
  p_isAsyncUpdating n = false ->
  reset false i w =
    Some {| nodes := <[i := set_updating true (S (p_pending n))
                             (set_dependencies (track_dirty w (p_dependencies n)).1 n)]>
                       (nodes w);
            trace := trace w ++ [EGet i] |}.
Proof.
  intros Hi Hdef Hd Ho Hdirty Hu. rewrite (reset_inputs_defined _ _ _ _ Hi Hdef).
  unfold reset_here. pose proof (track_dirty_some w _ d o Hd Ho Hdirty) as Hsome.
  destruct (track_dirty w (p_dependencies n)) as [ds some]. simpl in *. subst some.
  destruct (p_dependencies n) as [|d0 ds0] eqn:Hds; [by apply elem_of_nil in Hd|].
  simpl. rewrite Hu. unfold emit, put. simpl. by rewrite list_insert_insert_eq.
Qed.

Lemma gets_triggerChangeHandlers k i w :
  gets k (trace (_triggerChangeHandlers i w)) = gets k (trace w).
Proof.
  unfold _triggerChangeHandlers. destruct (nodes w !! i) as [n|]; [|done]. simpl.
  rewrite gets_app.
  assert (gets k (map (fun h => EChange i h (p_value n)) (p_changeHandlers n)) = 0) as ->
    by (induction (p_changeHandlers n); done).
  lia.
Qed.

(** *** More on construction and disposal *)

Lemma new_Property_new_node default_ cached ds w :
  forallb (fun d => d <? length (nodes w)) ds = true ->
  nodes (new_Property default_ cached ds w) !! length (nodes w) =
    Some {| p_revision := 0; p_dependents := [];
            p_dependencies :=
              map (fun d => (from_option p_revision 0 (nodes w !! d), d)) ds;
            p_changeHandlers := [];
            p_default := default_; p_default_calls := 1;
            p_value := default_ 0; p_cached := cached;
            p_isAsyncUpdating := false; p_pending := 0 |}.
Proof.
  intros Hds. unfold new_Property. simpl.
  match goal with |- context [foldl _ ?ns ds] =>
    destruct (addDependent_fold (length (nodes w)) ds ns) as (_ & Hout & _) end.
  rewrite Hout.
  - rewrite lookup_app_r by lia. by rewrite Nat.sub_diag.
  - intros Hin. rewrite forallb_forall in Hds. apply list_elem_of_In, Hds in Hin.
    apply Nat.ltb_lt in Hin. lia.
Qed.

Lemma reinit_fuel_zero_revision fuel i w w' m :
  wf w -> nodes w !! i = Some m -> length (nodes w) - i <= fuel ->
  _reinit_fuel fuel i w = Some w' ->
  exists m', nodes w' !! i = Some m' /\ p_revision m' = 0.
Proof.
  intros Hwf Hi Hfuel Hrun.
  destruct (reinit_fuel_spec fuel i w m Hwf Hi Hfuel) as (w'' & Hrun' & Hi').
  assert (w'' = w') as -> by congruence.
  eexists. split; [exact Hi'|].
  destruct (Nat.ltb_spec 0 (p_revision m)); [done|lia].
Qed.

Lemma set_add_idem this l : set_add this (set_add this l) = set_add this l.
Proof.
  unfold set_add. destruct (existsb (Nat.eqb this) l) eqn:He; [by rewrite He|].
  rewrite existsb_app. simpl. rewrite Nat.eqb_refl. by rewrite orb_true_r.
Qed.

Lemma set_delete_add this l : this ∉ l -> set_delete this (set_add this l) = l.
Proof.
  intros Hnot.
  assert (set_delete this l = l) as Hl.
  { unfold set_delete. induction l as [|x l IH]; simpl; [done|].
    apply not_elem_of_cons in Hnot as [Hx Hl].
    destruct (Nat.eqb_spec this x); [congruence|]. simpl. by rewrite IH. }
  unfold set_add. destruct (existsb (Nat.eqb this) l); [done|].
  unfold set_delete in *. rewrite List.filter_app, Hl. simpl.
  rewrite Nat.eqb_refl. simpl. by rewrite app_nil_r.
Qed.

Lemma set_delete_idem this l : set_delete this (set_delete this l) = set_delete this l.
Proof.
  unfold set_delete. induction l as [|x l IH]; simpl; [done|].
  destruct (negb (this =? x)) eqn:Hx; simpl; [rewrite Hx|]; by rewrite ?IH.
Qed.

Lemma set_delete_elem this l x : x ∈ set_delete this l <-> x ∈ l /\ x <> this.
Proof.
  unfold set_delete. rewrite !list_elem_of_In, List.filter_In.
  destruct (Nat.eqb_spec this x); simpl; split; intros [? ?]; split; try done; congruence.
Qed.

(** The dependents sets after [addDependent] for each of [ds]. *)
Lemma addDependent_fold_lookup this ds : forall ns k o,
  ns !! k = Some o ->
  foldl (addDependent this) ns ds !! k =
    Some (if decide (k ∈ ds) then set_dependents (set_add this (p_dependents o)) o else o).
Proof.
  induction ds as [|d ds IH]; intros ns k o Hk; simpl.
  { rewrite Hk. destruct (decide (k ∈ [])) as [Hin|]; [by apply elem_of_nil in Hin|done]. }
  unfold addDependent at 2. destruct (decide (k = d)) as [-> |Hne].
  - rewrite Hk. rewrite (IH _ d (set_dependents (set_add this (p_dependents o)) o))
      by (apply list_lookup_insert_eq; by eapply lookup_lt_Some).
    simpl. rewrite set_add_idem.
    destruct (decide (d ∈ d :: ds)) as [_|Hn]; [|exfalso; apply Hn; by left].
    by destruct (decide (d ∈ ds)).
  - assert (match ns !! d with
            | Some od => <[d := set_dependents (set_add this (p_dependents od)) od]> ns
            | None => ns
            end !! k = Some o) as Hk1.
    { destruct (ns !! d); [by rewrite list_lookup_insert_ne|done]. }
    rewrite (IH _ k o Hk1).
    destruct (decide (k ∈ ds)) as [Hin|Hnin], (decide (k ∈ d :: ds)) as [Hin'|Hnin'];
      try done.
    + exfalso. apply Hnin'. by right.
    + apply elem_of_cons in Hin' as [?|?]; done.
Qed.

(** The dependents sets after [removeDependent] for each of [ds]. *)
Lemma removeDependent_fold_lookup this (ds : list (nat * nat)) : forall ns k o,
  ns !! k = Some o ->
  foldl (removeDependent this) ns ds !! k =
    Some (if decide (k ∈ map snd ds)
          then set_dependents (set_delete this (p_dependents o)) o else o).
Proof.
  induction ds as [|d ds IH]; intros ns k o Hk; simpl.
  { rewrite Hk. destruct (decide (k ∈ [])) as [Hin|]; [by apply elem_of_nil in Hin|done]. }
  destruct (decide (k = d.2)) as [-> |Hne].
  - assert (removeDependent this ns d !! d.2
            = Some (set_dependents (set_delete this (p_dependents o)) o)) as Hk1.
    { unfold removeDependent. rewrite Hk.
      apply list_lookup_insert_eq. by eapply lookup_lt_Some. }
    rewrite (IH _ _ _ Hk1). simpl. rewrite set_delete_idem.
    destruct (decide (d.2 ∈ d.2 :: map snd ds)) as [_|Hn]; [|exfalso; apply Hn; by left].
    by destruct (decide (d.2 ∈ map snd ds)).
  - assert (removeDependent this ns d !! k = Some o) as Hk1.
    { unfold removeDependent. destruct (ns !! d.2); [by rewrite list_lookup_insert_ne|done]. }
    rewrite (IH _ k o Hk1).
    destruct (decide (k ∈ map snd ds)) as [Hin|Hnin],
             (decide (k ∈ d.2 :: map snd ds)) as [Hin'|Hnin']; try done.
    + exfalso. apply Hnin'. by right.
    + apply elem_of_cons in Hin' as [?|?]; done.
Qed.

Lemma removeDependent_fold_length this (ds : list (nat * nat)) : forall ns,
  length (foldl (removeDependent this) ns ds) = length ns.
Proof.
  induction ds as [|d ds IH]; intros ns; simpl; [done|]. rewrite IH.
  unfold removeDependent. destruct (ns !! d.2); [by rewrite length_insert|done].
Qed.

(** *** Loops over the items *)

Lemma first_match_spec test : forall l i0 r,
  first_match test l i0 = Some r ->
  (r = None /\ Forall (fun x => test x = Some false) l) \/
  (exists j x, r = Some (i0 + j) /\ l !! j = Some x /\ test x = Some true /\
     Forall (fun y => test y = Some false) (take j l)).
Proof.
  induction l as [|x l IH]; intros i0 r Hrun; simpl in Hrun.
  { inversion Hrun; subst. left. split; [done|constructor]. }
  destruct (test x) as [[|]|] eqn:Hx; [|idtac|discriminate].
  - inversion Hrun; subst. right. exists 0, x.
    split; [f_equal; lia|]. split; [done|]. split; [done|constructor].
  - destruct (IH (S i0) r Hrun) as [[-> Hall]|(j & y & -> & Hj & Hy & Hbefore)].
    + left. split; [done|]. by constructor.
    + right. exists (S j), y. split; [f_equal; lia|]. split; [done|]. split; [done|].
      simpl. by constructor.
Qed.

(** *** Assigning the focus *)

Lemma focus_assign H c z w nF :
  wf w -> nodes w !! c_focus c = Some nF ->
  exists w', set H (c_focus c) (VNum z) false w = Some (Returned w') /\
    wf w' /\ values_kept (c_focus c) w w' /\ focus_value c w' = Some z.
Proof.
  intros Hwf HF.
  destruct (set_number_returns H (c_focus c) z w nF Hwf HF) as (w' & t & Hset & Hstep).
  exists w'. split; [done|]. split; [|split].
  - eapply same_shape_wf; [|exact Hwf]. apply evolves_shape.
    apply (set_evolves _ _ _ _ _ _ Hset).
  - split.
    + destruct Hstep as [-> _]. simpl. unfold committed. by rewrite length_insert.
    + intros k n Hk Hn. apply (reset_step_value _ w' k n Hstep).
      simpl. unfold committed. by rewrite list_lookup_insert_ne.
  - destruct (reset_step_value _ w' (c_focus c)
                (set_state (VNum z) (S (p_revision nF)) (p_default_calls nF) nF) Hstep)
      as (n' & Hn' & Hv).
    { simpl. unfold committed. apply list_lookup_insert_eq. by eapply lookup_lt_Some. }
    unfold focus_value. rewrite Hn'. simpl. by rewrite Hv.
Qed.

Lemma values_kept_items f c w w' :
  values_kept f w w' -> c_items c <> f -> items_value c w' = items_value c w.
Proof.
  intros [Hl Hk] Hne. unfold items_value.
  destruct (nodes w !! c_items c) as [n|] eqn:Hi.
  - destruct (Hk _ _ Hne Hi) as (n' & -> & ->). done.
  - apply lookup_ge_None in Hi. rewrite <- Hl in Hi. apply lookup_ge_None in Hi.
    by rewrite Hi.
Qed.

Lemma values_kept_size f c w w' :
  values_kept f w w' -> c_items c <> f -> size c w' = size c w.
Proof. intros. unfold size. by erewrite values_kept_items. Qed.

Lemma validatedFocus_in_range c w (z : Z) :
  (-1 <= z < Z.of_nat (size c w))%Z -> validatedFocus c w z = Val z.
Proof.
  intros Hz. unfold validatedFocus. rewrite Z.geb_leb.
  destruct (Z.ltb_spec z (-1)), (Z.leb_spec (Z.of_nat (size c w)) z); try lia. done.
Qed.

(** *** Stores of a collection *)

Lemma value_at_items c w l : value_at (c_items c) w = Some (VArr l) -> items_value c w = l.
Proof.
  unfold value_at, items_value. destruct (nodes w !! c_items c) as [n|]; [|done].
  simpl. intros Hv. inversion Hv as [Hv']. by rewrite Hv'.
Qed.

Lemma property_model_value_at H w w' p :
  value_at p w' = value_at p w ->
  property_model H w' (VRef p) = property_model H w (VRef p).
Proof.
  unfold value_at, property_model. intros Hv.
  destruct (nodes w' !! p) as [n'|], (nodes w !! p) as [n|]; simpl in *; try done.
  inversion Hv as [Hv']. by rewrite Hv'.
Qed.

Lemma values_kept_value_at f w w' k :
  values_kept f w w' -> k <> f -> value_at k w' = value_at k w.
Proof.
  intros [Hl Hk] Hne. unfold value_at.
  destruct (nodes w !! k) as [n|] eqn:Hn.
  - destruct (Hk _ _ Hne Hn) as (n' & Hn' & Hv). rewrite Hn'. simpl. by rewrite Hv.
  - apply lookup_ge_None in Hn. rewrite <- Hl in Hn. apply lookup_ge_None in Hn.
    by rewrite Hn.
Qed.

Lemma items_mutate_value_at c l w k :
  k <> c_items c -> value_at k (items_mutate c l w) = value_at k w.
Proof.
  intros Hne. unfold items_mutate, value_at.
  destruct (nodes w !! c_items c); [|done]. unfold put. simpl.
  by rewrite list_lookup_insert_ne.
Qed.

Lemma items_mutate_items c l w :
  c_items c < length (nodes w) -> value_at (c_items c) (items_mutate c l w) = Some (VArr l).
Proof.
  intros Hlt. destruct (lookup_lt_is_Some_2 _ _ Hlt) as [n Hn].
  unfold items_mutate, value_at. rewrite Hn. unfold put. simpl.
  by rewrite list_lookup_insert_eq.
Qed.

Lemma items_mutate_length c l w : length (nodes (items_mutate c l w)) = length (nodes w).
Proof.
  unfold items_mutate. destruct (nodes w !! c_items c); [|done].
  unfold put. simpl. by rewrite length_insert.
Qed.

Lemma items_mutate_wf c l w : wf w -> wf (items_mutate c l w).
Proof.
  intros Hwf. unfold items_mutate. destruct (nodes w !! c_items c) as [n|] eqn:Hn; [|done].
  eapply same_shape_wf; [|exact Hwf]. by apply put_same_shape with (n := n).
Qed.

Lemma dispose_length i w : length (nodes (dispose i w)) = length (nodes w).
Proof.
  unfold dispose. destruct (nodes w !! i); [|done]. simpl.
  apply removeDependent_fold_length.
Qed.

Lemma dispose_lookup i w k o :
  nodes w !! k = Some o ->
  exists o', nodes (dispose i w) !! k = Some o' /\
    p_value o' = p_value o /\ p_dependencies o' = p_dependencies o /\
    (forall x, x ∈ p_dependents o' -> x ∈ p_dependents o).
Proof.
  intros Hk. unfold dispose. destruct (nodes w !! i) as [n|]; [|by exists o].
  simpl. rewrite (removeDependent_fold_lookup i _ _ k o Hk).
  destruct (decide (k ∈ map snd (p_dependencies n))); eexists; (split; [done|]); simpl;
    repeat split; try done.
  intros x Hx. apply set_delete_elem in Hx. tauto.
Qed.

Lemma dispose_value_at i w k : value_at k (dispose i w) = value_at k w.
Proof.
  unfold value_at. destruct (nodes w !! k) as [o|] eqn:Hk.
  - destruct (dispose_lookup i w k o Hk) as (o' & Ho' & Hv & _).
    rewrite Ho'. simpl. by rewrite Hv.
  - apply lookup_ge_None in Hk. rewrite <- (dispose_length i) in Hk.
    apply lookup_ge_None in Hk. by rewrite Hk.
Qed.

Lemma dispose_wf i w : wf w -> wf (dispose i w).
Proof.
  intros Hwf k o' Hk'. rewrite dispose_length.
  assert (k < length (nodes w)) as Hlt
    by (rewrite <- (dispose_length i); by eapply lookup_lt_Some).
  destruct (lookup_lt_is_Some_2 _ _ Hlt) as [o Ho].
  destruct (dispose_lookup i w k o Ho) as (o'' & Ho'' & _ & Hd & Hsub).
  assert (o'' = o') as -> by congruence.
  destruct (Hwf k o Ho) as [Hdeps Hdpts]. rewrite Hd. split; [done|].
  apply Forall_forall. intros x Hx. apply (proj1 (Forall_forall _ _) Hdpts x). by apply Hsub.
Qed.

Lemma dispose_trace i w : trace (dispose i w) = trace w.
Proof. unfold dispose. by destruct (nodes w !! i). Qed.

Lemma value_at_nodes_eq w w' k : nodes w' = nodes w -> value_at k w' = value_at k w.
Proof. unfold value_at. by intros ->. Qed.

Lemma focus_value_value_at c w w' :
  value_at (c_focus c) w' = value_at (c_focus c) w -> focus_value c w' = focus_value c w.
Proof.
  unfold value_at, focus_value.
  destruct (nodes w' !! c_focus c) as [n'|], (nodes w !! c_focus c) as [n|];
    simpl; try done.
  intros Hv. inversion Hv as [Hv']. by rewrite Hv'.
Qed.

Lemma collection_at_element c w l i x :
  collection_at c w l -> l !! i = Some x ->
  exists p, x = VRef p /\ p <> c_focus c /\ p <> c_items c.
Proof.
  intros (_&_&_&_&Hall) Hx. apply (proj1 (Forall_forall _ _) Hall x).
  by eapply list_elem_of_lookup_2.
Qed.

(** [deleteIndex] on an index of the collection. *)
Lemma deleteIndex_in_range H c index w l x m :
  collection_at c w l ->
  l !! index = Some x ->
  property_model H w x = Some m ->
  exists w',
    deleteIndex H c index w = Some (Returned w') /\
    collection_at c w' (take index l ++ drop (S index) l) /\
    (forall p, p <> c_focus c -> p <> c_items c -> value_at p w' = value_at p w) /\
    focus_value c w' = Some (if length l =? 1 then (-1)%Z else 0%Z) /\
    EDeleteFunc m ∈ trace w'.
Proof.
  intros Hc Hx Hm.
  destruct (collection_at_element c w l index x Hc Hx) as (p & -> & HpF & HpI).
  destruct Hc as (Hwf & Hne & HF & HI & Hall).
  pose proof (value_at_items c w l HI) as Hitems.
  pose proof (lookup_lt_Some _ _ _ Hx) as Hidx.
  assert (c_items c < length (nodes w)) as HIlt.
  { unfold value_at in HI. destruct (nodes w !! c_items c) eqn:Hn; [|done].
    by eapply lookup_lt_Some. }
  set (l' := take index l ++ drop (S index) l).
  assert (length l' = length l - 1) as Hlen'.
  { unfold l'. rewrite length_app, length_take, length_drop. lia. }
  set (w1 := items_mutate c l' w).
  pose proof (items_mutate_wf c l' w Hwf) as Hwf1. fold w1 in Hwf1.
  pose proof (items_mutate_items c l' w HIlt) as HI1. fold w1 in HI1.
  assert (size c w1 = length l') as Hsize1
    by (unfold size; by rewrite (value_at_items c w1 l' HI1)).
  pose proof (items_mutate_length c l' w) as Hlen1. fold w1 in Hlen1.
  destruct (lookup_lt_is_Some_2 (nodes w1) (c_focus c)) as [nF1 HF1]; [lia|].
  set (z := if size c w1 <? 1 then (-1)%Z else 0%Z).
  destruct (focus_assign H c z w1 nF1 Hwf1 HF1) as (w2 & Hset & Hwf2 & Hkept & Hfocus).
  assert (forall k, k <> c_focus c -> k <> c_items c -> value_at k w2 = value_at k w) as Hval2.
  { intros k HkF HkI. rewrite (values_kept_value_at _ _ _ k Hkept HkF).
    by apply items_mutate_value_at. }
  assert (property_model H w2 (VRef p) = Some m) as Hm2.
  { rewrite <- Hm. apply property_model_value_at. by apply Hval2. }
  set (w3 := _triggerChangeHandlers (c_items c) (dispose p (emit (EDeleteFunc m) w2))).
  assert (forall k, value_at k w3 = value_at k w2) as Hval3.
  { intros k. unfold w3.
    rewrite (value_at_nodes_eq (dispose p (emit (EDeleteFunc m) w2)))
      by apply triggerChangeHandlers_nodes.
    rewrite dispose_value_at. by apply value_at_nodes_eq. }
  exists w3. split; [|split; [|split; [|split]]].
  - unfold deleteIndex. rewrite Hitems. fold l' w1 z. rewrite Hset, Hx.
    change (match property_model H w2 (VRef p) with
            | Some m0 => Some (Returned (_triggerChangeHandlers (c_items c)
                                           (dispose p (emit (EDeleteFunc m0) w2))))
            | None => Some (Thrown w2)
            end = Some (Returned w3)).
    by rewrite Hm2.
  - split; [|split; [done|split; [|split]]].
    + unfold w3. eapply wf_nodes_eq; [apply triggerChangeHandlers_nodes|].
      apply dispose_wf. by apply (wf_nodes_eq w2).
    + unfold w3. rewrite triggerChangeHandlers_nodes, dispose_length. simpl.
      destruct Hkept as [-> _]. lia.
    + rewrite Hval3. rewrite (values_kept_value_at _ _ _ _ Hkept) by done. done.
    + unfold l'. apply Forall_app. split; [by apply Forall_take|by apply Forall_drop].
  - intros k HkF HkI. rewrite Hval3. by apply Hval2.
  - rewrite (focus_value_value_at c w2 w3) by apply Hval3. rewrite Hfocus. f_equal.
    unfold z. rewrite Hsize1, Hlen'.
    destruct (Nat.ltb_spec (length l - 1) 1), (Nat.eqb_spec (length l) 1); try done; lia.
  - unfold w3, _triggerChangeHandlers.
    assert (EDeleteFunc m ∈ trace (dispose p (emit (EDeleteFunc m) w2))) as Hin.
    { rewrite dispose_trace. simpl. apply elem_of_app. right. by left. }
    destruct (nodes _ !! c_items c); [|done]. simpl. apply elem_of_app. by left.
Qed.

(** [deleteIndex] beyond the end. *)
Lemma deleteIndex_out_of_range H c index w l :
  collection_at c w l ->
  length l <= index ->
  exists w',
    deleteIndex H c index w = Some (Thrown w') /\
    items_value c w' = l /\
    focus_value c w' = Some (if length l =? 0 then (-1)%Z else 0%Z).
Proof.
  intros (Hwf & Hne & HF & HI & Hall) Hidx.
  pose proof (value_at_items c w l HI) as Hitems.
  assert (c_items c < length (nodes w)) as HIlt.
  { unfold value_at in HI. destruct (nodes w !! c_items c) eqn:Hn; [|done].
    by eapply lookup_lt_Some. }
  assert (take index l ++ drop (S index) l = l) as Hl'.
  { rewrite take_ge by lia. rewrite drop_ge by lia. by rewrite app_nil_r. }
  set (w1 := items_mutate c l w).
  pose proof (items_mutate_wf c l w Hwf) as Hwf1. fold w1 in Hwf1.
  pose proof (items_mutate_items c l w HIlt) as HI1. fold w1 in HI1.
  assert (size c w1 = length l) as Hsize1
    by (unfold size; by rewrite (value_at_items c w1 l HI1)).
  pose proof (items_mutate_length c l w) as Hlen1. fold w1 in Hlen1.
  destruct (lookup_lt_is_Some_2 (nodes w1) (c_focus c)) as [nF1 HF1]; [lia|].
  set (z := if size c w1 <? 1 then (-1)%Z else 0%Z).
  destruct (focus_assign H c z w1 nF1 Hwf1 HF1) as (w2 & Hset & Hwf2 & Hkept & Hfocus).
  exists w2. split; [|split].
  - unfold deleteIndex. rewrite Hitems, Hl'. fold w1 z. rewrite Hset. simpl.
    by rewrite (proj2 (lookup_ge_None l index)).
  - apply value_at_items. rewrite (values_kept_value_at _ _ _ _ Hkept) by done. done.
  - rewrite Hfocus. f_equal. unfold z. rewrite Hsize1.
    destruct (Nat.ltb_spec (length l) 1), (Nat.eqb_spec (length l) 0); try done; lia.
Qed.

(** *** The loop of [delete] *)

Lemma skip_delete_sublist {A} (t : A -> bool) : forall n l,
  length l <= n -> sublist (skip_delete t l) l.
Proof.
  induction n as [|n IH]; intros l Hn.
  { destruct l; [constructor|simpl in Hn; lia]. }
  destruct l as [|x rest]; [constructor|]. simpl in *.
  destruct (t x).
  - destruct rest as [|y rest']; [apply sublist_nil_l|].
    apply sublist_cons, sublist_skip. apply IH. simpl in Hn. lia.
  - apply sublist_skip. apply IH. lia.
Qed.

Lemma skip_delete_keeps_failing {A} (t : A -> bool) : forall n l,
  length l <= n -> sublist (List.filter (fun x => negb (t x)) l) (skip_delete t l).
Proof.
  induction n as [|n IH]; intros l Hn.
  { destruct l; [constructor|simpl in Hn; lia]. }
  destruct l as [|x rest]; [constructor|]. simpl in *.
  destruct (t x); simpl.
  - destruct rest as [|y rest']; [constructor|]. simpl.
    destruct (t y); simpl.
    + apply sublist_cons. apply IH. simpl in Hn. lia.
    + apply sublist_skip. apply IH. simpl in Hn. lia.
  - apply sublist_skip. apply IH. lia.
Qed.

Lemma skip_delete_no_adjacent {A} (t : A -> bool) : forall n l,
  length l <= n -> no_adjacent t l = true ->
  skip_delete t l = List.filter (fun x => negb (t x)) l.
Proof.
  induction n as [|n IH]; intros l Hn Hadj.
  { destruct l; [done|simpl in Hn; lia]. }
  destruct l as [|x rest]; [done|]. simpl in Hn.
  destruct rest as [|y rest'].
  { simpl. by destruct (t x). }
  change (no_adjacent t (x :: y :: rest'))
    with (negb (t x && t y) && no_adjacent t (y :: rest')) in Hadj.
  apply andb_true_iff in Hadj as [Hxy Hrest].
  change (skip_delete t (x :: y :: rest'))
    with (if t x then y :: skip_delete t rest' else x :: skip_delete t (y :: rest')).
  change (List.filter (fun x => negb (t x)) (x :: y :: rest'))
    with (if negb (t x) then x :: List.filter (fun x => negb (t x)) (y :: rest')
          else List.filter (fun x => negb (t x)) (y :: rest')).
  destruct (t x) eqn:Hx; simpl in Hxy |- *.
  - destruct (t y) eqn:Hy; [done|]. simpl. f_equal. apply (IH rest'); [simpl in Hn; lia|].
    destruct rest' as [|z rest'']; [done|].
    change (no_adjacent t (y :: z :: rest''))
      with (negb (t y && t z) && no_adjacent t (z :: rest'')) in Hrest.
    by apply andb_true_iff in Hrest as [_ ?].
  - f_equal. apply (IH (y :: rest')); [simpl in Hn |- *; lia|done].
Qed.

Lemma delete_from_done H fuel c p i w :
  size c w <= i -> delete_from H fuel c p i w = Some (Returned w).
Proof.
  intros Hi. destruct fuel; simpl; destruct (Nat.ltb_spec i (size c w)); try lia; done.
Qed.

Lemma delete_from_step H fuel c p i w x m :
  i < size c w -> items_value c w !! i = Some x -> property_model H w x = Some m ->
  delete_from H (S fuel) c p i w =
    if p m then
      r ← deleteIndex H c i w;
      match r with
      | Returned w1 => delete_from H fuel c p (S i) w1
      | Thrown w1 => Some (Thrown w1)
      end
    else delete_from H fuel c p (S i) w.
Proof.
  intros Hi Hx Hm. simpl. replace (i <? size c w) with true by (symmetry; by apply Nat.ltb_lt).
  rewrite Hx. simpl. by rewrite Hm.
Qed.

Lemma delete_from_spec H c p w0 : forall fuel i w kept rest,
  collection_at c w (kept ++ rest) ->
  length kept = i ->
  length rest <= fuel ->
  (forall q, q <> c_focus c -> q <> c_items c -> value_at q w = value_at q w0) ->
  Forall (fun x => is_Some (property_model H w0 x)) (kept ++ rest) ->
  exists w',
    delete_from H fuel c p i w = Some (Returned w') /\
    collection_at c w' (kept ++ skip_delete (model_passes H w0 p) rest) /\
    (forall q, q <> c_focus c -> q <> c_items c -> value_at q w' = value_at q w0).
Proof.
  induction fuel as [|fuel IH]; intros i w kept rest Hc Hi Hfuel Hval Hsome.
  { destruct rest; [|simpl in Hfuel; lia]. exists w. split; [|done].
    apply delete_from_done. destruct Hc as (_&_&_&HI&_).
    unfold size. rewrite (value_at_items _ _ _ HI), length_app. simpl. lia. }
  destruct rest as [|x rest'].
  { exists w. split; [|done]. apply delete_from_done. destruct Hc as (_&_&_&HI&_).
    unfold size. rewrite (value_at_items _ _ _ HI), length_app. simpl. lia. }
  assert (items_value c w = kept ++ x :: rest') as Hitems
    by (destruct Hc as (_&_&_&HI&_); by apply value_at_items).
  assert ((kept ++ x :: rest') !! i = Some x) as Hx.
  { rewrite lookup_app_r by lia. by replace (i - length kept) with 0 by lia. }
  destruct (collection_at_element c w _ i x Hc Hx) as (q & -> & HqF & HqI).
  assert (is_Some (property_model H w0 (VRef q))) as [m Hm0].
  { apply (proj1 (Forall_forall _ _) Hsome). by eapply list_elem_of_lookup_2. }
  assert (property_model H w (VRef q) = Some m) as Hm.
  { rewrite <- Hm0. apply property_model_value_at. by apply Hval. }
  assert (model_passes H w0 p (VRef q) = p m) as Hpass
    by (unfold model_passes; by rewrite Hm0).
  rewrite (delete_from_step H fuel c p i w (VRef q) m);
    [|unfold size; rewrite Hitems, length_app; simpl; lia|by rewrite Hitems|done].
  change (skip_delete (model_passes H w0 p) (VRef q :: rest'))
    with (if model_passes H w0 p (VRef q)
          then match rest' with
               | [] => []
               | y :: rest'' => y :: skip_delete (model_passes H w0 p) rest''
               end
          else VRef q :: skip_delete (model_passes H w0 p) rest').
  rewrite Hpass. destruct (p m).
  - destruct (deleteIndex_in_range H c i w _ _ m Hc Hx Hm)
      as (w1 & Hdel & Hc1 & Hval1 & _ & _).
    rewrite Hdel. simpl.
    assert (take i (kept ++ VRef q :: rest') ++ drop (S i) (kept ++ VRef q :: rest')
            = kept ++ rest') as Hl1.
    { subst i. rewrite take_app_length, drop_app_ge by lia.
      by replace (S (length kept) - length kept) with 1 by lia. }
    rewrite Hl1 in Hc1.
    assert (forall k, k <> c_focus c -> k <> c_items c -> value_at k w1 = value_at k w0)
      as Hval1' by (intros k ? ?; rewrite Hval1 by done; by apply Hval).
    destruct rest' as [|y rest''].
    + exists w1. split; [|done]. apply delete_from_done.
      destruct Hc1 as (_&_&_&HI1&_).
      unfold size. rewrite (value_at_items _ _ _ HI1), length_app. simpl. lia.
    + replace (kept ++ y :: rest'') with ((kept ++ [y]) ++ rest'') in Hc1
        by (by rewrite <- app_assoc).
      destruct (IH (S i) w1 (kept ++ [y]) rest'' Hc1) as (w' & Hrun & Hc' & Hval');
        [rewrite length_app; simpl; lia|simpl in Hfuel; lia|done| |].
      { rewrite <- app_assoc. simpl. apply Forall_app in Hsome as [Hk Hr].
        apply Forall_app. split; [done|]. by inversion Hr. }
      exists w'. split; [done|]. split; [|done]. by rewrite <- app_assoc in Hc'.
  - replace (kept ++ VRef q :: rest') with ((kept ++ [VRef q]) ++ rest') in Hc, Hsome
      by (by rewrite <- app_assoc).
    destruct (IH (S i) w (kept ++ [VRef q]) rest' Hc) as (w' & Hrun & Hc' & Hval');
      [rewrite length_app; simpl; lia|simpl in Hfuel; lia|done|done|].
    exists w'. split; [done|]. split; [|done]. by rewrite <- app_assoc in Hc'.
Qed.

(** *** Building a collection *)

Lemma new_Property_nodeps default_ cached w :
  new_Property default_ cached [] w =
    {| nodes := nodes w ++ [fresh default_ cached]; trace := trace w |}.
Proof. done. Qed.

Lemma wf_app_fresh ns t t' default_ cached :
  wf {| nodes := ns; trace := t |} ->
  wf {| nodes := ns ++ [fresh default_ cached]; trace := t' |}.
Proof.
  intros Hwf. apply (wf_nodes_eq (new_Property default_ cached [] {| nodes := ns; trace := t |}));
    [done|]. by apply new_Property_wf.
Qed.

Lemma box_spec c : forall elements w,
  _box c elements w =
    (map VRef (seq (length (nodes w)) (length elements)),
     {| nodes := nodes w ++ map (fun e => fresh (fun _ => _map c e) false) elements;
        trace := trace w |}).
Proof.
  induction elements as [|e es IH]; intros w; simpl.
  { rewrite app_nil_r. by destruct w. }
  rewrite IH. simpl. rewrite length_app. simpl.
  replace (length (nodes w) + 1) with (S (length (nodes w))) by lia.
  by rewrite <- app_assoc.
Qed.

Lemma wf_app_fresh_list ns t (fs : list (prod (nat -> jsval) bool)) :
  wf {| nodes := ns; trace := t |} ->
  wf {| nodes := ns ++ map (fun f => fresh f.1 f.2) fs; trace := t |}.
Proof.
  revert ns. induction fs as [|f fs IH]; intros ns Hwf; simpl.
  { by rewrite app_nil_r. }
  replace (ns ++ fresh f.1 f.2 :: map (fun f => fresh f.1 f.2) fs)
    with ((ns ++ [fresh f.1 f.2]) ++ map (fun f => fresh f.1 f.2) fs)
    by (by rewrite <- app_assoc).
  apply IH. by apply (wf_app_fresh ns t t).
Qed.

(** The store of [new Collection]: the focus, the boxed elements, the
    items, and the four public properties, in the order of construction. *)
Lemma new_Collection_nodes default_ initial mapFunc w :
  let cw := new_Collection default_ initial mapFunc w in
  let k := length (nodes w) in
  c_focus cw.1 = k /\
  c_items cw.1 = S k + length initial /\
  c_mapFunc cw.1 = mapFunc /\
  trace cw.2 = trace w /\
  nodes cw.2 =
    nodes w
    ++ map (fun f : prod (nat -> jsval) bool => fresh f.1 f.2)
         ([(fun _ => VNum (-1), false)]
          ++ map (fun e => (fun _ : nat => mapped mapFunc e, false)) initial
          ++ [(fun _ => VArr (map VRef (seq (S k) (length initial))), false);
              (default_, false); (fun _ => VObj [], false);
              (fun _ => VArr [], false); (fun _ => VBool true, false)]).
Proof.
  unfold new_Collection. rewrite box_spec. simpl.
  rewrite !length_app, length_map. simpl.
  replace (length (nodes w) + 1) with (S (length (nodes w))) by lia.
  repeat split; try lia.
  rewrite !map_app, !map_map. simpl. unfold _map. simpl.
  rewrite <- !app_assoc. simpl. done.
Qed.

Lemma new_Collection_at default_ initial mapFunc w :
  wf w ->
  let cw := new_Collection default_ initial mapFunc w in
  let k := length (nodes w) in
  collection_at cw.1 cw.2 (map VRef (seq (S k) (length initial))) /\
  value_at (c_focus cw.1) cw.2 = Some (VNum (-1)) /\
  revision_at (c_items cw.1) cw.2 = Some 0 /\
  (forall i e, initial !! i = Some e ->
     value_at (S k + i) cw.2 = Some (mapped mapFunc e)) /\
  (forall j, j < k -> nodes cw.2 !! j = nodes w !! j).
Proof.
  intros Hwf cw k.
  destruct (new_Collection_nodes default_ initial mapFunc w) as (HF & HI & _ & Ht & Hn).
  fold cw k in HF, HI, Ht, Hn.
  set (fs := [(fun _ : nat => VNum (-1), false)]
          ++ map (fun e => (fun _ : nat => mapped mapFunc e, false)) initial
          ++ [(fun _ : nat => VArr (map VRef (seq (S k) (length initial))), false);
              (default_, false); (fun _ => VObj [], false);
              (fun _ => VArr [], false); (fun _ => VBool true, false)]) in *.
  assert (forall j f, fs !! j = Some f -> nodes cw.2 !! (k + j) = Some (fresh f.1 f.2)) as Hlook.
  { intros j f Hj. rewrite Hn, lookup_app_r by (unfold k; lia).
    replace (k + j - length (nodes w)) with j by (unfold k; lia).
    by rewrite list_lookup_fmap, Hj. }
  assert (length (nodes cw.2) = k + length fs) as Hlen
    by (rewrite Hn, length_app, length_map; done).
  assert (length fs = length initial + 6) as Hfs.
  { unfold fs. rewrite !length_app, length_map. simpl. lia. }
  split; [|split; [|split; [|split]]].
  - split; [|split; [|split; [|split]]].
    + apply (wf_nodes_eq {| nodes := nodes w ++ map (fun f => fresh f.1 f.2) fs;
                            trace := trace w |}); [done|].
      apply wf_app_fresh_list. by destruct w.
    + lia.
    + lia.
    + unfold value_at. rewrite HI.
      replace (S k + length initial) with (k + S (length initial)) by lia.
      rewrite (Hlook (S (length initial))
                 (fun _ => VArr (map VRef (seq (S k) (length initial))), false)); [done|].
      unfold fs. simpl. rewrite lookup_app_r by (rewrite length_map; lia).
      rewrite length_map. by rewrite Nat.sub_diag.
    + apply Forall_forall. intros x Hx. apply list_elem_of_fmap in Hx as (p & -> & Hp).
      apply elem_of_seq in Hp. exists p. split; [done|]. lia.
  - unfold value_at. rewrite HF. replace k with (k + 0) at 1 by lia.
    by rewrite (Hlook 0 (fun _ => VNum (-1), false)).
  - unfold revision_at. rewrite HI.
    replace (S k + length initial) with (k + S (length initial)) by lia.
    rewrite (Hlook (S (length initial))
               (fun _ => VArr (map VRef (seq (S k) (length initial))), false)); [done|].
    unfold fs. simpl. rewrite lookup_app_r by (rewrite length_map; lia).
    rewrite length_map. by rewrite Nat.sub_diag.
  - intros i e Hi. unfold value_at.
    replace (S k + i) with (k + S i) by lia.
    rewrite (Hlook (S i) (fun _ => mapped mapFunc e, false)); [done|].
    unfold fs. simpl. rewrite lookup_app_l by (rewrite length_map; by eapply lookup_lt_Some).
    by rewrite list_lookup_fmap, Hi.
  - intros j Hj. rewrite Hn. by apply lookup_app_l.
Qed.

Lemma wf_empty : wf empty_world.
Proof. intros i n Hi. simpl in Hi. by rewrite lookup_nil in Hi. Qed.

Lemma focus_valid c w z :
  focus_value c w = Some z -> (-1 <= z < Z.of_nat (size c w))%Z ->
  CurrentAsIndex c w = Some (Val z).
Proof.
  intros Hf Hz. unfold CurrentAsIndex. rewrite Hf. simpl.
  by rewrite validatedFocus_in_range.
Qed.

Lemma focus_value_of_value_at c w z :
  value_at (c_focus c) w = Some (VNum z) -> focus_value c w = Some z.
Proof.
  unfold value_at, focus_value. destruct (nodes w !! c_focus c) as [n|]; [|done].
  simpl. intros Hv. inversion Hv as [Hv']. by rewrite Hv'.
Qed.

Lemma items_mutate_focus c l w :
  c_focus c <> c_items c -> focus_value c (items_mutate c l w) = focus_value c w.
Proof. intros Hne. apply focus_value_value_at. by apply items_mutate_value_at. Qed.

Lemma delete_spec H c p w l :
  collection_at c w l ->
  Forall (fun x => is_Some (property_model H w x)) l ->
  exists w',
    delete H c p w = Some (Returned w') /\
    items_value c w' = skip_delete (model_passes H w p) l /\
    (forall x, x ∈ l -> property_model H w' x = property_model H w x).
Proof.
  intros Hc Hsome.
  pose proof Hc as (_&_&_&HI&Hall). pose proof (value_at_items _ _ _ HI) as Hitems.
  destruct (delete_from_spec H c p w (length l) 0 w [] l) as (w' & Hrun & Hc' & Hval);
    try done.
  exists w'. split; [|split].
  - unfold delete, size. by rewrite Hitems.
  - destruct Hc' as (_&_&_&HI'&_). by apply value_at_items.
  - intros x Hx. destruct (proj1 (Forall_forall _ _) Hall x Hx) as (q & -> & HqF & HqI).
    apply property_model_value_at. by apply Hval.
Qed.

(** [add], on a collection in the store. *)
Lemma add_spec H c m w l :
  collection_at c w l ->
  exists w',
    add H c m w = Some (Returned w') /\
    collection_at c w' (l ++ [VRef (length (nodes w))]) /\
    value_at (length (nodes w)) w' = Some (_map c m) /\
    focus_value c w' = Some (Z.of_nat (S (length l))) /\
    (forall q, q <> c_focus c -> q <> c_items c -> q < length (nodes w) ->
       value_at q w' = value_at q w) /\
    EAddFunc m ∈ trace w'.
Proof.
  intros (Hwf & Hne & HF & HI & Hall).
  assert (c_items c < length (nodes w)) as HIlt.
  { unfold value_at in HI. destruct (nodes w !! c_items c) eqn:Hn; [|done].
    by eapply lookup_lt_Some. }
  set (p := length (nodes w)).
  set (w2 := {| nodes := nodes w ++ [fresh (fun _ => _map c m) false];
                trace := trace w ++ [EAddFunc m] |}).
  assert (wf w2) as Hwf2 by (apply (wf_app_fresh (nodes w) (trace w)); by destruct w).
  assert (forall k, k < p -> value_at k w2 = value_at k w) as Hold2.
  { intros k Hk. unfold value_at, w2. simpl. by rewrite lookup_app_l. }
  assert (value_at p w2 = Some (_map c m)) as Hp2.
  { unfold value_at, w2. simpl. rewrite lookup_app_r by (unfold p; lia).
    by rewrite Nat.sub_diag. }
  assert (items_value c w2 = l) as Hitems2.
  { apply value_at_items. by rewrite Hold2. }
  set (l2 := l ++ [VRef p]).
  set (w3 := items_mutate c l2 w2).
  assert (length (nodes w2) = S p) as Hlen2 by (unfold w2; simpl; rewrite length_app; simpl; lia).
  pose proof (items_mutate_length c l2 w2) as Hlen3. fold w3 in Hlen3.
  pose proof (items_mutate_wf c l2 w2 Hwf2) as Hwf3. fold w3 in Hwf3.
  assert (value_at (c_items c) w3 = Some (VArr l2)) as HI3
    by (apply items_mutate_items; lia).
  destruct (lookup_lt_is_Some_2 (nodes w3) (c_focus c)) as [nF3 HF3]; [lia|].
  destruct (focus_assign H c (Z.of_nat (length l2)) w3 nF3 Hwf3 HF3)
    as (w4 & Hset & Hwf4 & Hkept & Hfocus).
  set (w' := _triggerChangeHandlers (c_items c) w4).
  assert (forall k, value_at k w' = value_at k w4) as Hval'
    by (intros k; apply value_at_nodes_eq, triggerChangeHandlers_nodes).
  assert (forall k, k <> c_focus c -> k <> c_items c -> value_at k w' = value_at k w2) as Hval.
  { intros k HkF HkI. rewrite Hval', (values_kept_value_at _ _ _ k Hkept HkF).
    by apply items_mutate_value_at. }
  exists w'. split; [|split; [|split; [|split; [|split]]]].
  - unfold add. cbv zeta. change (length (nodes (emit (EAddFunc m) w))) with p.
    change (new_Property (fun _ => _map c m) false [] (emit (EAddFunc m) w)) with w2.
    rewrite Hitems2. fold l2 w3. rewrite Hset. done.
  - split; [|split; [done|split; [|split]]].
    + by apply (wf_nodes_eq w4); [apply triggerChangeHandlers_nodes|].
    + unfold w'. rewrite triggerChangeHandlers_nodes. destruct Hkept as [-> _]. lia.
    + rewrite Hval', (values_kept_value_at _ _ _ _ Hkept) by done. done.
    + apply Forall_app. split; [done|]. constructor; [|constructor].
      exists p. split; [done|]. unfold p. lia.
  - rewrite Hval by (unfold p; lia). done.
  - rewrite (focus_value_value_at c w4 w') by apply Hval'. rewrite Hfocus.
    unfold l2. rewrite length_app. simpl. do 2 f_equal. lia.
  - intros q HqF HqI Hq. rewrite Hval by done. by apply Hold2.
  - assert (only_gets_or_more : exists t, trace w4 = (trace w ++ [EAddFunc m]) ++ t).
    { destruct (nodes w3 !! c_focus c) as [nF|] eqn:HnF; [|done].
      destruct (set_calls H (c_focus c) _ false w3 w4 nF Hwf3 HnF Hset)
        as (v' & gs & _ & _ & Ht & _).
      eexists. rewrite Ht. unfold w3. rewrite items_mutate_trace. done. }
    destruct only_gets_or_more as [t Ht].
    unfold w', _triggerChangeHandlers. destruct (nodes w4 !! c_items c); simpl;
      rewrite Ht; rewrite !elem_of_app; [left|]; left; right; by left.
Qed.

(** *** Decisions of [reset] and [settle] *)

Lemma track_dirty_existsb w n : (track_dirty w (p_dependencies n)).2 = some_dirty w n.
Proof.
  unfold some_dirty. induction (p_dependencies n) as [|d ds IH]; simpl; [done|].
  destruct (track_dirty w ds) as [ds' some]; simpl in *.
  destruct (nodes w !! d.2) as [o|]; simpl; [destruct (isDirty o d.1)|]; simpl; done.
Qed.

(** A fetched primitive is committed without echo. *)
Lemma settle_commits_primitive H exn i v w n :
  wf w -> nodes w !! i = Some n ->
  p_isAsyncUpdating n = true -> 0 < p_pending n ->
  truthy v = true -> is_object v = false ->
  exists w' gs,
    run H (OpSettle exn i (Resolved v)) w = Some w' /\
    nodes w' !! i = Some (set_updating false (pred (p_pending n))
                            (set_state v (S (p_revision n)) (p_default_calls n) n)) /\
    trace w' = trace w ++ map (fun h => EChange i h v) (p_changeHandlers n) ++ map EGet gs /\
    i ∉ gs.
Proof.
  intros Hwf Hi Hu Hp Htruthy Hobj.
  pose proof (lookup_lt_Some _ _ _ Hi) as Hlen.
  set (n0 := set_updating (p_isAsyncUpdating n) (pred (p_pending n)) n).
  set (w0 := put i n0 w).
  assert (nodes w0 !! i = Some n0) as Hi0
    by (unfold w0, put; simpl; by apply list_lookup_insert_eq).
  assert (wf w0) as Hwf0.
  { eapply same_shape_wf; [|exact Hwf]. by apply (put_same_shape i n n0 w Hi). }
  assert (set_value H (p_value n0) v false = Some v) as Hv
    by (unfold set_value; by rewrite Hobj).
  destruct (set_returns H i v false w0 n0 v Hwf0 Hi0 Hv) as [w3 Hset];
    [left; simpl; exact Hu|].
  destruct (set_calls H i v false w0 w3 n0 Hwf0 Hi0 Hset) as (v' & gs & Hv' & Hi3 & Ht3 & Hgs).
  assert (v' = v) as -> by congruence.
  exists (finally i w3), gs. split; [|split; [|split; [|done]]].
  - change (run H (OpSettle exn i (Resolved v)) w)
      with (n' ← nodes w !! i;
            if 0 <? p_pending n' then settle H exn i (Resolved v) w else None).
    rewrite Hi.
    change (Some n ≫= (fun n' => if 0 <? p_pending n' then settle H exn i (Resolved v) w
                                 else None))
      with (if 0 <? p_pending n then settle H exn i (Resolved v) w else None).
    replace (0 <? p_pending n) with true by (symmetry; by apply Nat.ltb_lt).
    rewrite (settle_committed H exn i v w n Hi) by (by rewrite Htruthy).
    fold n0 w0. rewrite Hset. done.
  - unfold finally. rewrite Hi3. unfold put. simpl.
    rewrite list_lookup_insert_eq by (by eapply lookup_lt_Some). simpl.
    unfold n0. simpl. by rewrite Hu.
  - unfold finally. rewrite Hi3. unfold put. simpl. rewrite Ht3. simpl.
    unfold n0. simpl. by rewrite Hu.
Qed.

(** * The claims *)

(** C1. A Property with a non-empty dependency set, all dependencies Defined
    and none of them dirty against the revision this node tracks: [reset()]
    without force returns the store as it found it.  No call of [getFunc]
    is recorded, and value, revision and the Updating flag of the node (and
    of every other node) are what they were. *)
Theorem reset_clean_dependencies_no_fetch (i : nat) (n : node) (w : world) :
  nodes w !! i = Some n ->
  p_dependencies n <> [] ->
  Forall (fun d : nat * nat =>
            exists o, nodes w !! d.2 = Some o /\ 1 <= p_revision o /\
                      p_revision o <= d.1) (p_dependencies n) ->
  reset false i w = Some w.
Proof.
  intros Hi Hne Hdeps. unfold reset. simpl. rewrite Hi. simpl.
  assert (List.filter (dep_isUndefined w) (p_dependencies n) = []) as ->.
  { clear Hne. induction Hdeps as [|d ds (o & Ho & Hdef & _) _ IH]; simpl; [done|].
    unfold dep_isUndefined at 1. rewrite Ho. unfold isUndefined.
    destruct (Nat.ltb_spec (p_revision o) 1); [lia|]. done. }
  simpl. rewrite track_dirty_clean.
  - destruct (p_dependencies n) as [|d ds] eqn:Hds; [done|]. simpl.
    rewrite <- Hds. f_equal. destruct w as [ns t]. unfold put. simpl. f_equal.
    apply list_insert_id. simpl in Hi. rewrite Hi. f_equal. by destruct n.
  - eapply Forall_impl; [exact Hdeps|]. intros d (o & Ho & _ & Hle) o' Ho'.
    assert (o' = o) as -> by congruence. unfold isDirty.
    destruct (Nat.ltb_spec d.1 (p_revision o)); [lia|done].
Qed.

Lemma reset_clean_dependencies_no_fetch_witness :
  reset false 1 w_tracked = Some w_tracked.
Proof.
  eapply (reset_clean_dependencies_no_fetch 1 _ w_tracked).
  - reflexivity.
  - simpl. discriminate.
  - simpl. constructor; [|constructor]. eexists. split; [reflexivity|]. simpl. lia.
Defined.

(** C2. A [reset()], forced or not, on a node whose Updating flag is set
    returns without calling [getFunc] of that node; and every operation
    keeps every node at no more than one pending [getFunc] promise, which
    exists only while the node is Updating. *)
Theorem reset_single_flight (H : host) :
  (forall force i n w,
     wf w -> nodes w !! i = Some n -> p_isAsyncUpdating n = true ->
     exists w' n', reset force i w = Some w' /\ nodes w' !! i = Some n' /\
       gets i (trace w') = gets i (trace w) /\
       p_pending n' = p_pending n /\ p_isAsyncUpdating n' = true) /\
  (wf empty_world /\ single_flight empty_world) /\
  (forall os w w',
     wf w -> single_flight w -> run_all H os w = Some w' ->
     wf w' /\ single_flight w').
Proof.
  split; [|split].
  - intros force i n w Hwf Hi Hupd.
    destruct (reset_total force i w) as [w' Hrun]; [by eapply lookup_lt_Some|done|].
    destruct (reset_step_of_reset _ _ _ _ Hrun) as [_ Hstep].
    destruct (Hstep i n Hi) as (n' & Hi' & Hrel & Hgets).
    exists w', n'. split; [done|]. split; [done|].
    destruct Hrel as (_&_&_&_&_&_&_&_&[[Hu Hp]|(Hu&_)]); [|congruence].
    split; [lia|]. split; [done|congruence].
  - split; intros i n Hi; simpl in Hi; by rewrite lookup_nil in Hi.
  - intros os w w'. apply run_all_invariant.
Qed.

Lemma reset_single_flight_witness :
  exists n, nodes w_fetching !! 0 = Some n /\ p_isAsyncUpdating n = true /\
    exists w' n', reset true 0 w_fetching = Some w' /\ nodes w' !! 0 = Some n' /\
      gets 0 (trace w') = gets 0 (trace w_fetching) /\
      p_pending n' = p_pending n /\ p_isAsyncUpdating n' = true.
Proof.
  eexists. split; [reflexivity|]. split; [reflexivity|].
  apply (proj1 (reset_single_flight plain_host) true 0 _ w_fetching).
  - intros i n Hi. destruct i as [|i]; simpl in Hi; [|by rewrite lookup_nil in Hi].
    inversion Hi; subst; simpl. split; constructor.
  - reflexivity.
  - reflexivity.
Defined.

(** C3. The fetch of a node rejects with reason "boom".  Value and revision
    stay as they were and the Updating flag is cleared, but the rejection
    goes to [console.error]: the [errors] callback of the node is not
    called. *)
Theorem rejected_fetch_bypasses_errors :
  exists w',
    settle plain_host VUndefined 0 (Rejected (VStr "boom")) w_fetching = Some w' /\
    trace w' = trace w_fetching ++ [EConsoleError 0 (VStr "boom")] /\
    List.filter (is_errors 0) (trace w') = [] /\
    value_at 0 w' = value_at 0 w_fetching /\
    revision_at 0 w' = revision_at 0 w_fetching /\
    updating_at 0 w_fetching = Some true /\
    updating_at 0 w' = Some false.
Proof. eexists. repeat split; reflexivity. Qed.

(** C4, as stated, fails: after [new Property], one [set] and [_reinit] the
    revision of the node went from 1 back to 0. *)
Lemma reinit_lowers_revision :
  exists w',
    run plain_host (OpReinit 0) w_defined = Some w' /\
    revision_at 0 w_defined = Some 1 /\
    revision_at 0 w' = Some 0.
Proof. eexists. repeat split; reflexivity. Qed.

(** C4, amended.  Across every sequence of constructions, [set]s, [reset]s,
    [observe]s and settled fetches no node loses revisions; a [set()] that
    returns has raised the revision of its node by exactly 1; [_reinit] and
    the end of an observation leave each revision as it is or put it back
    to 0. *)
Theorem revision_monotone_until_reinit (H : host) :
  (forall os w w',
     forallb (fun o => negb (reinits o)) os = true ->
     run_all H os w = Some w' -> forward w w') /\
  (forall i v byRef w w' n,
     nodes w !! i = Some n ->
     set H i v byRef w = Some (Returned w') ->
     exists n', nodes w' !! i = Some n' /\ p_revision n' = S (p_revision n)) /\
  (forall o w w',
     reinits o = true -> wf w -> run H o w = Some w' ->
     forall k n, nodes w !! k = Some n ->
       exists n', nodes w' !! k = Some n' /\
         (p_revision n' = p_revision n \/ p_revision n' = 0)).
Proof.
  split; [|split].
  - intros os w w'. apply run_all_forward.
  - intros i v byRef w w' n. apply set_returned_revision.
  - intros o w w'. apply run_reinit_revision.
Qed.

Lemma revision_monotone_until_reinit_witness :
  forward empty_world w_defined /\
  exists n w' n',
    nodes w_tracked !! 0 = Some n /\
    set plain_host 0 (VNum 9) false w_tracked = Some (Returned w') /\
    nodes w' !! 0 = Some n' /\ p_revision n' = S (p_revision n).
Proof.
  split.
  - apply (proj1 (revision_monotone_until_reinit plain_host)
             [OpNew zero_default false []; OpSet 0 (VNum 7) false]); reflexivity.
  - eexists. eexists.
    destruct (proj1 (proj2 (revision_monotone_until_reinit plain_host))
                0 (VNum 9) false w_tracked _ _ eq_refl eq_refl) as (n' & Hn' & Hrev).
    exists n'. repeat split; [exact Hn'|exact Hrev].
Defined.

(** C5.  The fetch of a boolean property resolves with [false], a defined,
    non-null result: nothing is committed.  The value is still the default
    [true], the revision is still 0, and neither [setFunc] nor a change
    handler was called. *)
Theorem resolved_false_is_dropped :
  exists w',
    settle plain_host VUndefined 0 (Resolved (VBool false)) w_flag_fetching = Some w' /\
    value_at 0 w' = Some (VBool true) /\
    revision_at 0 w' = Some 0 /\
    trace w' = trace w_flag_fetching.
Proof. eexists. repeat split; reflexivity. Qed.

(** C6.  A Property with revision at least 1 whose last change handler is
    removed by [end()]: [_reinit()] runs, the call returns, the revision is
    0, every tracked revision is 0 (the dependencies themselves are the
    same), and the value is a fresh result of the default generator, or,
    for a cached node, the value it held. *)
Theorem end_last_observation_reinits (i h : nat) (n : node) (w : world) :
  wf w ->
  nodes w !! i = Some n ->
  p_changeHandlers n <> [] ->
  set_delete h (p_changeHandlers n) = [] ->
  1 <= p_revision n ->
  exists w' n',
    observation_end i h w = Some w' /\
    nodes w' !! i = Some n' /\
    p_changeHandlers n' = [] /\
    p_revision n' = 0 /\
    Forall (fun d : nat * nat => d.1 = 0) (p_dependencies n') /\
    map snd (p_dependencies n') = map snd (p_dependencies n) /\
    p_value n' = (if p_cached n then p_value n else p_default n (p_default_calls n)).
Proof.
  intros Hwf Hi _ Hlast Hrev.
  set (n1 := set_changeHandlers (set_delete h (p_changeHandlers n)) n).
  assert (wf (put i n1 w)) as Hwf1.
  { eapply same_shape_wf; [|exact Hwf]. by apply put_same_shape with (n := n). }
  destruct (reinit_spec i (put i n1 w) n1 Hwf1) as (w' & Hrun & Hi').
  { unfold put. simpl. apply list_lookup_insert_eq. by eapply lookup_lt_Some. }
  exists w'. eexists. split; [|split; [exact Hi'|]].
  - unfold observation_end. rewrite Hi. simpl. rewrite Hlast. simpl.
    subst n1. rewrite Hlast in Hrun. exact Hrun.
  - assert ((0 <? p_revision n1) = true) as -> by (apply Nat.ltb_lt; simpl; lia).
    subst n1. unfold reinit_node. simpl. rewrite Hlast.
    destruct (p_cached n); simpl; rewrite map_snd_zero;
      (repeat split; try done); apply Forall_forall;
      intros d Hd; apply list_elem_of_fmap in Hd as (d' & -> & _); done.
Qed.

Lemma end_last_observation_reinits_witness :
  (exists w' n',
     observation_end 0 0 (w_observed false) = Some w' /\ nodes w' !! 0 = Some n' /\
     p_revision n' = 0 /\ p_value n' = VNum 0) /\
  (exists w' n',
     observation_end 0 0 (w_observed true) = Some w' /\ nodes w' !! 0 = Some n' /\
     p_revision n' = 0 /\ p_value n' = VNum 7).
Proof.
  assert (forall c, wf (w_observed c)) as Hwf.
  { intros c i n Hi. destruct i as [|i]; simpl in Hi; [|by rewrite lookup_nil in Hi].
    inversion Hi; subst; simpl. split; constructor. }
  split.
  - destruct (end_last_observation_reinits 0 0 _ (w_observed false) (Hwf false) eq_refl)
      as (w' & n' & Hrun & Hn' & _ & Hrev & _ & _ & Hval);
      [simpl; discriminate|reflexivity|simpl; lia|].
    exists w', n'. repeat split; [exact Hrun|exact Hn'|exact Hrev|exact Hval].
  - destruct (end_last_observation_reinits 0 0 _ (w_observed true) (Hwf true) eq_refl)
      as (w' & n' & Hrun & Hn' & _ & Hrev & _ & _ & Hval);
      [simpl; discriminate|reflexivity|simpl; lia|].
    exists w', n'. repeat split; [exact Hrun|exact Hn'|exact Hrev|exact Hval].
Defined.

(** C9.  [validatedFocus(i)] returns an in-range index (from -1 up to
    size-1) unchanged, clamps any other index to size-1 when the collection
    is not empty, and raises exactly when the collection is empty and the
    index is not -1.  On three elements index 5 gives 2; on no elements
    index 0 raises. *)
Theorem validatedFocus_clamps_or_raises (c : collection) (w : world) (index : Z) :
  validatedFocus c w index =
    (if (-1 <=? index)%Z && (index <? Z.of_nat (size c w))%Z then Val index
     else if size c w =? 0 then Err index
     else Val (Z.of_nat (size c w) - 1)%Z) /\
  ((exists e, validatedFocus c w index = Err e) <->
   size c w = 0 /\ (0 <= index \/ index < -1)%Z) /\
  (size three.1 three.2 = 3 /\ validatedFocus three.1 three.2 5 = Val 2%Z) /\
  (size none.1 none.2 = 0 /\ validatedFocus none.1 none.2 0 = Err 0%Z).
Proof.
  split; [|split; [|split; split; reflexivity]].
  - unfold validatedFocus. generalize (size c w). intros s. rewrite Z.geb_leb.
    destruct (Z.ltb_spec index (-1)), (Z.leb_spec (-1) index),
             (Z.leb_spec (Z.of_nat s) index), (Z.ltb_spec index (Z.of_nat s)),
             (Nat.ltb_spec s 1), (Nat.eqb_spec s 0); simpl; try lia; done.
  - unfold validatedFocus. generalize (size c w). intros s. rewrite Z.geb_leb. split.
    + intros [e He]. revert He.
      destruct (Z.ltb_spec index (-1)), (Z.leb_spec (Z.of_nat s) index),
               (Nat.ltb_spec s 1); simpl; intros He; try discriminate; lia.
    + intros [-> Hidx]. exists index.
      destruct (Z.ltb_spec index (-1)), (Z.leb_spec (Z.of_nat 0) index);
        simpl; try done; lia.
Qed.

Lemma validatedFocus_clamps_or_raises_witness :
  exists e, validatedFocus none.1 none.2 0 = Err e.
Proof.
  apply (proj2 (proj1 (proj2 (validatedFocus_clamps_or_raises none.1 none.2 0)))).
  split; [reflexivity|left; lia].
Defined.

(** C10.  [sort(compareFn)] and [reverse()] call the change handlers of the
    items property with the reordered array, and change the revision of no
    node: [isDirty] of the items property gives a dependent the same
    answer before and after. *)
Theorem sort_reverse_keep_revision (H : host) (c : collection)
    (compareFn : jsval -> jsval -> Z) (w : world) (n : node) :
  nodes w !! c_items c = Some n ->
  trace (sort H c compareFn w) =
    trace w ++ map (fun h => EChange (c_items c) h
                               (VArr (array_sort H compareFn (items_value c w))))
                   (p_changeHandlers n) /\
  trace (reverse c w) =
    trace w ++ map (fun h => EChange (c_items c) h (VArr (rev (items_value c w))))
                   (p_changeHandlers n) /\
  (forall k, revision_at k (sort H c compareFn w) = revision_at k w) /\
  (forall k, revision_at k (reverse c w) = revision_at k w) /\
  (forall tracked n1 n2,
     nodes (sort H c compareFn w) !! c_items c = Some n1 ->
     nodes (reverse c w) !! c_items c = Some n2 ->
     isDirty n1 tracked = isDirty n tracked /\ isDirty n2 tracked = isDirty n tracked).
Proof.
  intros Hi.
  assert (forall k, revision_at k (sort H c compareFn w) = revision_at k w) as Hsort.
  { intros k. unfold sort. by rewrite triggerChangeHandlers_revision, items_mutate_revision. }
  assert (forall k, revision_at k (reverse c w) = revision_at k w) as Hrev.
  { intros k. unfold reverse.
    by rewrite triggerChangeHandlers_revision, items_mutate_revision. }
  split; [by apply items_mutate_changed|]. split; [by apply items_mutate_changed|].
  split; [done|]. split; [done|].
  intros tracked n1 n2 H1 H2.
  pose proof (Hsort (c_items c)) as Hs. pose proof (Hrev (c_items c)) as Hr.
  unfold revision_at in Hs, Hr. rewrite H1, Hi in Hs. rewrite H2, Hi in Hr.
  simpl in Hs, Hr. inversion Hs. inversion Hr. unfold isDirty. split; congruence.
Qed.

Lemma sort_reverse_keep_revision_witness :
  revision_at (c_items three.1) (sort plain_host three.1 (by_id three.2) three.2)
    = revision_at (c_items three.1) three.2 /\
  revision_at (c_items three.1) (reverse three.1 three.2)
    = revision_at (c_items three.1) three.2.
Proof.
  destruct (sort_reverse_keep_revision plain_host three.1 (by_id three.2) three.2 _ eq_refl)
    as (_ & _ & Hs & Hr & _).
  split; [apply Hs|apply Hr].
Defined.

(** C8.  [delete(m => m.id === 1)] on a collection of two elements that
    both have id 1 returns with one of them still in the collection: after
    [deleteIndex(0)] the second element has moved to index 0 and the loop
    goes on at index 1. *)
Theorem delete_skips_adjacent_match :
  exists w' p,
    delete plain_host twins.1 (has_id 1) twins.2 = Some (Returned w') /\
    size twins.1 twins.2 = 2 /\
    size twins.1 w' = 1 /\
    items_value twins.1 w' = [p] /\
    property_model plain_host w' p = Some (model_id 1) /\
    has_id 1 (model_id 1) = true.
Proof. eexists. eexists. repeat split; reflexivity. Qed.

(** C7.  [add({id:3})] on the collection built from [{id:1},{id:2}] returns
    with three elements, whose last index is 2, and has stored 3 in
    [__focus]: the focus is assigned the return value of [push], which is
    the new length of the array, one past the index of the appended
    element.  A handler that observes [__focus] is called with 3.
    [validatedFocus] takes 3 for out of range and answers with the last
    index, which is why [CurrentAsIndex] is 2 and [CurrentAsModel] the new
    model. *)
Theorem add_focus_is_one_past_the_end :
  (exists w',
     add plain_host scenario.1 (model_id 3) scenario.2 = Some (Returned w') /\
     size scenario.1 w' = 3 /\
     focus_value scenario.1 w' = Some 3%Z /\
     (3 >=? Z.of_nat (size scenario.1 w'))%Z = true /\
     validatedFocus scenario.1 w' 3 = Val 2%Z /\
     CurrentAsIndex scenario.1 w' = Some (Val 2%Z) /\
     CurrentAsModel plain_host scenario.1 w' = Some (Val (model_id 3))) /\
  (exists w0 w',
     observe (c_focus scenario.1) 9 scenario.2 = Some w0 /\
     add plain_host scenario.1 (model_id 3) w0 = Some (Returned w') /\
     trace w' = trace w0 ++ [EAddFunc (model_id 3); EChange (c_focus scenario.1) 9 (VNum 3)]).
Proof.
  split.
  - eexists. split; [vm_compute; reflexivity|]. vm_compute. repeat split; reflexivity.
  - eexists. eexists. split; [vm_compute; reflexivity|].
    split; [vm_compute; reflexivity|]. vm_compute. reflexivity.
Qed.

(** * Further properties of the engine *)

(** [reset], forced or not, on a node with an undefined dependency leaves
    the node exactly as it was and does not call its [getFunc]; only
    [getFunc]s of other nodes are called, and an undefined dependency that
    has no dependencies of its own is Updating afterwards. *)
Theorem reset_defers_to_undefined_dependencies (force : bool) (i : nat) (n : node)
    (w : world) (d : nat * nat) (o : node) :
  wf w ->
  nodes w !! i = Some n ->
  d ∈ p_dependencies n ->
  nodes w !! d.2 = Some o ->
  p_revision o = 0 ->
  exists w',
    reset force i w = Some w' /\
    nodes w' !! i = Some n /\
    gets i (trace w') = gets i (trace w) /\
    only_gets w w' /\
    (p_dependencies o = [] ->
     exists o', nodes w' !! d.2 = Some o' /\ p_isAsyncUpdating o' = true).
Proof.
  intros Hwf Hi Hd Ho Hrev.
  destruct (reset_total force i w) as [w' Hrun]; [by eapply lookup_lt_Some|done|].
  exists w'. split; [done|].
  pose proof (reset_fuel_step _ _ _ _ _ Hrun) as Hstep.
  pose proof (reset_fuel_only_gets _ _ _ _ _ Hrun) as Hgets.
  unfold reset in Hrun. simpl in Hrun. rewrite Hi in Hrun. simpl in Hrun.
  assert (d ∈ List.filter (dep_isUndefined w) (p_dependencies n)) as Hin.
  { apply list_elem_of_In, List.filter_In. split; [by apply list_elem_of_In|].
    unfold dep_isUndefined. rewrite Ho. unfold isUndefined. rewrite Hrev. done. }
  destruct (List.filter (dep_isUndefined w) (p_dependencies n)) as [|u us] eqn:Hf;
    [by apply elem_of_nil in Hin|].
  rewrite <- Hf in *. replace (0 <? length _) with true in Hrun
    by (rewrite Hf; done).
  assert (Forall (fun d : nat * nat => d.2 < i)
            (List.filter (dep_isUndefined w) (p_dependencies n))) as Hlt.
  { destruct (Hwf i n Hi) as [Hdeps _]. apply Forall_forall. intros e He.
    apply list_elem_of_In, List.filter_In in He as [He _]. apply list_elem_of_In in He.
    by apply (proj1 (Forall_forall _ _) Hdeps e). }
  assert (nodes w' !! i = Some n) as Hi'.
  { rewrite <- Hi. by apply (forEach_reset_above i
      (List.filter (dep_isUndefined w) (p_dependencies n)) i w w'). }
  split; [done|]. split.
  { destruct Hstep as [_ Hs]. destruct (Hs i n Hi) as (n' & Hn' & _ & Hg).
    assert (n' = n) as -> by congruence. lia. }
  split; [done|]. intros Hnodeps.
  destruct (forEach_split reset_step (fun d : nat * nat => reset_fuel i false d.2)
              (List.filter (dep_isUndefined w) (p_dependencies n)) d
              reset_step_refl reset_step_trans) with (w := w) (w' := w')
    as (wa & wb & Ha & Hcall & Hb); [|done|done|].
  { intros y w0 w1 _. apply reset_fuel_step. }
  destruct Ha as [_ Ha]. destruct (Ha _ _ Ho) as (oa & Hoa & Hra & _).
  assert (p_dependencies oa = []) as Hda.
  { destruct Hra as (_&_&_&Hsnd&_). rewrite Hnodeps in Hsnd.
    by destruct (p_dependencies oa). }
  assert (exists ob, nodes wb !! d.2 = Some ob /\ p_isAsyncUpdating ob = true)
    as (ob & Hob & Hub).
  { destruct i as [|i']; simpl in Hcall; [discriminate|].
    rewrite Hoa in Hcall. simpl in Hcall. rewrite Hda in Hcall. simpl in Hcall.
    pose proof (lookup_lt_Some _ _ _ Hoa) as Hlen.
    destruct (p_isAsyncUpdating oa) eqn:Hu; inversion Hcall; subst wb.
    - exists oa. split; [|done]. unfold put. simpl. by apply list_lookup_insert_eq.
    - eexists. split.
      + unfold emit, put. simpl. rewrite list_insert_insert_eq.
        by apply list_lookup_insert_eq.
      + done. }
  destruct Hb as [_ Hb]. destruct (Hb _ _ Hob) as (o' & Ho' & Hr' & _).
  exists o'. split; [done|].
  destruct Hr' as (_&_&_&_&_&_&_&_&[[Hu _]|(Hu&_)]); congruence.
Qed.

Lemma reset_defers_to_undefined_dependencies_witness :
  exists w', reset true 1 (new_Property zero_default false [0]
                             (new_Property zero_default false [] empty_world)) = Some w' /\
    revision_at 1 w' = Some 0 /\ updating_at 1 w' = Some false /\
    updating_at 0 w' = Some true.
Proof.
  set (w := new_Property zero_default false [0]
              (new_Property zero_default false [] empty_world)).
  assert (wf w) as Hwf.
  { intros i n Hi.
    do 2 (destruct i as [|i]; [inversion Hi; subst; simpl; split; repeat constructor|]).
    simpl in Hi. by rewrite lookup_nil in Hi. }
  destruct (reset_defers_to_undefined_dependencies true 1 _ w (0, 0) _ Hwf eq_refl
              (list_elem_of_here _ _) eq_refl eq_refl)
    as (w' & Hrun & Hn & _ & _ & Hdep).
  destruct (Hdep eq_refl) as (o' & Ho' & Hu).
  exists w'. split; [exact Hrun|]. unfold revision_at, updating_at.
  rewrite Hn. simpl in Ho'. rewrite Ho'. simpl. rewrite Hu. done.
Defined.

(** After a [reset] (forced or not) of a node that has dependencies, all
    of them Defined, none of them is dirty against the tracked revisions any
    more, whether or not a fetch was started; a non-forced [reset] right
    after it changes nothing. *)
Theorem reset_brings_tracked_revisions_up_to_date (force : bool) (i : nat) (n : node)
    (w w' : world) :
  wf w ->
  nodes w !! i = Some n ->
  p_dependencies n <> [] ->
  inputs_defined w n ->
  reset force i w = Some w' ->
  (exists n', nodes w' !! i = Some n' /\ clean w' n' /\
     map snd (p_dependencies n') = map snd (p_dependencies n)) /\
  reset false i w' = Some w'.
Proof.
  intros Hwf Hi Hne Hdef Hrun.
  rewrite (reset_inputs_defined _ _ _ _ Hi Hdef) in Hrun. inversion Hrun; subst w'; clear Hrun.
  pose proof (track_dirty_cleans w (p_dependencies n)) as Hclean.
  pose proof (track_dirty_snd w (p_dependencies n)) as Hsnd.
  pose proof (lookup_lt_Some _ _ _ Hi) as Hlen.
  destruct (Hwf i n Hi) as [Hlt _].
  assert (exists n',
    nodes (reset_here force i n w) !! i = Some n' /\
    p_dependencies n' = (track_dirty w (p_dependencies n)).1 /\
    forall k, k <> i -> nodes (reset_here force i n w) !! k = nodes w !! k)
    as (n' & Hi' & Hdeps' & Hother).
  { unfold reset_here. destruct (track_dirty w (p_dependencies n)) as [ds some]. simpl.
    destruct (p_dependencies n) as [|d0 ds0] eqn:Hds; [done|]. simpl.
    destruct (negb force && negb some); [|destruct (p_isAsyncUpdating n)];
      eexists; (split; [|split]);
      try (unfold emit, put; simpl; rewrite ?list_insert_insert_eq;
           by apply list_lookup_insert_eq);
      try done;
      intros k Hk; unfold emit, put; simpl; by rewrite !list_lookup_insert_ne. }
  assert (Forall (fun d : nat * nat => d.2 < i) (p_dependencies n')) as Hlt'.
  { apply Forall_forall. intros d Hd.
    assert (d.2 ∈ map snd (p_dependencies n)) as Hin
      by (rewrite <- Hsnd, <- Hdeps'; apply list_elem_of_fmap; by exists d).
    apply list_elem_of_fmap in Hin as (e & -> & He).
    by apply (proj1 (Forall_forall _ _) Hlt e). }
  assert (clean (reset_here force i n w) n') as Hclean'.
  { unfold clean. rewrite Hdeps'. rewrite Hdeps' in Hlt'.
    apply Forall_forall. intros d Hd o Ho.
    pose proof (proj1 (Forall_forall _ _) Hlt' d Hd) as Hdi. simpl in Hdi.
    rewrite Hother in Ho by lia.
    by apply (proj1 (Forall_forall _ _) Hclean d Hd). }
  assert (inputs_defined (reset_here force i n w) n') as Hdef'.
  { unfold inputs_defined. apply Forall_forall. intros d Hd.
    pose proof (proj1 (Forall_forall _ _) Hlt' d Hd) as Hdi. simpl in Hdi.
    assert (d.2 ∈ map snd (p_dependencies n)) as Hin
      by (rewrite <- Hsnd, <- Hdeps'; apply list_elem_of_fmap; by exists d).
    apply list_elem_of_fmap in Hin as (e & Heq & He).
    destruct (proj1 (Forall_forall _ _) Hdef e He) as (o & Ho & Hrev).
    exists o. rewrite Hother by lia. rewrite Heq. done. }
  split.
  - exists n'. split; [done|]. split; [done|]. by rewrite Hdeps'.
  - apply (reset_clean_noop i n'); [done| |done|done].
    intros Hnil. rewrite Hdeps' in Hnil.
    rewrite Hnil in Hsnd. simpl in Hsnd. by destruct (p_dependencies n).
Qed.

Lemma reset_brings_tracked_revisions_up_to_date_witness :
  exists w', reset true 1 w_tracked = Some w' /\ reset false 1 w' = Some w'.
Proof.
  assert (wf w_tracked) as Hwf.
  { intros i n Hi.
    do 2 (destruct i as [|i]; [inversion Hi; subst; simpl; split; repeat constructor|]).
    simpl in Hi. by rewrite lookup_nil in Hi. }
  eexists. split; [reflexivity|].
  eapply (reset_brings_tracked_revisions_up_to_date true 1 _ w_tracked _ Hwf eq_refl).
  - simpl. discriminate.
  - repeat constructor. eexists. split; [reflexivity|]. simpl. lia.
  - reflexivity.
Defined.

(** A [set] that returns has called, in this order: [setFunc] with the new
    value, once, unless the node is Updating (then not at all); every
    change handler with the new value; and after that only [getFunc]s, none
    of them its own.  The node holds the new value at the next revision. *)
Theorem set_calls_setFunc_then_handlers_then_gets (H : host) (i : nat) (v : jsval)
    (byRef : bool) (w w' : world) (n : node) :
  wf w ->
  nodes w !! i = Some n ->
  set H i v byRef w = Some (Returned w') ->
  exists v' gs,
    set_value H (p_value n) v byRef = Some v' /\
    nodes w' !! i = Some (set_state v' (S (p_revision n)) (p_default_calls n) n) /\
    trace w' = trace w
      ++ (if p_isAsyncUpdating n then [] else [ESetFunc i (default v' (asModel H v'))])
      ++ map (fun h => EChange i h v') (p_changeHandlers n)
      ++ map EGet gs /\
    i ∉ gs.
Proof. apply set_calls. Qed.

Lemma set_calls_setFunc_then_handlers_then_gets_witness :
  exists w' gs,
    set plain_host 0 (VNum 9) false w_tracked = Some (Returned w') /\
    trace w' = trace w_tracked ++ [ESetFunc 0 (VNum 9)] ++ [] ++ map EGet gs /\ 0 ∉ gs.
Proof.
  assert (wf w_tracked) as Hwf.
  { intros i n Hi.
    do 2 (destruct i as [|i]; [inversion Hi; subst; simpl; split; repeat constructor|]).
    simpl in Hi. by rewrite lookup_nil in Hi. }
  eexists. 
  destruct (set_calls_setFunc_then_handlers_then_gets plain_host 0 (VNum 9) false
              w_tracked _ _ Hwf eq_refl eq_refl) as (v' & gs & Hv & _ & Ht & Hgs).
  exists gs. split; [reflexivity|]. inversion Hv; subst v'. split; [exact Ht|exact Hgs].
Defined.

(** The invalidation cascade.  A [set] on D, whose only dependent P is not
    Updating, tracks a revision of D that is not ahead of D's, and has all
    its other dependencies Defined: the call fetches P, once; P is Updating
    afterwards, tracks the new revision of D, and sees no dependency as
    dirty. *)
Theorem set_cascade_fetches_dependent (H : host) (D P : nat) (v : jsval) (byRef : bool)
    (w w' : world) (nD nP : node) (r : nat) :
  wf w ->
  nodes w !! D = Some nD ->
  nodes w !! P = Some nP ->
  p_dependents nD = [P] ->
  (r, D) ∈ p_dependencies nP ->
  r <= p_revision nD ->
  Forall (fun d : nat * nat =>
            d.2 = D \/ exists o, nodes w !! d.2 = Some o /\ 1 <= p_revision o)
         (p_dependencies nP) ->
  p_isAsyncUpdating nP = false ->
  set H D v byRef w = Some (Returned w') ->
  exists nP',
    nodes w' !! P = Some nP' /\
    p_isAsyncUpdating nP' = true /\
    p_pending nP' = S (p_pending nP) /\
    gets P (trace w') = S (gets P (trace w)) /\
    (S (p_revision nD), D) ∈ p_dependencies nP' /\
    clean w' nP'.
Proof.
  intros Hwf HD HP Hdeps Hr Hle Hin Hu Hset.
  assert (D < P) as HDP.
  { destruct (Hwf P nP HP) as [Hlt _].
    by apply (proj1 (Forall_forall _ _) Hlt (r, D)). }
  unfold set in Hset. rewrite HD in Hset. simpl in Hset.
  destruct (set_value H (p_value nD) v byRef) as [v'|]; [|discriminate].
  set (nD' := set_state v' (S (p_revision nD)) (p_default_calls nD) nD) in *.
  assert (forall t w3,
    forEach (reset false) (p_dependents nD)
      (_triggerChangeHandlers D {| nodes := committed D nD v' w; trace := t |}) = Some w3 ->
    gets P t = gets P (trace w) ->
    exists nP', nodes w3 !! P = Some nP' /\ p_isAsyncUpdating nP' = true /\
      p_pending nP' = S (p_pending nP) /\ gets P (trace w3) = S (gets P (trace w)) /\
      (S (p_revision nD), D) ∈ p_dependencies nP' /\ clean w3 nP') as Hcas.
  { intros t w3 Hrun Ht. rewrite Hdeps in Hrun. simpl in Hrun.
    set (w2 := _triggerChangeHandlers D {| nodes := committed D nD v' w; trace := t |}) in *.
    assert (nodes w2 = committed D nD v' w) as Hn2 by apply triggerChangeHandlers_nodes.
    assert (nodes w2 !! D = Some nD') as HD2.
    { rewrite Hn2. unfold committed. apply list_lookup_insert_eq. by eapply lookup_lt_Some. }
    assert (forall k, k <> D -> nodes w2 !! k = nodes w !! k) as Hother.
    { intros k Hk. rewrite Hn2. unfold committed. by apply list_lookup_insert_ne. }
    assert (nodes w2 !! P = Some nP) as HP2 by (rewrite Hother by lia; done).
    assert (inputs_defined w2 nP) as Hdef.
    { unfold inputs_defined. eapply Forall_impl; [exact Hin|].
      intros d [Hd|(o & Ho & Hrev)].
      - exists nD'. rewrite Hd. split; [done|]. simpl. lia.
      - destruct (decide (d.2 = D)) as [Hd|Hd].
        + exists nD'. rewrite Hd. split; [done|]. simpl. lia.
        + exists o. by rewrite Hother. }
    assert (isDirty nD' r = true) as Hdirty.
    { unfold isDirty. simpl. apply Nat.ltb_lt. lia. }
    rewrite (reset_dirty_fetches P nP w2 (r, D) nD' HP2 Hdef Hr HD2 Hdirty Hu) in Hrun.
    simpl in Hrun. inversion Hrun; subst w3; clear Hrun.
    pose proof (lookup_lt_Some _ _ _ HP2) as HlenP.
    eexists. split; [simpl; by apply list_lookup_insert_eq|].
    split; [done|]. split; [done|]. split.
    { simpl. rewrite gets_app. unfold gets at 2. simpl. rewrite Nat.eqb_refl. simpl.
      unfold w2. rewrite gets_triggerChangeHandlers. simpl. lia. }
    split.
    { simpl. apply (track_dirty_updates w2 _ (r, D) nD'); done. }
    unfold clean. simpl. apply Forall_forall. intros d Hd o Ho.
    pose proof (track_dirty_cleans w2 (p_dependencies nP)) as Hclean.
    apply (proj1 (Forall_forall _ _) Hclean d Hd).
    rewrite list_lookup_insert_ne in Ho; [done|].
    assert (d.2 ∈ map snd (p_dependencies nP)) as Hd2.
    { rewrite <- (track_dirty_snd w2). apply list_elem_of_fmap. by exists d. }
    apply list_elem_of_fmap in Hd2 as (e & Heq & He).
    destruct (Hwf P nP HP) as [Hlt _].
    pose proof (proj1 (Forall_forall _ _) Hlt e He) as Helt. simpl in Helt. lia. }
  simpl in Hset. destruct (p_isAsyncUpdating nD).
  - unfold put in Hset. fold (committed D nD v' w) in Hset.
    destruct (forEach _ _ _) as [w3|] eqn:Hrun; simpl in Hset; [|discriminate].
    inversion Hset; subst w3. by apply (Hcas _ _ Hrun).
  - destruct (nullish v'); [discriminate|].
    unfold emit, put in Hset. simpl in Hset. fold (committed D nD v' w) in Hset.
    destruct (forEach _ _ _) as [w3|] eqn:Hrun; simpl in Hset; [|discriminate].
    inversion Hset; subst w3. apply (Hcas _ _ Hrun).
    rewrite gets_app. unfold gets at 2. simpl. lia.
Qed.

Lemma set_cascade_fetches_dependent_witness :
  exists w' nP',
    set plain_host 0 (VNum 9) false w_tracked = Some (Returned w') /\
    nodes w' !! 1 = Some nP' /\ p_isAsyncUpdating nP' = true /\
    gets 1 (trace w') = 1 /\ (2, 0) ∈ p_dependencies nP'.
Proof.
  assert (wf w_tracked) as Hwf.
  { intros i n Hi.
    do 2 (destruct i as [|i]; [inversion Hi; subst; simpl; split; repeat constructor|]).
    simpl in Hi. by rewrite lookup_nil in Hi. }
  assert (exists w', set plain_host 0 (VNum 9) false w_tracked = Some (Returned w'))
    as [w' Hset] by (eexists; reflexivity).
  destruct (set_cascade_fetches_dependent plain_host 0 1 (VNum 9) false w_tracked w' _ _ 1
              Hwf eq_refl eq_refl eq_refl (list_elem_of_here _ _))
    as (nP' & HP' & Hu & _ & Hg & Hin & _);
    [simpl; lia|repeat constructor; by left|reflexivity|exact Hset|].
  exists w', nP'. split; [exact Hset|]. split; [exact HP'|]. split; [exact Hu|].
  split; [exact Hg|exact Hin].
Defined.

(** Lazy activation.  [observe] on an Undefined node without dependencies
    and without a fetch in flight calls [getFunc] once and no handler; when
    that promise resolves with a truthy primitive, the value is committed
    at revision 1, the Updating flag is cleared, every handler (the new one
    included) is called with the value, and [setFunc] is not called: the
    fetched value is not echoed. *)
Theorem observe_then_resolve (H : host) (exn : jsval) (i h : nat) (v : jsval)
    (w : world) (n : node) :
  wf w ->
  nodes w !! i = Some n ->
  p_revision n = 0 ->
  p_dependencies n = [] ->
  p_isAsyncUpdating n = false ->
  p_pending n = 0 ->
  truthy v = true ->
  is_object v = false ->
  exists w1 w2 gs,
    observe i h w = Some w1 /\
    trace w1 = trace w ++ [EGet i] /\
    updating_at i w1 = Some true /\
    revision_at i w1 = Some 0 /\
    run H (OpSettle exn i (Resolved v)) w1 = Some w2 /\
    value_at i w2 = Some v /\
    revision_at i w2 = Some 1 /\
    updating_at i w2 = Some false /\
    trace w2 = trace w1
      ++ map (fun h' => EChange i h' v) (set_add h (p_changeHandlers n))
      ++ map EGet gs /\
    i ∉ gs.
Proof.
  intros Hwf Hi Hrev Hdeps Hu Hp Htruthy Hobj.
  pose proof (lookup_lt_Some _ _ _ Hi) as Hlen.
  set (n1 := set_changeHandlers (set_add h (p_changeHandlers n)) n).
  set (n2 := set_updating true 1 n1).
  set (w1 := {| nodes := <[i := n2]> (nodes w); trace := trace w ++ [EGet i] |}).
  assert (observe i h w = Some w1) as Hobs.
  { unfold observe. rewrite Hi. simpl. unfold isUndefined. simpl. rewrite Hrev. simpl.
    rewrite (reset_inputs_defined false i n1).
    - unfold reset_here. simpl. rewrite Hdeps. simpl. rewrite Hu, Hp.
      unfold emit, put. simpl. by rewrite !list_insert_insert_eq.
    - unfold put. simpl. by apply list_lookup_insert_eq.
    - unfold inputs_defined. simpl. rewrite Hdeps. constructor. }
  assert (nodes w1 !! i = Some n2) as Hi1 by (simpl; by apply list_lookup_insert_eq).
  set (n0 := set_updating true 0 n2).
  set (w0 := put i n0 w1).
  assert (nodes w0 !! i = Some n0) as Hi0.
  { unfold w0, put. simpl. apply list_lookup_insert_eq. by rewrite length_insert. }
  assert (wf w0) as Hwf0.
  { eapply same_shape_wf; [|exact Hwf]. unfold w0, w1, put. simpl.
    rewrite list_insert_insert_eq.
    apply (put_same_shape i n n0 w Hi); done. }
  assert (set_value H (p_value n0) v false = Some v) as Hv.
  { unfold set_value. by rewrite Hobj. }
  destruct (set_returns H i v false w0 n0 v Hwf0 Hi0 Hv (or_introl eq_refl)) as [w3 Hset].
  destruct (set_calls H i v false w0 w3 n0 Hwf0 Hi0 Hset) as (v' & gs & Hv' & Hi3 & Ht3 & Hgs).
  assert (v' = v) as -> by congruence.
  exists w1, (finally i w3), gs.
  split; [done|]. split; [done|].
  split; [unfold updating_at; by rewrite Hi1|].
  split; [unfold revision_at; rewrite Hi1; simpl; by rewrite Hrev|].
  split.
  { change (run H (OpSettle exn i (Resolved v)) w1)
      with (n' ← nodes w1 !! i;
            if 0 <? p_pending n' then settle H exn i (Resolved v) w1 else None).
    rewrite Hi1.
    change (settle H exn i (Resolved v) w1 = Some (finally i w3)).
    rewrite (settle_committed H exn i v w1 n2 Hi1) by (by rewrite Htruthy).
    change (put i (set_updating (p_isAsyncUpdating n2) (Nat.pred (p_pending n2)) n2) w1)
      with w0.
    rewrite Hset. done. }
  assert (nodes (finally i w3) !! i
          = Some (set_updating false 0 (set_state v 1 (p_default_calls n) n0))) as Hfin.
  { unfold finally. rewrite Hi3. unfold put. simpl.
    rewrite list_lookup_insert_eq by (by eapply lookup_lt_Some). by rewrite Hrev. }
  split; [unfold value_at; by rewrite Hfin|].
  split; [unfold revision_at; by rewrite Hfin|].
  split; [unfold updating_at; by rewrite Hfin|].
  split; [|done].
  unfold finally. rewrite Hi3. unfold put. simpl. rewrite Ht3. done.
Qed.

Lemma observe_then_resolve_witness :
  exists w2,
    run_all plain_host [OpObserve 0 5; OpSettle VUndefined 0 (Resolved (VNum 4))]
      (new_Property zero_default false [] empty_world) = Some w2 /\
    value_at 0 w2 = Some (VNum 4) /\ revision_at 0 w2 = Some 1 /\
    exists gs, trace w2 = ([] ++ [EGet 0]) ++ [EChange 0 5 (VNum 4)] ++ map EGet gs.
Proof.
  set (w := new_Property zero_default false [] empty_world).
  assert (wf w) as Hwf.
  { intros i n Hi. destruct i as [|i]; [inversion Hi; subst; simpl; split; constructor|].
    simpl in Hi. by rewrite lookup_nil in Hi. }
  destruct (observe_then_resolve plain_host VUndefined 0 5 (VNum 4) w _ Hwf eq_refl
              eq_refl eq_refl eq_refl eq_refl eq_refl eq_refl)
    as (w1 & w2 & gs & Hobs & Ht1 & _ & _ & Hrun & Hval & Hrev & _ & Ht2 & _).
  exists w2. split.
  - change (observe 0 5 w
            ≫= (fun w' => run plain_host (OpSettle VUndefined 0 (Resolved (VNum 4))) w'
                           ≫= Some) = Some w2).
    rewrite Hobs.
    change (run plain_host (OpSettle VUndefined 0 (Resolved (VNum 4))) w1 ≫= Some = Some w2).
    rewrite Hrun. reflexivity.
  - split; [exact Hval|]. split; [exact Hrev|]. exists gs. rewrite Ht2, Ht1. reflexivity.
Defined.

(** A node built on dependencies that are already Defined tracks their
    current revisions, so it sees none of them as dirty: the first
    [observe] on it registers the handler and does nothing else.  No
    [getFunc] and no handler is called, and the node stays Undefined. *)
Theorem observe_fresh_dependent_is_idle (default_ : nat -> jsval) (cached : bool)
    (ds : list nat) (h : nat) (w : world) :
  ds <> [] ->
  Forall (fun d => exists o, nodes w !! d = Some o /\ 1 <= p_revision o) ds ->
  exists w2 n2,
    observe (length (nodes w)) h (new_Property default_ cached ds w) = Some w2 /\
    trace w2 = trace w /\
    nodes w2 !! length (nodes w) = Some n2 /\
    p_changeHandlers n2 = [h] /\
    p_revision n2 = 0 /\
    p_isAsyncUpdating n2 = false /\
    p_value n2 = default_ 0.
Proof.
  intros Hne Hdef.
  assert (forallb (fun d => d <? length (nodes w)) ds = true) as Hds.
  { apply forallb_forall. intros d Hd. apply list_elem_of_In in Hd.
    destruct (proj1 (Forall_forall _ _) Hdef d Hd) as (o & Ho & _).
    apply Nat.ltb_lt. by eapply lookup_lt_Some. }
  pose proof (new_Property_new_node default_ cached ds w Hds) as Hnew.
  set (w1 := new_Property default_ cached ds w) in *.
  set (this := length (nodes w)) in *.
  match type of Hnew with _ = Some ?x => set (n := x) in * end.
  set (n1 := set_changeHandlers (set_add h (p_changeHandlers n)) n).
  assert (nodes (put this n1 w1) !! this = Some n1) as Hthis.
  { unfold put. simpl. apply list_lookup_insert_eq. by eapply lookup_lt_Some. }
  assert (forall d o, d ∈ ds -> nodes w !! d = Some o ->
            exists o', nodes (put this n1 w1) !! d = Some o' /\
                       p_revision o' = p_revision o) as Hold.
  { intros d o Hd Ho.
    destruct (new_Property_old default_ cached ds w d o Ho) as (o' & Ho' & Hr).
    exists o'. split; [|by destruct Hr].
    unfold put. simpl. rewrite list_lookup_insert_ne; [done|].
    apply lookup_lt_Some in Ho. unfold this. lia. }
  exists (put this n1 w1), n1.
  split; [|split; [done|split; [done|done]]].
  unfold observe. rewrite Hnew. simpl. fold n1.
  apply (reset_clean_noop this n1); [done| | |].
  - simpl. by destruct ds.
  - unfold inputs_defined. simpl. apply Forall_forall. intros e He.
    apply list_elem_of_fmap in He as (d & -> & Hd). simpl.
    destruct (proj1 (Forall_forall _ _) Hdef d Hd) as (o & Ho & Hrev).
    destruct (Hold d o Hd Ho) as (o' & Ho' & Hr'). exists o'. split; [done|lia].
  - unfold clean. simpl. apply Forall_forall. intros e He o' Ho'.
    apply list_elem_of_fmap in He as (d & -> & Hd). simpl in *.
    destruct (proj1 (Forall_forall _ _) Hdef d Hd) as (o & Ho & Hrev).
    destruct (Hold d o Hd Ho) as (o'' & Ho'' & Hr'').
    assert (o'' = o') as -> by congruence.
    rewrite Ho. simpl. unfold isDirty. rewrite Hr''. apply Nat.ltb_irrefl.
Qed.

Lemma observe_fresh_dependent_is_idle_witness :
  exists w2 n2,
    observe 1 3 (new_Property zero_default false [0] w_defined) = Some w2 /\
    trace w2 = trace w_defined /\ nodes w2 !! 1 = Some n2 /\
    p_revision n2 = 0 /\ p_isAsyncUpdating n2 = false.
Proof.
  destruct (observe_fresh_dependent_is_idle zero_default false [0] 3 w_defined)
    as (w2 & n2 & Hobs & Ht & Hn & _ & Hr & Hu & _).
  - discriminate.
  - repeat constructor. eexists. split; [reflexivity|]. simpl. lia.
  - exists w2, n2. split; [exact Hobs|]. split; [exact Ht|]. split; [exact Hn|].
    split; [exact Hr|exact Hu].
Defined.

(** [_reinit] of a Defined node returns with the node and every dependent
    of it Undefined (revision 0).  The node ends as [reinit_node] makes it:
    unless it is cached, its default generator has been called once more
    and its value is the result of that call.  No getFunc, setFunc, change
    handler or console function is called: the trace is as it was.  A
    second [_reinit] changes nothing, and calls no default generator. *)
Theorem reinit_cascades_to_dependents (i : nat) (n : node) (w : world) :
  wf w ->
  nodes w !! i = Some n ->
  1 <= p_revision n ->
  exists w',
    _reinit i w = Some w' /\
    revision_at i w' = Some 0 /\
    (forall d, d ∈ p_dependents n -> revision_at d w' = Some 0) /\
    trace w' = trace w /\
    _reinit i w' = Some w' /\
    nodes w' !! i = Some (reinit_node n) /\
    p_default_calls (reinit_node n)
      = (if p_cached n then p_default_calls n else S (p_default_calls n)) /\
    p_value (reinit_node n)
      = (if p_cached n then p_value n else p_default n (p_default_calls n)).
Proof.
  intros Hwf Hi Hrev.
  pose proof (lookup_lt_Some _ _ _ Hi) as Hlen.
  destruct (reinit_spec i w n Hwf Hi) as (w' & Hrun & Hi').
  assert ((0 <? p_revision n) = true) as Hpos by (by apply Nat.ltb_lt).
  rewrite Hpos in Hi'.
  destruct (reinit_fuel_frame _ _ _ _ Hwf Hrun) as [(Hl & Ht & _) _].
  exists w'. split; [done|]. split; [unfold revision_at; by rewrite Hi'|].
  split; [|split; [done|split; [|split; [done|]]]].
  - intros d Hd. unfold _reinit in Hrun.
    destruct (length (nodes w) - i) as [|fuel] eqn:Hfuel; [lia|].
    simpl in Hrun. rewrite Hi in Hrun. simpl in Hrun. rewrite Hpos in Hrun.
    destruct (forEach (_reinit_fuel fuel) (p_dependents n) w) as [w1|] eqn:Hdeps;
      simpl in Hrun; [|discriminate].
    destruct (nodes w1 !! i) as [n1|] eqn:Hi1; simpl in Hrun; [|discriminate].
    inversion Hrun; subst w'.
    destruct (Hwf i n Hi) as [_ Hgt].
    assert (i < d < length (nodes w)) as Hd' by (by apply (proj1 (Forall_forall _ _) Hgt d)).
    set (R := fun a b : world => wf a -> wf b /\ reinit_step a b).
    destruct (forEach_split R (_reinit_fuel fuel) (p_dependents n) d) with (w := w) (w' := w1)
      as (wa & wb & Ha & Hcall & Hb); [| | |done|done|].
    { intros a Ha. split; [done|apply reinit_step_refl]. }
    { intros a b c Hab Hbc Ha. destruct (Hab Ha) as [Hwb Hsb].
      destruct (Hbc Hwb) as [Hwc Hsc]. split; [done|by eapply reinit_step_trans]. }
    { intros y w0 w2 _ Hy Hw0. destruct (reinit_fuel_frame _ _ _ _ Hw0 Hy) as [Hs _].
      split; [|done]. eapply same_shape_wf; [by apply reinit_step_shape|done]. }
    destruct (Ha Hwf) as [Hwfa (Hla & _ & _)].
    destruct (lookup_lt_is_Some_2 (nodes wa) d) as [m Hm]; [lia|].
    destruct (reinit_fuel_zero_revision fuel d wa wb m Hwfa Hm) as (m' & Hm' & Hz);
      [lia|done|].
    assert (wf wb) as Hwfb.
    { destruct (reinit_fuel_frame _ _ _ _ Hwfa Hcall) as [Hs _].
      eapply same_shape_wf; [by apply reinit_step_shape|done]. }
    destruct (Hb Hwfb) as [_ Hsb].
    destruct (reinit_step_revision wb w1 d m' Hsb Hm') as (m'' & Hm'' & Hz'').
    unfold revision_at, put. simpl. rewrite list_lookup_insert_ne by lia.
    rewrite Hm''. simpl. f_equal. lia.
  - unfold _reinit. rewrite Hl.
    destruct (length (nodes w) - i) as [|fuel] eqn:Hfuel; [lia|].
    simpl. rewrite Hi'. done.
  - unfold reinit_node. simpl. by destruct (p_cached n).
Qed.

Lemma reinit_cascades_to_dependents_witness :
  exists w' n', _reinit 0 w_tracked = Some w' /\ revision_at 0 w' = Some 0 /\
    revision_at 1 w' = Some 0 /\ trace w' = trace w_tracked /\
    nodes w' !! 0 = Some n' /\ p_default_calls n' = 2 /\ p_value n' = VNum 0.
Proof.
  assert (wf w_tracked) as Hwf.
  { intros i n Hi.
    do 2 (destruct i as [|i]; [inversion Hi; subst; simpl; split; repeat constructor|]).
    simpl in Hi. by rewrite lookup_nil in Hi. }
  destruct (reinit_cascades_to_dependents 0 _ w_tracked Hwf eq_refl)
    as (w' & Hrun & H0 & H1 & Ht & _ & Hn & Hcalls & Hv); [simpl; lia|].
  exists w'. eexists. split; [exact Hrun|]. split; [exact H0|].
  split; [apply H1; simpl; by left|]. split; [exact Ht|]. split; [exact Hn|].
  split; [exact Hcalls|exact Hv].
Defined.

(** [dispose] takes the node out of the dependents of each of its
    dependencies and changes nothing else: the other dependents stay, the
    node itself keeps its dependencies and its own dependents, and nothing
    is called. *)
Theorem dispose_unregisters (i : nat) (n : node) (w : world) :
  wf w ->
  nodes w !! i = Some n ->
  trace (dispose i w) = trace w /\
  nodes (dispose i w) !! i = Some n /\
  (forall k o, nodes w !! k = Some o -> k ∉ map snd (p_dependencies n) ->
     nodes (dispose i w) !! k = Some o) /\
  (forall k o, nodes w !! k = Some o -> k ∈ map snd (p_dependencies n) ->
     exists o', nodes (dispose i w) !! k = Some o' /\
       (i ∉ p_dependents o') /\
       (forall x, x <> i -> (x ∈ p_dependents o' <-> x ∈ p_dependents o)) /\
       set_dependents (p_dependents o) o' = o).
Proof.
  intros Hwf Hi. unfold dispose. rewrite Hi. simpl.
  assert (i ∉ map snd (p_dependencies n)) as Hself.
  { intros Hin. apply list_elem_of_fmap in Hin as (d & Heq & Hd).
    destruct (Hwf i n Hi) as [Hlt _].
    pose proof (proj1 (Forall_forall _ _) Hlt d Hd) as Hdi. simpl in Hdi. lia. }
  split; [done|]. split; [|split].
  - rewrite (removeDependent_fold_lookup i _ _ i n Hi).
    by destruct (decide (i ∈ map snd (p_dependencies n))).
  - intros k o Hk Hnot. rewrite (removeDependent_fold_lookup i _ _ k o Hk).
    by destruct (decide (k ∈ map snd (p_dependencies n))).
  - intros k o Hk Hin. rewrite (removeDependent_fold_lookup i _ _ k o Hk).
    destruct (decide (k ∈ map snd (p_dependencies n))); [|done].
    eexists. split; [done|]. simpl. split; [|split].
    + rewrite set_delete_elem. tauto.
    + intros x Hx. rewrite set_delete_elem. tauto.
    + by destruct o.
Qed.

Lemma dispose_unregisters_witness :
  exists o', nodes (dispose 1 w_tracked) !! 0 = Some o' /\ 1 ∉ p_dependents o'.
Proof.
  assert (wf w_tracked) as Hwf.
  { intros i n Hi.
    do 2 (destruct i as [|i]; [inversion Hi; subst; simpl; split; repeat constructor|]).
    simpl in Hi. by rewrite lookup_nil in Hi. }
  destruct (dispose_unregisters 1 _ w_tracked Hwf eq_refl) as (_ & _ & _ & Hdep).
  destruct (Hdep 0 _ eq_refl) as (o' & Ho' & Hnot & _); [simpl; by left|].
  exists o'. split; [exact Ho'|exact Hnot].
Defined.

(** Construction and disposal are inverse on the rest of the graph: after
    [new Property] with any dependencies and [dispose] of that node, every
    older node is exactly what it was before the construction. *)
Theorem dispose_undoes_registration (default_ : nat -> jsval) (cached : bool)
    (ds : list nat) (w : world) (k : nat) :
  wf w ->
  forallb (fun d => d <? length (nodes w)) ds = true ->
  k < length (nodes w) ->
  nodes (dispose (length (nodes w)) (new_Property default_ cached ds w)) !! k
    = nodes w !! k.
Proof.
  intros Hwf Hds Hk.
  destruct (lookup_lt_is_Some_2 _ _ Hk) as [o Ho].
  unfold dispose. rewrite (new_Property_new_node default_ cached ds w Hds). simpl.
  set (this := length (nodes w)).
  assert (map snd (map (fun d => (from_option p_revision 0 (nodes w !! d), d)) ds) = ds)
    as Hsnd by (clear; induction ds as [|d ds IH]; simpl; [done|by rewrite IH]).
  assert ((nodes w ++ [{| p_revision := 0; p_dependents := [];
              p_dependencies :=
                map (fun d => (from_option p_revision 0 (nodes w !! d), d)) ds;
              p_changeHandlers := [];
              p_default := default_; p_default_calls := 1;
              p_value := default_ 0; p_cached := cached;
              p_isAsyncUpdating := false; p_pending := 0 |}]) !! k = Some o) as Hk1
    by (by apply lookup_app_l_Some).
  rewrite (removeDependent_fold_lookup this _ _ k _
             (addDependent_fold_lookup this ds _ k o Hk1)).
  rewrite Hsnd, Ho. f_equal.
  destruct (decide (k ∈ ds)); [|done]. simpl.
  rewrite set_delete_add; [by destruct o|].
  intros Hin. destruct (Hwf k o Ho) as [_ Hdep].
  pose proof (proj1 (Forall_forall _ _) Hdep _ Hin) as Hlt. simpl in Hlt.
  unfold this in Hlt. lia.
Qed.

Lemma dispose_undoes_registration_witness :
  nodes (dispose 1 (new_Property zero_default false [0] w_defined)) !! 0
    = nodes w_defined !! 0.
Proof.
  apply (dispose_undoes_registration zero_default false [0] w_defined 0).
  - intros i n Hi. destruct i as [|i]; [inversion Hi; subst; simpl; split; constructor|].
    simpl in Hi. by rewrite lookup_nil in Hi.
  - reflexivity.
  - simpl. lia.
Defined.

(** [findIndex(p)] and [find(p)] agree: when no model raises, [findIndex]
    returns -1 and [find] returns [undefined] exactly when no model passes
    [p]; otherwise [findIndex] returns the first index whose model passes,
    every model before it fails, and [find] returns the model at that
    index. *)
Theorem find_agrees_with_findIndex (H : host) (c : collection) (p : jsval -> bool)
    (w : world) (z : Z) :
  findIndex H c p w = Some z ->
  (z = (-1)%Z /\ find H c p w = Some VUndefined /\
   Forall (fun x => exists m, property_model H w x = Some m /\ p m = false)
          (items_value c w)) \/
  (exists j x m,
     z = Z.of_nat j /\ items_value c w !! j = Some x /\
     property_model H w x = Some m /\ p m = true /\
     find H c p w = Some m /\
     Forall (fun y => exists m', property_model H w y = Some m' /\ p m' = false)
            (take j (items_value c w))).
Proof.
  unfold findIndex, find. intros Hrun.
  destruct (first_match _ (items_value c w) 0) as [r|] eqn:Hfirst; simpl in *; [|discriminate].
  inversion Hrun; subst z; clear Hrun.
  assert (forall x b, p <$> property_model H w x = Some b ->
            exists m, property_model H w x = Some m /\ p m = b) as Hfmap.
  { intros x b Hx. destruct (property_model H w x) as [m|]; [|discriminate].
    exists m. split; [done|]. simpl in Hx. congruence. }
  destruct (first_match_spec _ _ _ _ Hfirst) as [[-> Hall]|(j & x & -> & Hj & Hx & Hbefore)].
  - left. split; [done|]. split; [done|]. eapply Forall_impl; [exact Hall|].
    intros x Hx. by apply Hfmap.
  - right. destruct (Hfmap x true Hx) as (m & Hm & Hp).
    exists j, x, m. split; [done|]. split; [done|]. split; [done|]. split; [done|].
    split; [simpl; rewrite Hj; simpl; done|].
    eapply Forall_impl; [exact Hbefore|]. intros y Hy. by apply Hfmap.
Qed.

Lemma find_agrees_with_findIndex_witness :
  findIndex plain_host three.1 (has_id 2) three.2 = Some 1%Z /\
  find plain_host three.1 (has_id 2) three.2 = Some (model_id 2).
Proof.
  destruct (find_agrees_with_findIndex plain_host three.1 (has_id 2) three.2 1 eq_refl)
    as [[Hz _]|(j & x & m & Hz & Hj & Hm & Hp & Hfind & _)]; [discriminate|].
  split; [reflexivity|].
  assert (j = 1) as -> by lia. simpl in Hj. inversion Hj; subst x.
  simpl in Hm. inversion Hm; subst m. exact Hfind.
Defined.

(** [SetCurrentByIndex] always leaves a focus that [validatedFocus] accepts
    as it is: the index when it is within the collection, -1 otherwise.  It
    returns, and [CurrentAsIndex] after it never raises and never clamps. *)
Theorem SetCurrentByIndex_leaves_valid_focus (H : host) (c : collection) (index : Z)
    (w : world) (nF : node) :
  wf w ->
  nodes w !! c_focus c = Some nF ->
  c_focus c <> c_items c ->
  exists w',
    SetCurrentByIndex H c index w = Some (Returned w') /\
    items_value c w' = items_value c w /\
    focus_value c w' =
      Some (if (0 <=? index)%Z && (index <? Z.of_nat (size c w))%Z
            then index else (-1)%Z) /\
    CurrentAsIndex c w' = Some (Val (if (0 <=? index)%Z && (index <? Z.of_nat (size c w))%Z
                                     then index else (-1)%Z)).
Proof.
  intros Hwf HF Hne. unfold SetCurrentByIndex. rewrite Z.geb_leb.
  set (z := if (0 <=? index)%Z && (index <? Z.of_nat (size c w))%Z then index else (-1)%Z).
  destruct (focus_assign H c z w nF Hwf HF) as (w' & Hset & _ & Hkept & Hfocus).
  exists w'. split; [|split; [|split]].
  - unfold z in Hset. by destruct ((0 <=? index)%Z && (index <? Z.of_nat (size c w))%Z).
  - by apply (values_kept_items (c_focus c)).
  - done.
  - unfold CurrentAsIndex. rewrite Hfocus. simpl. f_equal.
    apply validatedFocus_in_range.
    rewrite (values_kept_size (c_focus c) c w w') by done.
    unfold z. destruct (Z.leb_spec 0 index), (Z.ltb_spec index (Z.of_nat (size c w)));
      simpl; lia.
Qed.

Lemma SetCurrentByIndex_leaves_valid_focus_witness :
  exists w',
    SetCurrentByIndex plain_host three.1 7 three.2 = Some (Returned w') /\
    CurrentAsIndex three.1 w' = Some (Val (-1)%Z).
Proof.
  assert (wf three.2) as Hwf.
  { intros i n Hi.
    do 9 (destruct i as [|i]; [inversion Hi; subst; simpl; split; constructor|]).
    simpl in Hi. by rewrite lookup_nil in Hi. }
  destruct (SetCurrentByIndex_leaves_valid_focus plain_host three.1 7 three.2 _ Hwf eq_refl)
    as (w' & Hrun & _ & _ & Hidx); [simpl; discriminate|].
  exists w'. split; [exact Hrun|exact Hidx].
Defined.

(** [SetCurrentByProperty] followed by [CurrentAsProperty] gives back the
    property when it is an element of the collection, and [null] (no
    selection) when it is not. *)
Theorem SetCurrentByProperty_selects (H : host) (c : collection) (p : nat)
    (w : world) (nF : node) :
  wf w ->
  nodes w !! c_focus c = Some nF ->
  c_focus c <> c_items c ->
  exists w',
    SetCurrentByProperty H c p w = Some (Returned w') /\
    items_value c w' = items_value c w /\
    CurrentAsProperty c w' =
      Some (Val (if existsb (same_property p) (items_value c w) then VRef p else VNull)).
Proof.
  intros Hwf HF Hne. unfold SetCurrentByProperty.
  destruct (first_match (fun x => Some (same_property p x)) (items_value c w) 0)
    as [r|] eqn:Hfirst.
  2:{ exfalso. clear -Hfirst. revert Hfirst. generalize 0.
      induction (items_value c w) as [|x l IH]; intros i0; simpl; [done|].
      destruct (same_property p x); [done|apply IH]. }
  simpl.
  destruct (focus_assign H c (index_or_minus_one r) w nF Hwf HF)
    as (w' & Hset & _ & Hkept & Hfocus).
  pose proof (values_kept_items (c_focus c) c w w' Hkept (not_eq_sym Hne)) as Hitems.
  pose proof (values_kept_size (c_focus c) c w w' Hkept (not_eq_sym Hne)) as Hsize.
  exists w'. split; [done|]. split; [done|].
  unfold CurrentAsProperty. rewrite Hfocus. simpl.
  destruct (first_match_spec _ _ _ _ Hfirst) as [[-> Hall]|(j & x & -> & Hj & Hx & _)].
  - simpl. rewrite validatedFocus_in_range by lia. simpl.
    replace (existsb (same_property p) (items_value c w)) with false; [done|].
    symmetry. apply not_true_is_false. intros He. apply existsb_exists in He as (x & Hx & Hsame).
    apply list_elem_of_In in Hx. pose proof (proj1 (Forall_forall _ _) Hall x Hx) as Hf.
    simpl in Hf. congruence.
  - simpl. pose proof (lookup_lt_Some _ _ _ Hj) as Hlt.
    rewrite validatedFocus_in_range by (rewrite Hsize; unfold size; lia).
    replace (Z.of_nat j >=? 0)%Z with true by (symmetry; rewrite Z.geb_leb; apply Z.leb_le; lia).
    rewrite Nat2Z.id, Hitems, Hj. simpl.
    assert (x = VRef p) as ->.
    { inversion Hx as [Hsame]. destruct x; try discriminate. simpl in Hsame.
      apply Nat.eqb_eq in Hsame. by subst. }
    replace (existsb (same_property p) (items_value c w)) with true; [done|].
    symmetry. apply existsb_exists. exists (VRef p). split.
    + apply list_elem_of_In. by eapply list_elem_of_lookup_2.
    + simpl. apply Nat.eqb_refl.
Qed.

Lemma SetCurrentByProperty_selects_witness :
  exists w',
    SetCurrentByProperty plain_host three.1 2 three.2 = Some (Returned w') /\
    CurrentAsProperty three.1 w' = Some (Val (VRef 2)).
Proof.
  assert (wf three.2) as Hwf.
  { intros i n Hi.
    do 9 (destruct i as [|i]; [inversion Hi; subst; simpl; split; constructor|]).
    simpl in Hi. by rewrite lookup_nil in Hi. }
  destruct (SetCurrentByProperty_selects plain_host three.1 2 three.2 _ Hwf eq_refl)
    as (w' & Hrun & _ & Hcur); [simpl; discriminate|].
  exists w'. split; [exact Hrun|exact Hcur].
Defined.

(** A new collection holds one boxed element per initial model, in order,
    each with the mapped model as its value; nothing is selected
    ([CurrentAsIndex] is -1, and the current property and model are null
    even when the collection is empty or not); the items property is
    Undefined, so the first observer starts a fetch; and the nodes that
    existed before are untouched. *)
Theorem new_Collection_initial_state (H : host) (default_ : nat -> jsval)
    (initial : list jsval) (mapFunc : option (jsval -> jsval)) (w : world) :
  wf w ->
  let cw := new_Collection default_ initial mapFunc w in
  collection_at cw.1 cw.2 (items_value cw.1 cw.2) /\
  size cw.1 cw.2 = length initial /\
  (forall i e, initial !! i = Some e ->
     exists x, items_value cw.1 cw.2 !! i = Some x /\
               property_value cw.2 x = Some (mapped mapFunc e)) /\
  CurrentAsIndex cw.1 cw.2 = Some (Val (-1)%Z) /\
  CurrentAsProperty cw.1 cw.2 = Some (Val VNull) /\
  CurrentAsModel H cw.1 cw.2 = Some (Val VNull) /\
  revision_at (c_items cw.1) cw.2 = Some 0 /\
  (forall j, j < length (nodes w) -> nodes cw.2 !! j = nodes w !! j).
Proof.
  intros Hwf cw.
  destruct (new_Collection_at default_ initial mapFunc w Hwf) as (Hc & HvF & Hrev & Hel & Hold).
  fold cw in Hc, HvF, Hrev, Hel, Hold.
  pose proof Hc as (_&_&_&HI&_). pose proof (value_at_items _ _ _ HI) as Hitems.
  pose proof (focus_value_of_value_at _ _ _ HvF) as Hfocus.
  assert (size cw.1 cw.2 = length initial) as Hsize
    by (unfold size; by rewrite Hitems, length_map, length_seq).
  assert (validatedFocus cw.1 cw.2 (-1) = Val (-1)%Z) as Hvalid
    by (apply validatedFocus_in_range; lia).
  rewrite Hitems. split; [done|]. split; [done|]. split; [|split; [|split; [|split]]].
  - intros i e Hi. exists (VRef (S (length (nodes w)) + i)). split.
    + rewrite list_lookup_fmap, lookup_seq_lt by (by eapply lookup_lt_Some). done.
    + simpl. apply (Hel i e Hi).
  - by apply focus_valid; [|lia].
  - unfold CurrentAsProperty. rewrite Hfocus. simpl. by rewrite Hvalid.
  - unfold CurrentAsModel. rewrite Hfocus. simpl. by rewrite Hvalid.
  - done.
Qed.

Lemma new_Collection_initial_state_witness :
  size scenario.1 scenario.2 = 2 /\
  CurrentAsIndex scenario.1 scenario.2 = Some (Val (-1)%Z) /\
  CurrentAsModel plain_host scenario.1 scenario.2 = Some (Val VNull).
Proof.
  destruct (new_Collection_initial_state plain_host (fun _ => VObj [])
              [model_id 1; model_id 2] None empty_world wf_empty)
    as (_ & Hsize & _ & Hidx & _ & Hmodel & _).
  split; [exact Hsize|]. split; [exact Hidx|exact Hmodel].
Defined.

(** [deleteIndex(i)] on an index of the collection removes exactly that
    element, calls [deleteFunc] with its model, and resets the focus: to
    the first element when one is left, to -1 when none is; [__focus]
    holds that number and the current index afterwards is that focus,
    whatever was selected before. *)
Theorem deleteIndex_removes_and_refocuses (H : host) (c : collection) (index : nat)
    (w : world) (l : list jsval) (x m : jsval) :
  collection_at c w l ->
  l !! index = Some x ->
  property_model H w x = Some m ->
  exists w',
    deleteIndex H c index w = Some (Returned w') /\
    items_value c w' = take index l ++ drop (S index) l /\
    size c w' = length l - 1 /\
    CurrentAsIndex c w' = Some (Val (if length l =? 1 then (-1)%Z else 0%Z)) /\
    EDeleteFunc m ∈ trace w' /\
    (length l = 1 -> CurrentAsModel H c w' = Some (Val VNull)) /\
    focus_value c w' = Some (if length l =? 1 then (-1)%Z else 0%Z).
Proof.
  intros Hc Hx Hm.
  destruct (deleteIndex_in_range H c index w l x m Hc Hx Hm)
    as (w' & Hrun & Hc' & _ & Hfocus & Htrace).
  pose proof (lookup_lt_Some _ _ _ Hx) as Hidx.
  destruct Hc' as (_&_&_&HI'&_). pose proof (value_at_items _ _ _ HI') as Hitems.
  assert (size c w' = length l - 1) as Hsize.
  { unfold size. rewrite Hitems, length_app, length_take, length_drop. lia. }
  exists w'. split; [done|]. split; [done|]. split; [done|].
  split; [|split; [done|split; [|done]]].
  - apply focus_valid; [done|]. rewrite Hsize.
    destruct (Nat.eqb_spec (length l) 1); lia.
  - intros Hone. unfold CurrentAsModel. rewrite Hfocus, Hone. simpl.
    rewrite validatedFocus_in_range by lia. done.
Qed.

Lemma deleteIndex_removes_and_refocuses_witness :
  exists w',
    deleteIndex plain_host three.1 1 three.2 = Some (Returned w') /\
    items_value three.1 w' = [VRef 1; VRef 3] /\
    CurrentAsIndex three.1 w' = Some (Val 0%Z).
Proof.
  destruct (new_Collection_at (fun _ => VObj []) [model_id 1; model_id 2; model_id 3]
              None empty_world wf_empty) as (Hc & _).
  destruct (deleteIndex_removes_and_refocuses plain_host three.1 1 three.2 _ (VRef 2)
              (model_id 2) Hc eq_refl eq_refl) as (w' & Hrun & Hitems & _ & Hidx & _).
  exists w'. split; [exact Hrun|]. split; [exact Hitems|exact Hidx].
Defined.

(** [deleteIndex(i)] with an index beyond the end raises, and by then it
    has already reset the focus: the elements are all still there, but the
    selection has moved to the first element (or to -1 on an empty
    collection). *)
Theorem deleteIndex_beyond_end_raises_after_refocus (H : host) (c : collection)
    (index : nat) (w : world) (l : list jsval) :
  collection_at c w l ->
  length l <= index ->
  exists w',
    deleteIndex H c index w = Some (Thrown w') /\
    items_value c w' = l /\
    focus_value c w' = Some (if length l =? 0 then (-1)%Z else 0%Z).
Proof. apply deleteIndex_out_of_range. Qed.

Lemma deleteIndex_beyond_end_raises_after_refocus_witness :
  exists w',
    deleteIndex plain_host three.1 3 three.2 = Some (Thrown w') /\
    size three.1 w' = 3 /\ focus_value three.1 w' = Some 0%Z.
Proof.
  destruct (new_Collection_at (fun _ => VObj []) [model_id 1; model_id 2; model_id 3]
              None empty_world wf_empty) as (Hc & _).
  destruct (deleteIndex_beyond_end_raises_after_refocus plain_host three.1 3 three.2 _ Hc)
    as (w' & Hrun & Hitems & Hfocus); [simpl; lia|].
  exists w'. split; [exact Hrun|]. split; [|exact Hfocus].
  unfold size. rewrite Hitems. reflexivity.
Defined.

(** [delete(p)] on a collection whose models can all be read returns, and
    what it leaves is what a left-to-right pass leaves that drops a
    matching element and steps over its successor.  So it never removes an
    element whose model fails [p], the survivors keep their order, and
    their models are unchanged. *)
Theorem delete_removes_only_matching (H : host) (c : collection) (p : jsval -> bool)
    (w : world) (l : list jsval) :
  collection_at c w l ->
  Forall (fun x => is_Some (property_model H w x)) l ->
  exists w',
    delete H c p w = Some (Returned w') /\
    items_value c w' = skip_delete (model_passes H w p) l /\
    sublist (items_value c w') l /\
    sublist (List.filter (fun x => negb (model_passes H w p x)) l) (items_value c w') /\
    (forall x, x ∈ l -> property_model H w' x = property_model H w x).
Proof.
  intros Hc Hsome. destruct (delete_spec H c p w l Hc Hsome) as (w' & Hrun & Hitems & Hm).
  exists w'. split; [done|]. split; [done|]. rewrite Hitems.
  split; [by apply (skip_delete_sublist _ (length l))|].
  split; [by apply (skip_delete_keeps_failing _ (length l))|done].
Qed.

Lemma delete_removes_only_matching_witness :
  exists w',
    delete plain_host three.1 (has_id 2) three.2 = Some (Returned w') /\
    items_value three.1 w' = [VRef 1; VRef 3].
Proof.
  destruct (new_Collection_at (fun _ => VObj []) [model_id 1; model_id 2; model_id 3]
              None empty_world wf_empty) as (Hc & _).
  destruct (delete_removes_only_matching plain_host three.1 (has_id 2) three.2 _ Hc)
    as (w' & Hrun & Hitems & _).
  - repeat constructor; by eexists.
  - exists w'. split; [exact Hrun|exact Hitems].
Defined.

(** When no two neighbouring elements both match, [delete(p)] removes
    every matching element: what is left is exactly the elements whose
    model fails [p], and no model left in the collection passes it. *)
Theorem delete_complete_without_matching_neighbours (H : host) (c : collection)
    (p : jsval -> bool) (w : world) (l : list jsval) :
  collection_at c w l ->
  Forall (fun x => is_Some (property_model H w x)) l ->
  no_adjacent (model_passes H w p) l = true ->
  exists w',
    delete H c p w = Some (Returned w') /\
    items_value c w' = List.filter (fun x => negb (model_passes H w p x)) l /\
    Forall (fun x => model_passes H w' p x = false) (items_value c w').
Proof.
  intros Hc Hsome Hadj.
  destruct (delete_spec H c p w l Hc Hsome) as (w' & Hrun & Hitems & Hm).
  rewrite (skip_delete_no_adjacent _ (length l)) in Hitems by done.
  exists w'. split; [done|]. split; [done|]. rewrite Hitems.
  apply Forall_forall. intros x Hx. apply list_elem_of_In, List.filter_In in Hx as [Hx Hf].
  apply list_elem_of_In in Hx. unfold model_passes in *. rewrite (Hm x Hx).
  by apply negb_true_iff in Hf.
Qed.

Lemma delete_complete_without_matching_neighbours_witness :
  exists w',
    delete plain_host three.1 (fun m => negb (has_id 2 m)) three.2 = Some (Returned w') /\
    items_value three.1 w' = [VRef 2].
Proof.
  destruct (new_Collection_at (fun _ => VObj []) [model_id 1; model_id 2; model_id 3]
              None empty_world wf_empty) as (Hc & _).
  destruct (delete_complete_without_matching_neighbours plain_host three.1
              (fun m => negb (has_id 2 m)) three.2 _ Hc) as (w' & Hrun & Hitems & _).
  - repeat constructor; by eexists.
  - reflexivity.
  - exists w'. split; [exact Hrun|exact Hitems].
Defined.

(** [reverse()] keeps the elements and their number and does not move the
    focus; a second [reverse()] restores the order. *)
Theorem reverse_twice_restores (c : collection) (w : world) (l : list jsval) :
  value_at (c_items c) w = Some (VArr l) ->
  c_focus c <> c_items c ->
  items_value c (reverse c w) = rev l /\
  size c (reverse c w) = size c w /\
  focus_value c (reverse c w) = focus_value c w /\
  items_value c (reverse c (reverse c w)) = items_value c w.
Proof.
  intros HI Hne.
  pose proof (value_at_items _ _ _ HI) as Hitems.
  assert (c_items c < length (nodes w)) as Hlt.
  { unfold value_at in HI. destruct (nodes w !! c_items c) eqn:Hn; [|done].
    by eapply lookup_lt_Some. }
  assert (forall l0 w0, c_items c < length (nodes w0) ->
            value_at (c_items c) (_triggerChangeHandlers (c_items c) (items_mutate c l0 w0))
            = Some (VArr l0)) as Hmut.
  { intros l0 w0 Hlt0. rewrite (value_at_nodes_eq (items_mutate c l0 w0))
      by apply triggerChangeHandlers_nodes. by apply items_mutate_items. }
  assert (value_at (c_items c) (reverse c w) = Some (VArr (rev l))) as HI1.
  { unfold reverse. rewrite Hitems. by apply Hmut. }
  pose proof (value_at_items _ _ _ HI1) as Hitems1.
  split; [done|]. split; [unfold size; by rewrite Hitems1, Hitems, length_rev|].
  split.
  - apply focus_value_value_at. unfold reverse.
    rewrite (value_at_nodes_eq (items_mutate c (rev (items_value c w)) w))
      by apply triggerChangeHandlers_nodes.
    by apply items_mutate_value_at.
  - apply value_at_items. unfold reverse at 1. rewrite Hitems1, rev_involutive, Hitems.
    apply Hmut. unfold reverse. rewrite triggerChangeHandlers_nodes, items_mutate_length.
    done.
Qed.

Lemma reverse_twice_restores_witness :
  items_value three.1 (reverse three.1 three.2) = [VRef 3; VRef 2; VRef 1] /\
  items_value three.1 (reverse three.1 (reverse three.1 three.2)) = [VRef 1; VRef 2; VRef 3].
Proof.
  destruct (reverse_twice_restores three.1 three.2 [VRef 1; VRef 2; VRef 3] eq_refl)
    as (Hrev & _ & _ & Htwice); [simpl; discriminate|].
  split; [exact Hrev|exact Htwice].
Defined.

(** [add(m)] followed by [deleteIndex] of the appended index restores the
    elements of the collection: both calls return, [addFunc] was called
    with the model and [deleteFunc] with the model read back from the new
    element. *)
Theorem add_then_deleteIndex_restores (H : host) (c : collection) (m : jsval)
    (w : world) (l : list jsval) :
  collection_at c w l ->
  nullish (_map c m) = false ->
  exists w1 w2,
    add H c m w = Some (Returned w1) /\
    size c w1 = S (length l) /\
    deleteIndex H c (length l) w1 = Some (Returned w2) /\
    items_value c w2 = l /\
    EAddFunc m ∈ trace w1 /\
    EDeleteFunc (default (_map c m) (toModel H (_map c m))) ∈ trace w2.
Proof.
  intros Hc Hnull.
  destruct (add_spec H c m w l Hc) as (w1 & Hadd & Hc1 & Hp & _ & _ & Hadded).
  assert (property_model H w1 (VRef (length (nodes w)))
          = Some (default (_map c m) (toModel H (_map c m)))) as Hm.
  { unfold property_model. unfold value_at in Hp.
    destruct (nodes w1 !! length (nodes w)) as [n|]; [|done]. simpl in *.
    inversion Hp as [Hv]. by rewrite Hv, Hnull. }
  destruct (deleteIndex_in_range H c (length l) w1 _ (VRef (length (nodes w)))
              (default (_map c m) (toModel H (_map c m))) Hc1)
    as (w2 & Hdel & Hc2 & _ & _ & Hdeleted); [|exact Hm|].
  { rewrite lookup_app_r by lia. by rewrite Nat.sub_diag. }
  exists w1, w2. split; [done|]. split.
  { destruct Hc1 as (_&_&_&HI1&_). unfold size.
    rewrite (value_at_items _ _ _ HI1), length_app. simpl. lia. }
  split; [done|]. split; [|done].
  destruct Hc2 as (_&_&_&HI2&_). rewrite (value_at_items _ _ _ HI2).
  rewrite take_app_length, drop_app_ge by lia.
  replace (S (length l) - length l) with 1 by lia. simpl. by rewrite app_nil_r.
Qed.

Lemma add_then_deleteIndex_restores_witness :
  exists w1 w2,
    add plain_host scenario.1 (model_id 3) scenario.2 = Some (Returned w1) /\
    deleteIndex plain_host scenario.1 2 w1 = Some (Returned w2) /\
    items_value scenario.1 w2 = [VRef 1; VRef 2].
Proof.
  destruct (new_Collection_at (fun _ => VObj []) [model_id 1; model_id 2]
              None empty_world wf_empty) as (Hc & _).
  destruct (add_then_deleteIndex_restores plain_host scenario.1 (model_id 3) scenario.2
              _ Hc eq_refl) as (w1 & w2 & Hadd & _ & Hdel & Hitems & _).
  exists w1, w2. split; [exact Hadd|]. split; [exact Hdel|exact Hitems].
Defined.

(** The decision of [reset], once every dependency is Defined: [getFunc] is
    called, once, exactly when the node is not Updating and either has no
    dependencies, or the reset is forced, or some dependency is dirty.
    Whatever the decision, value and revision stay, and the node is
    Updating afterwards iff it was or a fetch was started. *)
Theorem reset_fetches_exactly_when (force : bool) (i : nat) (n : node) (w w' : world) :
  nodes w !! i = Some n ->
  inputs_defined w n ->
  reset force i w = Some w' ->
  trace w' = trace w ++ (if fetches force w n then [EGet i] else []) /\
  value_at i w' = Some (p_value n) /\
  revision_at i w' = Some (p_revision n) /\
  updating_at i w' = Some (p_isAsyncUpdating n || fetches force w n).
Proof.
  intros Hi Hdef Hrun. rewrite (reset_inputs_defined _ _ _ _ Hi Hdef) in Hrun.
  inversion Hrun; subst w'; clear Hrun.
  pose proof (lookup_lt_Some _ _ _ Hi) as Hlen.
  unfold reset_here, fetches. pose proof (track_dirty_existsb w n) as Hsome.
  destruct (track_dirty w (p_dependencies n)) as [ds some]. simpl in Hsome. subst some.
  unfold value_at, revision_at, updating_at.
  destruct (p_dependencies n) as [|d0 ds0]; simpl;
    destruct force, (some_dirty w n), (p_isAsyncUpdating n) eqn:Hu; simpl;
    unfold emit, put; simpl; rewrite ?list_insert_insert_eq, ?app_nil_r;
    rewrite list_lookup_insert_eq by done; simpl; rewrite ?Hu; done.
Qed.

Lemma reset_fetches_exactly_when_witness :
  exists w', reset true 1 w_tracked = Some w' /\ trace w' = trace w_tracked ++ [EGet 1].
Proof.
  eexists. split; [reflexivity|].
  refine (proj1 (reset_fetches_exactly_when true 1 _ w_tracked _ eq_refl _ eq_refl)).
  repeat constructor. eexists. split; [reflexivity|]. simpl. lia.
Defined.

(** What a settled fetch leaves when nothing is committed.  The resolved
    values that are dropped are exactly [undefined], [null], [false] and
    the empty string; for those, and for a rejection, value and revision of
    the node and all other nodes stay as they are and the Updating flag is
    cleared; a dropped value calls nothing, a rejection calls
    [console.error] once. *)
Theorem settle_without_commit (H : host) (exn : jsval) (i : nat) (r : settled)
    (w : world) (n : node) :
  nodes w !! i = Some n ->
  match r with Resolved v => dropped v | Rejected _ => True end ->
  settle H exn i r w =
    Some {| nodes := <[i := set_updating false (pred (p_pending n)) n]> (nodes w);
            trace := trace w ++ match r with
                                | Resolved _ => []
                                | Rejected reason => [EConsoleError i reason]
                                end |} /\
  (forall v, truthy v || is_number_or_bigint v = false <-> dropped v).
Proof.
  intros Hi Hr. split.
  - destruct r as [v|reason].
    + rewrite (settle_not_committed H exn i v w n Hi); [by rewrite app_nil_r| |];
        destruct Hr as [-> |[-> |[-> | ->]]]; done.
    + by apply settle_rejected.
  - intros v. unfold dropped. split.
    + intros Hs. apply orb_false_iff in Hs as [Ht Hn].
      destruct v as [| |[|]|z| |z|s| | |]; simpl in Ht, Hn; try discriminate; auto.
      apply negb_false_iff in Ht. apply String.eqb_eq in Ht. subst. auto.
    + intros [-> |[-> |[-> | ->]]]; done.
Qed.

Lemma settle_without_commit_witness :
  exists w', settle plain_host VUndefined 0 (Resolved VNull) w_fetching = Some w' /\
    trace w' = trace w_fetching ++ [] /\ updating_at 0 w' = Some false.
Proof.
  destruct (settle_without_commit plain_host VUndefined 0 (Resolved VNull) w_fetching _
              eq_refl) as [Hrun _]; [right; by left|].
  eexists. split; [exact Hrun|]. split; reflexivity.
Defined.

(** There is no cancellation.  [_reinit] of a node whose fetch is in flight
    puts it back to revision 0 but leaves it Updating; when the promise
    then resolves with a truthy primitive, the value is committed all the
    same: the node is Defined again, at revision 1. *)
Theorem late_result_survives_reinit (H : host) (exn : jsval) (i : nat) (v : jsval)
    (w : world) (n : node) :
  wf w ->
  nodes w !! i = Some n ->
  1 <= p_revision n ->
  p_isAsyncUpdating n = true ->
  p_pending n = 1 ->
  truthy v = true ->
  is_object v = false ->
  exists w1 w2,
    _reinit i w = Some w1 /\
    revision_at i w1 = Some 0 /\
    updating_at i w1 = Some true /\
    run H (OpSettle exn i (Resolved v)) w1 = Some w2 /\
    value_at i w2 = Some v /\
    revision_at i w2 = Some 1 /\
    updating_at i w2 = Some false.
Proof.
  intros Hwf Hi Hrev Hu Hp Htruthy Hobj.
  destruct (reinit_spec i w n Hwf Hi) as (w1 & Hrun & Hi1).
  replace (0 <? p_revision n) with true in Hi1 by (symmetry; by apply Nat.ltb_lt).
  assert (wf w1) as Hwf1.
  { eapply same_shape_wf; [|exact Hwf]. apply reinit_step_shape.
    by eapply reinit_step_of_reinit. }
  destruct (settle_commits_primitive H exn i v w1 (reinit_node n) Hwf1 Hi1)
    as (w2 & gs & Hsettle & Hi2 & _); try done.
  { unfold reinit_node. simpl. by destruct (p_cached n). }
  { unfold reinit_node. simpl. destruct (p_cached n); simpl; lia. }
  exists w1, w2. split; [done|].
  split; [unfold revision_at; by rewrite Hi1|].
  split. { unfold updating_at. rewrite Hi1. unfold reinit_node. simpl.
           destruct (p_cached n); simpl; by rewrite Hu. }
  split; [done|]. unfold value_at, revision_at, updating_at. rewrite Hi2. done.
Qed.

Lemma late_result_survives_reinit_witness :
  exists w1 w2,
    _reinit 0 w_defined_fetching = Some w1 /\ revision_at 0 w1 = Some 0 /\
    run plain_host (OpSettle VUndefined 0 (Resolved (VNum 8))) w1 = Some w2 /\
    value_at 0 w2 = Some (VNum 8) /\ revision_at 0 w2 = Some 1.
Proof.
  assert (wf w_defined_fetching) as Hwf.
  { intros i n Hi. destruct i as [|i]; [inversion Hi; subst; simpl; split; constructor|].
    simpl in Hi. by rewrite lookup_nil in Hi. }
  destruct (late_result_survives_reinit plain_host VUndefined 0 (VNum 8)
              w_defined_fetching _ Hwf eq_refl)
    as (w1 & w2 & Hre & Hr1 & _ & Hsettle & Hv2 & Hr2 & _);
    try reflexivity; try (simpl; lia).
  exists w1, w2.
  split; [exact Hre|]. split; [exact Hr1|]. split; [exact Hsettle|]. split; [exact Hv2|exact Hr2].
Defined.

(** A Property and an Aggregate with the same name under the same named
    ancestors have the same path; they part at an ancestor without a name,
    where [Aggregate.path] stops and [Property.path] goes on under the
    segment "undefined". *)
Theorem paths_agree_under_named_ancestors (name : string) (named above : list string) :
  Forall (fun a => a <> EmptyString) named ->
  Property_path name named = Aggregate_path name named /\
  Aggregate_path name (named ++ EmptyString :: above) = Aggregate_path name named /\
  Property_path name (named ++ EmptyString :: above)
    = Property_path ("undefined." +:+ Property_path name named) above.
Proof.
  intros Hnamed. revert name.
  induction Hnamed as [|a named Ha _ IH]; intros name; simpl; [done|].
  apply String.eqb_neq in Ha. rewrite Ha. apply IH.
Qed.

Lemma paths_agree_under_named_ancestors_witness :
  Property_path "Name" ["Customer"; "ViewModel"] = "ViewModel.Customer.Name" /\
  Aggregate_path "Name" ["Customer"; "ViewModel"] = "ViewModel.Customer.Name".
Proof.
  destruct (paths_agree_under_named_ancestors "Name" ["Customer"; "ViewModel"] [])
    as (Hagree & _ & _).
  - repeat constructor; discriminate.
  - split; [reflexivity|]. rewrite <- Hagree. reflexivity.
Defined.

Lemma string_append_assoc (a b c : string) : (a +:+ b) +:+ c = a +:+ b +:+ c.
Proof.
  induction a as [|ch a IH]; [done|].
  change (String ch ((a +:+ b) +:+ c) = String ch (a +:+ b +:+ c)). by f_equal.
Qed.

Lemma starts_with_digit_append (a b : string) :
  a <> EmptyString -> starts_with_digit (a +:+ b) = starts_with_digit a.
Proof. by destruct a. Qed.

Lemma append_not_empty (a b : string) : a <> EmptyString -> a +:+ b <> EmptyString.
Proof. by destruct a. Qed.

(** What is written after a path that starts with no digit stays at its
    end, whatever is above, as long as no name above starts with a digit. *)
Lemma Property_path_suffix (up : list string) : forall thisPath s : string,
  thisPath <> EmptyString ->
  starts_with_digit thisPath = false ->
  Forall (fun a => starts_with_digit a = false) up ->
  Property_path (thisPath +:+ s) up = Property_path thisPath up +:+ s.
Proof.
  induction up as [|a up IH]; intros thisPath s Hne Hd Hup; simpl; [done|].
  inversion Hup as [|? ? Ha Hup']; subst.
  destruct (String.eqb_spec a EmptyString) as [->|Hna].
  - change ("undefined." +:+ thisPath +:+ s) with (("undefined." +:+ thisPath) +:+ s).
    by apply IH.
  - unfold qualified. destruct (String.eqb_spec a "__items") as [->|Hitems].
    + by apply IH.
    + rewrite starts_with_digit_append, Hd by done.
      replace (a +:+ "." +:+ thisPath +:+ s) with ((a +:+ "." +:+ thisPath) +:+ s)
        by (by rewrite !string_append_assoc).
      apply IH; [by apply append_not_empty| |done].
      by rewrite starts_with_digit_append.
Qed.

Lemma Property_path_named (name : string) (named : list string) :
  Forall (fun a => a <> EmptyString) named ->
  Property_path name named = Aggregate_path name named.
Proof.
  intros Hnamed. revert name.
  induction Hnamed as [|a named Ha _ IH]; intros name; simpl; [done|].
  apply String.eqb_neq in Ha. rewrite Ha. apply IH.
Qed.

(** The path of an element of a collection.  The names along the chain of
    parents are given: the element is named by its index, its parent is
    the items property, named "__items", of a collection named [N], under
    the ancestors [up].  When neither [N] nor a name above it starts with
    a digit, the path of the element is what [Property.path] gives for the
    name [N] under [up], followed by the index in brackets: "__items"
    leaves no segment.  When every ancestor has a name, that is the path
    of the collection itself ([Aggregate.path]) followed by the index in
    brackets. *)
Theorem element_path_is_indexed (index N : string) (up : list string) :
  starts_with_digit index = true ->
  N <> EmptyString ->
  N <> "__items" ->
  Forall (fun a => starts_with_digit a = false) (N :: up) ->
  Property_path index ("__items" :: N :: up)
    = Property_path N up +:+ "[" +:+ index +:+ "]" /\
  (Forall (fun a => a <> EmptyString) up ->
   Property_path index ("__items" :: N :: up)
     = Aggregate_path N up +:+ "[" +:+ index +:+ "]").
Proof.
  intros Hdigit HN Hitems Hnames.
  inversion Hnames as [|? ? HdN Hup]; subst.
  assert (Property_path index ("__items" :: N :: up)
          = Property_path N up +:+ "[" +:+ index +:+ "]") as Heq.
  { simpl. unfold qualified. simpl.
    pose proof HN as HN'. pose proof Hitems as Hitems'.
    apply String.eqb_neq in HN', Hitems'. rewrite HN', Hitems', Hdigit.
    by apply Property_path_suffix. }
  split; [exact Heq|].
  intros Hnamed. rewrite Heq. by rewrite Property_path_named.
Qed.

Lemma element_path_is_indexed_witness :
  Property_path "2" ["__items"; "Orders"; "ViewModel"] = "ViewModel.Orders[2]" /\
  Aggregate_path "Orders" ["ViewModel"] = "ViewModel.Orders".
Proof.
  destruct (element_path_is_indexed "2" "Orders" ["ViewModel"]) as [_ Hagg];
    [reflexivity|discriminate|discriminate|repeat constructor|].
  split; [|reflexivity].
  rewrite Hagg; [reflexivity|]. repeat constructor. discriminate.
Defined.

(** [SetCurrentByPredicate(p)] selects the first element whose value (the
    aggregate, not the model) passes [p]: [CurrentAsAggregate] after it is
    that value, every value before it fails [p]; when no value passes,
    nothing is selected and [CurrentAsAggregate] is null. *)
Theorem SetCurrentByPredicate_selects_first (H : host) (c : collection)
    (p : jsval -> bool) (w : world) (l : list jsval) :
  collection_at c w l ->
  Forall (fun x => is_Some (property_value w x)) l ->
  exists w',
    SetCurrentByPredicate H c p w = Some (Returned w') /\
    items_value c w' = l /\
    ((CurrentAsAggregate c w' = Some (Val VNull) /\
      Forall (fun x => exists v, property_value w x = Some v /\ p v = false) l) \/
     (exists j x v,
        l !! j = Some x /\ property_value w x = Some v /\ p v = true /\
        CurrentAsIndex c w' = Some (Val (Z.of_nat j)) /\
        CurrentAsAggregate c w' = Some (Val v) /\
        Forall (fun y => exists v', property_value w y = Some v' /\ p v' = false)
               (take j l))).
Proof.
  intros Hc Hsome.
  pose proof Hc as (Hwf & Hne & HF & HI & Hall).
  pose proof (value_at_items _ _ _ HI) as Hitems.
  destruct (lookup_lt_is_Some_2 (nodes w) (c_focus c) HF) as [nF HnF].
  assert (forall x b, p <$> property_value w x = Some b ->
            exists v, property_value w x = Some v /\ p v = b) as Hfmap.
  { intros x b Hx. destruct (property_value w x) as [v|]; [|discriminate].
    exists v. split; [done|]. simpl in Hx. congruence. }
  unfold SetCurrentByPredicate. rewrite Hitems.
  destruct (first_match (fun x => p <$> property_value w x) l 0) as [r|] eqn:Hfirst.
  2:{ exfalso. clear -Hfirst Hsome. revert Hfirst. generalize 0.
      induction Hsome as [|x l [v Hv] _ IH]; intros i0; simpl; [done|].
      rewrite Hv. simpl. destruct (p v); [done|apply IH]. }
  simpl.
  destruct (focus_assign H c (index_or_minus_one r) w nF Hwf HnF)
    as (w' & Hset & _ & Hkept & Hfocus).
  pose proof (values_kept_items (c_focus c) c w w' Hkept (not_eq_sym Hne)) as Hitems'.
  pose proof (values_kept_size (c_focus c) c w w' Hkept (not_eq_sym Hne)) as Hsize.
  rewrite Hitems in Hitems'. unfold size in Hsize. rewrite Hitems in Hsize.
  exists w'. split; [done|]. split; [done|].
  destruct (first_match_spec _ _ _ _ Hfirst) as [[-> Hnone]|(j & x & -> & Hj & Hx & Hbefore)].
  - left. split.
    + unfold CurrentAsAggregate. rewrite Hfocus. simpl.
      by rewrite validatedFocus_in_range by lia.
    + eapply Forall_impl; [exact Hnone|]. intros x Hx. by apply Hfmap.
  - right. destruct (Hfmap x true Hx) as (v & Hv & Hp).
    pose proof (lookup_lt_Some _ _ _ Hj) as Hlt.
    assert (validatedFocus c w' (Z.of_nat j) = Val (Z.of_nat j)) as Hvalid
      by (apply validatedFocus_in_range; unfold size; rewrite Hitems'; lia).
    destruct (collection_at_element c w l j x Hc Hj) as (q & -> & HqF & _).
    assert (property_value w' (VRef q) = Some v) as Hv'.
    { simpl in *. pose proof (values_kept_value_at _ _ _ q Hkept HqF) as Hq.
      unfold value_at in Hq. by rewrite Hq. }
    exists j, (VRef q), v. split; [done|]. split; [done|]. split; [done|].
    split; [unfold CurrentAsIndex; rewrite Hfocus; simpl; by rewrite Hvalid|].
    split.
    + unfold CurrentAsAggregate. rewrite Hfocus. simpl. rewrite Hvalid.
      replace (Z.of_nat j >=? 0)%Z with true
        by (symmetry; rewrite Z.geb_leb; apply Z.leb_le; lia).
      rewrite Nat2Z.id, Hitems', Hj.
      change (property_value w' (VRef q) ≫= (fun v0 => Some (Val v0)) = Some (Val v)).
      by rewrite Hv'.
    + eapply Forall_impl; [exact Hbefore|]. intros y Hy. by apply Hfmap.
Qed.

Lemma SetCurrentByPredicate_selects_first_witness :
  exists w',
    SetCurrentByPredicate plain_host three.1 (has_id 3) three.2 = Some (Returned w') /\
    items_value three.1 w' = [VRef 1; VRef 2; VRef 3].
Proof.
  destruct (new_Collection_at (fun _ => VObj []) [model_id 1; model_id 2; model_id 3]
              None empty_world wf_empty) as (Hc & _).
  destruct (SetCurrentByPredicate_selects_first plain_host three.1 (has_id 3) three.2 _ Hc)
    as (w' & Hrun & Hitems & _).
  - repeat constructor; by eexists.
  - exists w'. split; [exact Hrun|exact Hitems].
Defined.

(** [add(m)] on a collection of n boxed elements returns with n+1
    elements, the last one a new Property holding the (mapped) model.  The
    number it stores in [__focus] is the return value of [push], n+1, one
    past the last index; [CurrentAsIndex], [CurrentAsProperty] and
    [CurrentAsModel], which read the focus through [validatedFocus], give
    n, the new Property and its model. *)
Theorem add_appends_and_focuses (H : host) (c : collection) (m : jsval) (w : world)
    (nI nF : node) (l : list jsval) :
  wf w ->
  nodes w !! c_items c = Some nI ->
  p_value nI = VArr l ->
  nodes w !! c_focus c = Some nF ->
  c_focus c <> c_items c ->
  exists w',
    add H c m w = Some (Returned w') /\
    size c w = length l /\
    size c w' = S (length l) /\
    items_value c w' = l ++ [VRef (length (nodes w))] /\
    value_at (length (nodes w)) w' = Some (_map c m) /\
    CurrentAsIndex c w' = Some (Val (Z.of_nat (length l))) /\
    CurrentAsProperty c w' = Some (Val (VRef (length (nodes w)))) /\
    (nullish (_map c m) = false ->
     CurrentAsModel H c w' = Some (Val (default (_map c m) (toModel H (_map c m))))) /\
    focus_value c w' = Some (Z.of_nat (S (length l))).
Proof.
  intros Hwf HI HvI HF Hne.
  pose proof (lookup_lt_Some _ _ _ HI) as HltI.
  pose proof (lookup_lt_Some _ _ _ HF) as HltF.
  set (p := length (nodes w)) in *.
  remember (new_Property (fun _ => _map c m) false [] (emit (EAddFunc m) w)) as w2 eqn:Hdef2.
  assert (exists np, nodes w2 = nodes w ++ [np] /\ p_value np = _map c m) as (np & Hw2 & Hnp).
  { rewrite Hdef2. eexists. split; [reflexivity|done]. }
  assert (wf w2) as Hwf2.
  { rewrite Hdef2. apply new_Property_wf; [done|]. by apply (wf_nodes_eq w). }
  assert (nodes w2 !! c_items c = Some nI) as HI2
    by (rewrite Hw2; by apply lookup_app_l_Some).
  assert (items_value c w2 = l) as Hl2 by (unfold items_value; by rewrite HI2, HvI).
  set (l' := l ++ [VRef p]).
  set (nI' := set_state (VArr l') (p_revision nI) (p_default_calls nI) nI).
  set (w3 := put (c_items c) nI' w2).
  assert (items_mutate c l' w2 = w3) as Hw3 by (unfold items_mutate; by rewrite HI2).
  assert (wf w3) as Hwf3.
  { eapply same_shape_wf; [|exact Hwf2]. by apply put_same_shape with (n := nI). }
  assert (nodes w3 !! c_focus c = Some nF) as HF3.
  { unfold w3, put. simpl. rewrite list_lookup_insert_ne by done.
    rewrite Hw2. by apply lookup_app_l_Some. }
  assert (length (nodes w3) = S p) as Hlen3.
  { unfold w3, put. simpl. rewrite length_insert, Hw2, length_app. simpl. lia. }
  set (z := Z.of_nat (length l')).
  destruct (set_number_returns H (c_focus c) z w3 nF Hwf3 HF3) as (w4 & t & Hset & Hstep).
  assert (exists n4, nodes w4 !! c_items c = Some n4 /\ p_value n4 = VArr l') as (nI4 & HI4 & HvI4).
  { destruct (reset_step_value _ w4 (c_items c) nI' Hstep) as (n4 & ? & ?); [|by eauto].
    simpl. unfold committed. rewrite list_lookup_insert_ne by done.
    unfold w3, put. simpl. apply list_lookup_insert_eq. rewrite Hw2, length_app. simpl. lia. }
  assert (exists n4, nodes w4 !! c_focus c = Some n4 /\ p_value n4 = VNum z) as (nF4 & HF4 & HvF4).
  { destruct (reset_step_value _ w4 (c_focus c)
                (set_state (VNum z) (S (p_revision nF)) (p_default_calls nF) nF) Hstep)
      as (n4 & ? & ?); [|by eauto].
    simpl. unfold committed. apply list_lookup_insert_eq. lia. }
  assert (exists n4, nodes w4 !! p = Some n4 /\ p_value n4 = _map c m) as (np4 & Hp4 & Hvp4).
  { destruct (reset_step_value _ w4 p np Hstep) as (n4 & ? & ?); [|exists n4; split; congruence].
    simpl. unfold committed. rewrite list_lookup_insert_ne by lia.
    unfold w3, put. simpl. rewrite list_lookup_insert_ne by lia.
    rewrite Hw2. rewrite lookup_app_r by (unfold p; lia).
    replace (p - length (nodes w)) with 0 by (unfold p; lia). done. }
  exists (_triggerChangeHandlers (c_items c) w4).
  assert (add H c m w = Some (Returned (_triggerChangeHandlers (c_items c) w4))) as Hadd.
  { unfold add. cbv zeta. change (length (nodes (emit (EAddFunc m) w))) with p.
    rewrite <- Hdef2, Hl2. fold l'. rewrite Hw3. fold z.
    rewrite Hset. done. }
  assert (items_value c (_triggerChangeHandlers (c_items c) w4) = l') as Hitems.
  { unfold items_value. by rewrite triggerChangeHandlers_nodes, HI4, HvI4. }
  assert (size c (_triggerChangeHandlers (c_items c) w4) = S (length l)) as Hsize.
  { unfold size. rewrite Hitems. unfold l'. rewrite length_app. simpl. lia. }
  assert (focus_value c (_triggerChangeHandlers (c_items c) w4) = Some z) as Hfocus.
  { unfold focus_value. rewrite triggerChangeHandlers_nodes, HF4. simpl. by rewrite HvF4. }
  assert (validatedFocus c (_triggerChangeHandlers (c_items c) w4) z
          = Val (Z.of_nat (length l))) as Hvalid.
  { unfold validatedFocus. rewrite Hsize. unfold z, l'. rewrite length_app. simpl.
    rewrite Z.geb_leb.
    destruct (Z.ltb_spec (Z.of_nat (length l + 1)) (-1)); [lia|].
    destruct (Z.leb_spec (Z.of_nat (S (length l))) (Z.of_nat (length l + 1))); [|lia].
    simpl. f_equal. lia. }
  assert (l' !! Z.to_nat (Z.of_nat (length l)) = Some (VRef p)) as Hlast.
  { rewrite Nat2Z.id. unfold l'. rewrite lookup_app_r by lia.
    by rewrite Nat.sub_diag. }
  assert ((Z.of_nat (length l) >=? 0)%Z = true) as Hge
    by (rewrite Z.geb_leb; apply Z.leb_le; lia).
  split; [exact Hadd|].
  split; [unfold size, items_value; by rewrite HI, HvI|].
  split; [exact Hsize|]. split; [exact Hitems|].
  split; [unfold value_at; rewrite triggerChangeHandlers_nodes, Hp4; simpl; by rewrite Hvp4|].
  split; [unfold CurrentAsIndex; rewrite Hfocus; simpl; by rewrite Hvalid|].
  split; [|split].
  - unfold CurrentAsProperty. rewrite Hfocus. simpl. rewrite Hvalid, Hge, Hitems, Hlast. done.
  - intros Hnull. unfold CurrentAsModel. rewrite Hfocus. simpl.
    rewrite Hvalid, Hge, Hitems, Hlast. simpl.
    rewrite triggerChangeHandlers_nodes, Hp4. simpl. rewrite Hvp4, Hnull. done.
  - rewrite Hfocus. unfold z, l'. rewrite length_app. simpl. do 2 f_equal. lia.
Qed.

Lemma add_appends_and_focuses_witness :
  exists w',
    add plain_host scenario.1 (model_id 3) scenario.2 = Some (Returned w') /\
    size scenario.1 scenario.2 = 2 /\
    size scenario.1 w' = 3 /\
    CurrentAsIndex scenario.1 w' = Some (Val 2%Z) /\
    CurrentAsModel plain_host scenario.1 w' = Some (Val (model_id 3)).
Proof.
  assert (wf scenario.2) as Hwf.
  { intros i n Hi.
    do 8 (destruct i as [|i]; [inversion Hi; subst; simpl; split; constructor|]).
    simpl in Hi. by rewrite lookup_nil in Hi. }
  destruct (add_appends_and_focuses plain_host scenario.1 (model_id 3) scenario.2
              _ _ [VRef 1; VRef 2] Hwf eq_refl eq_refl eq_refl)
    as (w' & Hadd & Hn & Hsize & _ & _ & Hidx & _ & Hmodel & _).
  - simpl. discriminate.
  - exists w'. split; [exact Hadd|]. split; [exact Hn|]. split; [exact Hsize|].
    split; [exact Hidx|]. apply Hmodel. reflexivity.
Defined.
